(** * go-corpbankclient: the bearer-token protocol

    A shallow embedding of [bearer_token.go], of [Client.sign] in
    [client.go] and of [Client.WebhookHandler] in [webhook.go], together
    with executable models of the library calls they make
    (crypto/sha256, crypto/hmac, crypto/subtle, encoding/hex,
    encoding/base64, encoding/json, time, github.com/google/uuid).

    Conventions.
    - A Go [string] and a Go [[]byte] are both sequences of bytes; both are
      [list ascii] here, and a nil slice is the empty list.
    - Mutation through a pointer receiver is explicit state passing: a
      method returns the receiver's new value next to its result.
    - A Go [error] is [option E] ([None] is the nil error) or the [Err]
      side of [result]. *)

From Stdlib Require Import ZArith Ascii String Lia ZifyNat List Bool.
From stdpp Require Import gmap strings list.

Local Open Scope Z_scope.

(** ** Bytes *)

Abbreviation bytes := (list ascii).

Definition byte_val (b : ascii) : Z := Z.of_N (N_of_ascii b).
Definition byte_of (z : Z) : ascii := ascii_of_N (Z.to_N (z mod 256)).

(** The double quote. *)
Definition quote : ascii := "034"%char.

(** A string literal of the Go source. *)
Notation "'B' s" := (list_ascii_of_string s) (at level 9, s at level 0, only parsing).

Definition len {A} (l : list A) : Z := Z.of_nat (length l).

(** The outcome of a fallible call. *)
Inductive result (E A : Type) : Type :=
| Ok (a : A)
| Err (e : E).
Arguments Ok {E A} a.
Arguments Err {E A} e.

(** ** crypto/sha256 *)

Module sha256.

Definition Size : nat := 32.
Definition BlockSize : nat := 64.
Definition chunk : nat := 64.

Definition u32 (x : Z) : Z := x mod 2 ^ 32.
Definition u64 (x : Z) : Z := x mod 2 ^ 64.

(** [bits.RotateLeft32(x, -n)] *)
Definition rotr (x n : Z) : Z :=
  u32 (Z.lor (Z.shiftr x n) (Z.shiftl x (32 - n))).

(** [^x] on a uint32 *)
Definition not32 (x : Z) : Z := Z.lxor x 0xffffffff.

(** The round constants, four to a row. *)
Definition _K : list Z :=
  [0x428a2f98; 0x71374491; 0xb5c0fbcf; 0xe9b5dba5] ++
  [0x3956c25b; 0x59f111f1; 0x923f82a4; 0xab1c5ed5] ++
  [0xd807aa98; 0x12835b01; 0x243185be; 0x550c7dc3] ++
  [0x72be5d74; 0x80deb1fe; 0x9bdc06a7; 0xc19bf174] ++
  [0xe49b69c1; 0xefbe4786; 0x0fc19dc6; 0x240ca1cc] ++
  [0x2de92c6f; 0x4a7484aa; 0x5cb0a9dc; 0x76f988da] ++
  [0x983e5152; 0xa831c66d; 0xb00327c8; 0xbf597fc7] ++
  [0xc6e00bf3; 0xd5a79147; 0x06ca6351; 0x14292967] ++
  [0x27b70a85; 0x2e1b2138; 0x4d2c6dfc; 0x53380d13] ++
  [0x650a7354; 0x766a0abb; 0x81c2c92e; 0x92722c85] ++
  [0xa2bfe8a1; 0xa81a664b; 0xc24b8b70; 0xc76c51a3] ++
  [0xd192e819; 0xd6990624; 0xf40e3585; 0x106aa070] ++
  [0x19a4c116; 0x1e376c08; 0x2748774c; 0x34b0bcb5] ++
  [0x391c0cb3; 0x4ed8aa4a; 0x5b9cca4f; 0x682e6ff3] ++
  [0x748f82ee; 0x78a5636f; 0x84c87814; 0x8cc70208] ++
  [0x90befffa; 0xa4506ceb; 0xbef9a3f7; 0xc67178f2].

(** The eight working registers [h0 .. h7]. *)
Definition regs : Type := (Z * Z * Z * Z * Z * Z * Z * Z)%type.

Definition init : regs :=
  (0x6a09e667, 0xbb67ae85, 0x3c6ef372, 0xa54ff53a,
   0x510e527f, 0x9b05688c, 0x1f83d9ab, 0x5be0cd19).

(** [w[i] = uint32(p[j])<<24 | uint32(p[j+1])<<16 | uint32(p[j+2])<<8 | uint32(p[j+3])] *)
Fixpoint words (p : bytes) : list Z :=
  match p with
  | a :: b :: c :: d :: r =>
      Z.lor (Z.lor (Z.lor (Z.shiftl (byte_val a) 24) (Z.shiftl (byte_val b) 16))
               (Z.shiftl (byte_val c) 8)) (byte_val d) :: words r
  | _ => []
  end.

(** The schedule is kept as the window [w[i-16 .. i-1]]; this is
    [w[i] = t1 + w[i-7] + t2 + w[i-16]]. *)
Definition sched (win : list Z) : Z :=
  let v1 := nth 14 win 0 in
  let t1 := Z.lxor (Z.lxor (rotr v1 17) (rotr v1 19)) (Z.shiftr v1 10) in
  let v2 := nth 1 win 0 in
  let t2 := Z.lxor (Z.lxor (rotr v2 7) (rotr v2 18)) (Z.shiftr v2 3) in
  u32 (t1 + nth 9 win 0 + t2 + nth 0 win 0).

Definition round (st : regs) (k w : Z) : regs :=
  let '(a, b, c, d, e, f, g, h) := st in
  let t1 := u32 (h + Z.lxor (Z.lxor (rotr e 6) (rotr e 11)) (rotr e 25)
                   + Z.lxor (Z.land e f) (Z.land (not32 e) g) + k + w) in
  let t2 := u32 (Z.lxor (Z.lxor (rotr a 2) (rotr a 13)) (rotr a 22)
                 + Z.lxor (Z.lxor (Z.land a b) (Z.land a c)) (Z.land b c)) in
  (u32 (t1 + t2), a, b, c, u32 (d + t1), e, f, g).

Fixpoint rounds (ks : list Z) (win : list Z) (st : regs) : regs :=
  match ks with
  | [] => st
  | k :: ks' => rounds ks' (tl win ++ [sched win]) (round st k (hd 0 win))
  end.

(** One iteration of the loop of [blockGeneric], on one chunk. *)
Definition block1 (hh : regs) (p : bytes) : regs :=
  let '(a, b, c, d, e, f, g, h) := rounds _K (words p) hh in
  let '(h0, h1, h2, h3, h4, h5, h6, h7) := hh in
  (u32 (h0 + a), u32 (h1 + b), u32 (h2 + c), u32 (h3 + d),
   u32 (h4 + e), u32 (h5 + f), u32 (h6 + g), u32 (h7 + h)).

Fixpoint block_n (n : nat) (hh : regs) (p : bytes) : regs :=
  match n with
  | O => hh
  | S n' => block_n n' (block1 hh (firstn chunk p)) (skipn chunk p)
  end.

(** [blockGeneric]: [for len(p) >= chunk { ...; p = p[chunk:] }] *)
Definition block (hh : regs) (p : bytes) : regs :=
  block_n (length p / chunk)%nat hh p.

(** [type digest struct { h [8]uint32; x [chunk]byte; nx int; len uint64 }];
    [x] holds the [nx] buffered bytes. *)
Record digest : Type := mkDigest { h : regs; x : bytes; dlen : Z }.

Definition New : digest := {| h := init; x := []; dlen := 0 |}.

Definition Write (d : digest) (p : bytes) : digest :=
  let dlen' := u64 (dlen d + len p) in
  (* if d.nx > 0 { n := copy(d.x[d.nx:], p); ... p = p[n:] } *)
  let '(h1, x1, p1) :=
    if (0 <? length (x d))%nat then
      let n := Nat.min (chunk - length (x d)) (length p) in
      let x' := x d ++ firstn n p in
      if (length x' =? chunk)%nat then (block (h d) x', [], skipn n p)
      else (h d, x', skipn n p)
    else (h d, x d, p) in
  (* if len(p) >= chunk { n := len(p) &^ (chunk - 1); block(d, p[:n]); p = p[n:] } *)
  let '(h2, p2) :=
    if (chunk <=? length p1)%nat then
      let n := (length p1 / chunk * chunk)%nat in
      (block h1 (firstn n p1), skipn n p1)
    else (h1, p1) in
  (* if len(p) > 0 { d.nx = copy(d.x[:], p) } *)
  let x2 := if (0 <? length p2)%nat then p2 else x1 in
  {| h := h2; x := x2; dlen := dlen' |}.

(** [binary.BigEndian.PutUint64] and [PutUint32] *)
Definition be64 (v : Z) : bytes :=
  map (fun i => byte_of (Z.shiftr v (8 * i))) [7; 6; 5; 4; 3; 2; 1; 0].
Definition be32 (v : Z) : bytes :=
  map (fun i => byte_of (Z.shiftr v (8 * i))) [3; 2; 1; 0].

Definition digest_bytes (hh : regs) : bytes :=
  let '(h0, h1, h2, h3, h4, h5, h6, h7) := hh in
  be32 h0 ++ be32 h1 ++ be32 h2 ++ be32 h3 ++
  be32 h4 ++ be32 h5 ++ be32 h6 ++ be32 h7.

Definition checkSum (d : digest) : bytes :=
  let l := dlen d in
  let t := if l mod 64 <? 56 then 56 - l mod 64 else 64 + 56 - l mod 64 in
  let padlen := "128"%char :: repeat "000"%char (Z.to_nat t - 1) ++ be64 (u64 (Z.shiftl l 3)) in
  digest_bytes (h (Write d padlen)).

(** [Sum] works on a copy of the digest, so the receiver is unchanged. *)
Definition Sum (d : digest) (b : bytes) : bytes := b ++ checkSum d.

(** The hash function of FIPS 180-4, section 6.2, in one shot: pad the
    message to a multiple of 512 bits with a 1 bit, zero bits and the
    64-bit length in bits, and fold the compression over the blocks. *)
Definition pad (n : Z) : bytes :=
  "128"%char :: repeat "000"%char (Z.to_nat ((55 - n) mod 64)) ++ be64 (u64 (8 * n)).

Definition Sum256 (msg : bytes) : bytes :=
  digest_bytes (block init (msg ++ pad (len msg))).

End sha256.

(** ** hash.Hash and crypto/hmac *)

(** The part of [hash.Hash] that [crypto/hmac] uses. *)
Class Hash (S : Type) : Type := {
  hash_New : S;
  hash_Write : S -> bytes -> S;
  hash_Sum : S -> bytes -> bytes;
  hash_BlockSize : nat;
}.

#[global] Instance sha256_Hash : Hash sha256.digest := {|
  hash_New := sha256.New;
  hash_Write := sha256.Write;
  hash_Sum := sha256.Sum;
  hash_BlockSize := sha256.BlockSize;
|}.

Module hmac.
Section WithHash.
Context {S : Type} `{Hash S}.

Record hmac : Type := mkHmac { opad : bytes; ipad : bytes; outer : S; inner : S }.

Definition xor_byte (c : Z) (b : ascii) : ascii := byte_of (Z.lxor (byte_val b) c).

(** [copy(pad, key)] into [make([]byte, blocksize)] *)
Definition copy_key (key : bytes) : bytes :=
  firstn hash_BlockSize key ++ repeat "000"%char (hash_BlockSize - length key).

Definition New (key : bytes) : hmac :=
  let outer0 := hash_New in
  let inner0 := hash_New in
  let key :=
    if (hash_BlockSize <? length key)%nat
    then hash_Sum (hash_Write outer0 key) []
    else key in
  let ipad := map (xor_byte 0x36) (copy_key key) in
  let opad := map (xor_byte 0x5c) (copy_key key) in
  {| opad := opad; ipad := ipad; outer := outer0; inner := hash_Write inner0 ipad |}.

Definition Write (hm : hmac) (p : bytes) : hmac :=
  {| opad := opad hm; ipad := ipad hm; outer := outer hm;
     inner := hash_Write (inner hm) p |}.

(** [Sum] resets [outer], so it starts from a fresh state. *)
Definition Sum (hm : hmac) (b : bytes) : bytes :=
  let innerSum := hash_Sum (inner hm) [] in
  let outer1 := hash_Write (hash_Write hash_New (opad hm)) innerSum in
  hash_Sum outer1 b.
End WithHash.
End hmac.

(** HMAC of RFC 2104 over SHA-256:
    H((K' xor opad) || H((K' xor ipad) || text)), where K' is the key,
    hashed first when longer than a block, padded with zeros to a block. *)
Definition HMAC_SHA256 (key text : bytes) : bytes :=
  let k0 := if (64 <? length key)%nat then sha256.Sum256 key else key in
  let k' := k0 ++ repeat "000"%char (64 - length k0) in
  let ki := map (fun b => byte_of (Z.lxor (byte_val b) 0x36)) k' in
  let ko := map (fun b => byte_of (Z.lxor (byte_val b) 0x5c)) k' in
  sha256.Sum256 (ko ++ sha256.Sum256 (ki ++ text)).

(** ** encoding/hex *)

Module hex.
Definition hextable : bytes := B "0123456789abcdef".

Definition digit (v : Z) : ascii := nth (Z.to_nat v) hextable "0"%char.

(** [EncodeToString]: two lowercase digits per byte. *)
Fixpoint EncodeToString (src : bytes) : bytes :=
  match src with
  | [] => []
  | b :: r => digit (Z.shiftr (byte_val b) 4) :: digit (Z.land (byte_val b) 0x0f)
                :: EncodeToString r
  end.

(** [fromHexChar] *)
Definition fromHexChar (c : ascii) : option Z :=
  let v := byte_val c in
  if (48 <=? v) && (v <=? 57) then Some (v - 48)
  else if (97 <=? v) && (v <=? 102) then Some (v - 97 + 10)
  else if (65 <=? v) && (v <=? 70) then Some (v - 65 + 10)
  else None.

Inductive error : Type :=
| InvalidByteError (c : ascii)
| ErrLength.

(** [DecodeString]: an invalid digit is reported before an odd length. *)
Fixpoint DecodeString (s : bytes) : result error bytes :=
  match s with
  | [] => Ok []
  | [c] => match fromHexChar c with
           | None => Err (InvalidByteError c)
           | Some _ => Err ErrLength
           end
  | p :: q :: r =>
      match fromHexChar p with
      | None => Err (InvalidByteError p)
      | Some a =>
          match fromHexChar q with
          | None => Err (InvalidByteError q)
          | Some b =>
              match DecodeString r with
              | Ok l => Ok (byte_of (Z.lor (Z.shiftl a 4) b) :: l)
              | Err e => Err e
              end
          end
      end
  end.
End hex.

(** ** crypto/subtle *)

Module subtle.
(** [ConstantTimeCompare]: 0 at once on unequal lengths, otherwise the
    OR of the XORs of all byte pairs is tested against zero. *)
Fixpoint xor_fold (v : Z) (x y : bytes) : Z :=
  match x, y with
  | a :: x', b :: y' => xor_fold (Z.lor v (Z.lxor (byte_val a) (byte_val b))) x' y'
  | _, _ => v
  end.

Definition ConstantTimeCompare (x y : bytes) : Z :=
  if negb (length x =? length y)%nat then 0
  else if xor_fold 0 x y =? 0 then 1 else 0.
End subtle.

(** ** time *)

Module time.

(** [Duration] is an int64 count of nanoseconds. *)
Definition Duration := Z.
Definition Nanosecond : Duration := 1.
Definition Second : Duration := 1000000000.
Definition Minute : Duration := 60 * Second.

Definition minInt64 : Z := - 2 ^ 63.
Definition maxInt64 : Z := 2 ^ 63 - 1.
Definition wrap64 (z : Z) : Z := (z + 2 ^ 63) mod 2 ^ 64 - 2 ^ 63.
(** unary minus on an int64 *)
Definition neg64 (d : Duration) : Duration := wrap64 (- d).

(** A [Time] is an instant, here the count [ns] of nanoseconds since
    1970-01-01T00:00:00Z, together with the offset [off], in seconds
    east of UTC, of its location at that instant.  The monotonic clock
    reading that [time.Now] attaches is left out: [UTC] strips it,
    [Format] ignores it, and [Before]/[After] use it only when both
    operands carry one, which a time returned by [UTC] or [Parse] never
    does.  The instant is not bounded here: a Go [Time] counts seconds
    in an int64, a range of billions of years, which no clock reading
    moved by a [Duration] (at most 292 years) leaves. *)
Record Time : Type := mkTime { ns : Z; off : Z }.

Definition UTC (t : Time) : Time := {| ns := ns t; off := 0 |}.
Definition Add (t : Time) (d : Duration) : Time := {| ns := ns t + d; off := off t |}.
Definition Before (t u : Time) : bool := ns t <? ns u.
Definition After (t u : Time) : bool := ns u <? ns t.
Definition Equal (t u : Time) : bool := ns t =? ns u.

(** *** The proleptic Gregorian calendar *)

Definition isLeap (year : Z) : bool :=
  (year mod 4 =? 0) && (negb (year mod 100 =? 0) || (year mod 400 =? 0)).

Definition daysIn (m year : Z) : Z :=
  if (m =? 2) && isLeap year then 29
  else nth (Z.to_nat (m - 1)) [31; 28; 31; 30; 31; 30; 31; 31; 30; 31; 30; 31] 0.

(** Year, month and day of the day [days] after 1970-01-01; the year
    is counted from 1 March so that the leap day comes last. *)
Definition civil (days : Z) : Z * Z * Z :=
  let z := days + 719468 in
  let era := z / 146097 in
  let doe := z mod 146097 in
  let yoe := (doe - doe / 1460 + doe / 36524 - doe / 146096) / 365 in
  let doy := doe - (365 * yoe + yoe / 4 - yoe / 100) in
  let mp := (5 * doy + 2) / 153 in
  let d := doy - (153 * mp + 2) / 5 + 1 in
  let m := if mp <? 10 then mp + 3 else mp - 9 in
  let y := yoe + era * 400 + (if m <=? 2 then 1 else 0) in
  (y, m, d).

(** The day number of a date, counted from 1970-01-01. *)
Definition daysSinceEpoch (y m d : Z) : Z :=
  let y' := y - (if m <=? 2 then 1 else 0) in
  let era := y' / 400 in
  let yoe := y' mod 400 in
  let doy := (153 * (if 2 <? m then m - 3 else m + 9) + 2) / 5 + d - 1 in
  let doe := yoe * 365 + yoe / 4 - yoe / 100 + doy in
  era * 146097 + doe - 719468.

(** [Date(year, month, day, hour, min, sec, nsec, UTC)] on fields that
    are in range. *)
Definition Date (year month day hour min sec nsec : Z) : Time :=
  {| ns := (daysSinceEpoch year month day * 86400 + hour * 3600 + min * 60 + sec)
             * 1000000000 + nsec;
     off := 0 |}.

(** [t.Year()], in the time's location. *)
Definition Year (t : Time) : Z :=
  let '(year, _, _) := civil ((ns t / 1000000000 + off t) / 86400) in year.

(** *** Format *)

Definition digit (v : Z) : ascii := byte_of (48 + v).

Fixpoint digits (fuel : nat) (u : Z) (acc : bytes) : bytes :=
  match fuel with
  | O => acc
  | S fuel' =>
      if u <? 10 then digit u :: acc
      else digits fuel' (u / 10) (digit (u mod 10) :: acc)
  end.

(** [appendInt]: the decimal form of [x], zero-padded to [width] digits,
    after the sign. *)
Definition appendInt (x : Z) (width : nat) : bytes :=
  let u := Z.abs x in
  (if x <? 0 then B "-" else []) ++
  (if (width =? 2)%nat && (u <? 100) then [digit (u / 10); digit (u mod 10)]
   else if (width =? 4)%nat && (u <? 10000) then
     [digit (u / 1000); digit (u / 100 mod 10); digit (u / 10 mod 10); digit (u mod 10)]
   else
     let ds := digits (S (Z.to_nat (Z.log2 u))) u [] in
     repeat "0"%char (width - length ds) ++ ds).

(** [t.Format(time.RFC3339)], layout ["2006-01-02T15:04:05Z07:00"]:
    the date and the clock in the time's own location, no fraction of a
    second, then [Z] for a zero offset and [+hh:mm] or [-hh:mm]
    otherwise, the offset cut to minutes. *)
Definition FormatRFC3339 (t : Time) : bytes :=
  let abs := ns t / 1000000000 + off t in
  let '(year, month, day) := civil (abs / 86400) in
  let clock := abs mod 86400 in
  appendInt year 4 ++ B "-" ++ appendInt month 2 ++ B "-" ++ appendInt day 2 ++ B "T" ++
  appendInt (clock / 3600) 2 ++ B ":" ++ appendInt (clock mod 3600 / 60) 2 ++ B ":" ++
  appendInt (clock mod 60) 2 ++
  (if off t =? 0 then B "Z"
   else
     let zone := Z.quot (off t) 60 in
     (if zone <? 0 then B "-" else B "+") ++
     appendInt (Z.abs zone / 60) 2 ++ B ":" ++ appendInt (Z.abs zone mod 60) 2).

(** *** Parse *)

Definition isDigit (c : ascii) : bool := (48 <=? byte_val c) && (byte_val c <=? 57).

(** The [parseUint] of [parseRFC3339]: every byte a digit, and the
    value within [lo .. hi]. *)
Fixpoint atoi (s : bytes) (acc : Z) : option Z :=
  match s with
  | [] => Some acc
  | c :: r => if isDigit c then atoi r (acc * 10 + (byte_val c - 48)) else None
  end.

Definition parseUint (s : bytes) (lo hi : Z) : option Z :=
  match atoi s 0 with
  | Some v => if (lo <=? v) && (v <=? hi) then Some v else None
  | None => None
  end.

Fixpoint span_digits (s : bytes) : bytes * bytes :=
  match s with
  | c :: r => if isDigit c then let '(d, r') := span_digits r in (c :: d, r') else ([], s)
  | [] => ([], [])
  end.

(** [parseNanoseconds]: at most nine digits count, scaled to nine. *)
Definition parseNanoseconds (ds : bytes) : Z :=
  let ds9 := firstn 9 ds in
  match atoi ds9 0 with
  | Some v => v * 10 ^ Z.of_nat (9 - length ds9)
  | None => 0
  end.

Definition eqb_byte (a b : ascii) : bool := Ascii.eqb a b.

(** [time.Parse(time.RFC3339, s)] on the strict layout, which is the
    function [parseRFC3339] that [Parse] tries first: four-digit year,
    two-digit fields in range, an optional fraction after a period, and
    [Z] or a signed [hh:mm] offset.  [Parse] goes on to a lenient
    parser when this one refuses (it takes, for instance, a one-digit
    hour); such strings are refused here. *)
Definition ParseRFC3339 (s : bytes) : option Time :=
  match s with
  | y1 :: y2 :: y3 :: y4 :: c1 :: m1 :: m2 :: c2 :: d1 :: d2 :: c3
      :: h1 :: h2 :: c4 :: n1 :: n2 :: c5 :: s1 :: s2 :: rest =>
      match parseUint [y1; y2; y3; y4] 0 9999 with None => None | Some year =>
      match parseUint [m1; m2] 1 12 with None => None | Some month =>
      match parseUint [d1; d2] 1 (daysIn month year) with None => None | Some day =>
      match parseUint [h1; h2] 0 23 with None => None | Some hour =>
      match parseUint [n1; n2] 0 59 with None => None | Some min =>
      match parseUint [s1; s2] 0 59 with None => None | Some sec =>
      if negb (eqb_byte c1 "-" && eqb_byte c2 "-" && eqb_byte c3 "T"
               && eqb_byte c4 ":" && eqb_byte c5 ":") then None else
      let '(nsec, rest) :=
        match rest with
        | p :: f :: rest' =>
            if eqb_byte p "." && isDigit f
            then let '(ds, r) := span_digits (f :: rest') in (parseNanoseconds ds, r)
            else (0, rest)
        | _ => (0, rest)
        end in
      let t := Date year month day hour min sec nsec in
      match rest with
      | [z] => if eqb_byte z "Z" then Some t else None
      | [sg; a1; a2; c6; b1; b2] =>
          match parseUint [a1; a2] 0 23 with None => None | Some hr =>
          match parseUint [b1; b2] 0 59 with None => None | Some mm =>
          if negb ((eqb_byte sg "-" || eqb_byte sg "+") && eqb_byte c6 ":") then None else
          let zoneOffset := (hr * 60 + mm) * 60 in
          let zoneOffset := if eqb_byte sg "-" then - zoneOffset else zoneOffset in
          Some {| ns := ns t - zoneOffset * 1000000000; off := zoneOffset |}
          end end
      | _ => None
      end
      end end end end end end
  | _ => None
  end.

End time.

(** ** strings *)

Module strings.
(** [ToLower] maps the letters A to Z to a to z.  On other bytes Go
    works rune by rune; a string with a byte above 0x7f keeps a byte above
    0x7f or gains a [k] or an [i] (from U+212A and U+0130), so whether
    the result equals an ASCII constant without [k] and [i] is decided by
    the mapping of the ASCII letters alone. *)
Definition lower (c : ascii) : ascii :=
  if (65 <=? byte_val c) && (byte_val c <=? 90) then byte_of (byte_val c + 32) else c.
Definition ToLower (s : bytes) : bytes := map lower s.

(** The UTF-8 encodings of the code points with the White_Space
    property: U+0009 to U+000D, U+0020, U+0085, U+00A0, U+1680,
    U+2000 to U+200A, U+2028, U+2029, U+202F, U+205F, U+3000. *)
Definition spaces : list bytes :=
  map (map byte_of)
    [ [0x09]; [0x0a]; [0x0b]; [0x0c]; [0x0d]; [0x20];
      [0xc2; 0x85]; [0xc2; 0xa0]; [0xe1; 0x9a; 0x80];
      [0xe2; 0x80; 0x80]; [0xe2; 0x80; 0x81]; [0xe2; 0x80; 0x82];
      [0xe2; 0x80; 0x83]; [0xe2; 0x80; 0x84]; [0xe2; 0x80; 0x85];
      [0xe2; 0x80; 0x86]; [0xe2; 0x80; 0x87]; [0xe2; 0x80; 0x88];
      [0xe2; 0x80; 0x89]; [0xe2; 0x80; 0x8a]; [0xe2; 0x80; 0xa8];
      [0xe2; 0x80; 0xa9]; [0xe2; 0x80; 0xaf]; [0xe2; 0x81; 0x9f];
      [0xe3; 0x80; 0x80] ].

Definition bytes_eqb (a b : bytes) : bool := bool_decide (a = b).

Fixpoint strip_prefix (p s : bytes) : option bytes :=
  match p, s with
  | [], _ => Some s
  | a :: p', b :: s' => if Ascii.eqb a b then strip_prefix p' s' else None
  | _ :: _, [] => None
  end.

(** The rest of [s] after one leading white space, if there is one. *)
Fixpoint strip_space (sps : list bytes) (s : bytes) : option bytes :=
  match sps with
  | [] => None
  | p :: sps' => match strip_prefix p s with
                 | Some r => Some r
                 | None => strip_space sps' s
                 end
  end.

Fixpoint TrimLeft (fuel : nat) (s : bytes) : bytes :=
  match fuel with
  | O => s
  | S fuel' => match strip_space spaces s with
               | Some r => TrimLeft fuel' r
               | None => s
               end
  end.

Fixpoint TrimRight (fuel : nat) (rs : bytes) : bytes :=
  match fuel with
  | O => rs
  | S fuel' => match strip_space (map (@rev ascii) spaces) rs with
               | Some r => TrimRight fuel' r
               | None => rs
               end
  end.

(** [TrimSpace]: white space is cut from both ends. *)
Definition TrimSpace (s : bytes) : bytes :=
  let l := TrimLeft (length s) s in
  rev (TrimRight (length l) (rev l)).
End strings.

(** ** github.com/google/uuid *)

Module uuid.

(** [type UUID [16]byte] *)
Record UUID : Type := mkUUID {
  b0 : ascii; b1 : ascii; b2 : ascii; b3 : ascii;
  b4 : ascii; b5 : ascii; b6 : ascii; b7 : ascii;
  b8 : ascii; b9 : ascii; b10 : ascii; b11 : ascii;
  b12 : ascii; b13 : ascii; b14 : ascii; b15 : ascii }.

(** [uuid[:]] *)
Definition to_bytes (u : UUID) : bytes :=
  [b0 u; b1 u; b2 u; b3 u; b4 u; b5 u; b6 u; b7 u;
   b8 u; b9 u; b10 u; b11 u; b12 u; b13 u; b14 u; b15 u].

Definition of_bytes (l : bytes) : option UUID :=
  match l with
  | [a0; a1; a2; a3; a4; a5; a6; a7; a8; a9; a10; a11; a12; a13; a14; a15] =>
      Some (mkUUID a0 a1 a2 a3 a4 a5 a6 a7 a8 a9 a10 a11 a12 a13 a14 a15)
  | _ => None
  end.

(** The zero value, [uuid.Nil]. *)
Definition Nil : UUID :=
  let z := "000"%char in mkUUID z z z z z z z z z z z z z z z z.

(** [String]: xxxxxxxx-xxxx-xxxx-xxxx-xxxxxxxxxxxx, lowercase. *)
Definition String (u : UUID) : bytes :=
  let bs := to_bytes u in
  hex.EncodeToString (firstn 4 bs) ++ B "-" ++
  hex.EncodeToString (firstn 2 (skipn 4 bs)) ++ B "-" ++
  hex.EncodeToString (firstn 2 (skipn 6 bs)) ++ B "-" ++
  hex.EncodeToString (firstn 2 (skipn 8 bs)) ++ B "-" ++
  hex.EncodeToString (skipn 10 bs).

Inductive error : Type :=
| invalidLengthError (n : nat)
| invalidUrnPrefix (p : bytes)
| invalidFormat.

(** [xtob]: a byte from two hexadecimal digits. *)
Definition xtob (x1 x2 : ascii) : option ascii :=
  match hex.fromHexChar x1, hex.fromHexChar x2 with
  | Some a, Some b => Some (byte_of (Z.lor (Z.shiftl a 4) b))
  | _, _ => None
  end.

Fixpoint xtobs (s : bytes) : option bytes :=
  match s with
  | x1 :: x2 :: r =>
      match xtob x1 x2, xtobs r with
      | Some b, Some l => Some (b :: l)
      | _, _ => None
      end
  | _ => Some []
  end.

Definition of_hex (s : bytes) : result error UUID :=
  match xtobs s with
  | Some l => match of_bytes l with Some u => Ok u | None => Err invalidFormat end
  | None => Err invalidFormat
  end.

(** The standard form, of which at least 36 bytes are present. *)
Definition parse36 (s : bytes) : result error UUID :=
  match s with
  | x0 :: x1 :: x2 :: x3 :: x4 :: x5 :: x6 :: x7 :: d1
      :: x9 :: x10 :: x11 :: x12 :: d2
      :: x14 :: x15 :: x16 :: x17 :: d3
      :: x19 :: x20 :: x21 :: x22 :: d4
      :: x24 :: x25 :: x26 :: x27 :: x28 :: x29
      :: x30 :: x31 :: x32 :: x33 :: x34 :: x35 :: _ =>
      if negb (Ascii.eqb d1 "-" && Ascii.eqb d2 "-" && Ascii.eqb d3 "-" && Ascii.eqb d4 "-")
      then Err invalidFormat
      else of_hex [x0; x1; x2; x3; x4; x5; x6; x7; x9; x10; x11; x12;
                   x14; x15; x16; x17; x19; x20; x21; x22;
                   x24; x25; x26; x27; x28; x29; x30; x31; x32; x33; x34; x35]
  | _ => Err invalidFormat
  end.

(** [Parse]: the standard form, the same after [urn:uuid:], the same
    inside one leading and one trailing byte (the two enclosing bytes
    are not compared here), or 32 hexadecimal digits. *)
Definition Parse (s : bytes) : result error UUID :=
  match length s with
  | 36%nat => parse36 s
  | 45%nat =>
      if negb (strings.bytes_eqb (strings.ToLower (firstn 9 s)) (B "urn:uuid:"))
      then Err (invalidUrnPrefix (firstn 9 s))
      else parse36 (skipn 9 s)
  | 38%nat => parse36 (skipn 1 s)
  | 32%nat => of_hex s
  | n => Err (invalidLengthError n)
  end.

End uuid.

(** ** encoding/base64 *)

Module base64.

(** [URLEncoding]: the alphabet of RFC 4648, section 5, padded with [=]. *)
Definition encodeURL : bytes :=
  B "ABCDEFGHIJKLMNOPQRSTUVWXYZabcdefghijklmnopqrstuvwxyz0123456789-_".
Definition padChar : ascii := "="%char.

Definition enc (v : Z) : ascii := nth (Z.to_nat v) encodeURL "A"%char.

Fixpoint EncodeToString (src : bytes) : bytes :=
  match src with
  | [] => []
  | [a] =>
      let val := Z.shiftl (byte_val a) 16 in
      [enc (Z.land (Z.shiftr val 18) 0x3f); enc (Z.land (Z.shiftr val 12) 0x3f);
       padChar; padChar]
  | [a; b] =>
      let val := Z.lor (Z.shiftl (byte_val a) 16) (Z.shiftl (byte_val b) 8) in
      [enc (Z.land (Z.shiftr val 18) 0x3f); enc (Z.land (Z.shiftr val 12) 0x3f);
       enc (Z.land (Z.shiftr val 6) 0x3f); padChar]
  | a :: b :: c :: r =>
      let val := Z.lor (Z.lor (Z.shiftl (byte_val a) 16) (Z.shiftl (byte_val b) 8))
                   (byte_val c) in
      enc (Z.land (Z.shiftr val 18) 0x3f) :: enc (Z.land (Z.shiftr val 12) 0x3f)
        :: enc (Z.land (Z.shiftr val 6) 0x3f) :: enc (Z.land val 0x3f)
        :: EncodeToString r
  end.

(** [decodeMap]: the value of an alphabet byte. *)
Definition dec (c : ascii) : option Z :=
  let v := byte_val c in
  if (65 <=? v) && (v <=? 90) then Some (v - 65)
  else if (97 <=? v) && (v <=? 122) then Some (v - 97 + 26)
  else if (48 <=? v) && (v <=? 57) then Some (v - 48 + 52)
  else if v =? 45 then Some 62
  else if v =? 95 then Some 63
  else None.

Inductive error : Type := CorruptInputError.

Definition isNewline (c : ascii) : bool := Ascii.eqb c "010" || Ascii.eqb c "013".

(** The three bytes of a quantum of four 6-bit values. *)
Definition quantum (v0 v1 v2 v3 : Z) : bytes :=
  let val := Z.lor (Z.lor (Z.lor (Z.shiftl v0 18) (Z.shiftl v1 12)) (Z.shiftl v2 6)) v3 in
  [byte_of (Z.shiftr val 16); byte_of (Z.shiftr val 8); byte_of val].

(** Quantum by quantum, on input without line breaks.  Padding closes
    the input; an incomplete quantum is corrupt; the bits of a padded
    quantum that fall outside its bytes are not checked. *)
Fixpoint decode (s : bytes) : result error bytes :=
  match s with
  | [] => Ok []
  | c0 :: c1 :: c2 :: c3 :: r =>
      match dec c0, dec c1 with
      | Some v0, Some v1 =>
          match dec c2 with
          | Some v2 =>
              match dec c3 with
              | Some v3 =>
                  match decode r with
                  | Ok l => Ok (quantum v0 v1 v2 v3 ++ l)
                  | Err e => Err e
                  end
              | None =>
                  if Ascii.eqb c3 padChar && bool_decide (r = [])
                  then Ok (firstn 2 (quantum v0 v1 v2 0))
                  else Err CorruptInputError
              end
          | None =>
              if Ascii.eqb c2 padChar && Ascii.eqb c3 padChar && bool_decide (r = [])
              then Ok (firstn 1 (quantum v0 v1 0 0))
              else Err CorruptInputError
          end
      | _, _ => Err CorruptInputError
      end
  | _ => Err CorruptInputError
  end.

(** [DecodeString]: carriage returns and line feeds are skipped
    wherever they stand. *)
Definition DecodeString (s : bytes) : result error bytes :=
  decode (List.filter (fun c => negb (isNewline c)) s).

End base64.

(** ** unicode/utf8 *)

Module utf8.
Definition between (lo hi : Z) (c : ascii) : bool := (lo <=? byte_val c) && (byte_val c <=? hi).

(** For a first byte [c] above 0x7f followed by [r]: the number of
    continuation bytes of the well-formed encoding that starts at [c],
    or [None] when there is none, in which case [DecodeRune] returns
    [(RuneError, 1)]. *)
Definition follow (c : ascii) (r : bytes) : option nat :=
  let v := byte_val c in
  if between 0xc2 0xdf c then
    match r with x :: _ => if between 0x80 0xbf x then Some 1%nat else None | _ => None end
  else if between 0xe0 0xef c then
    let lo := if v =? 0xe0 then 0xa0 else 0x80 in
    let hi := if v =? 0xed then 0x9f else 0xbf in
    match r with
    | x :: y :: _ => if between lo hi x && between 0x80 0xbf y then Some 2%nat else None
    | _ => None
    end
  else if between 0xf0 0xf4 c then
    let lo := if v =? 0xf0 then 0x90 else 0x80 in
    let hi := if v =? 0xf4 then 0x8f else 0xbf in
    match r with
    | x :: y :: z :: _ =>
        if between lo hi x && between 0x80 0xbf y && between 0x80 0xbf z
        then Some 3%nat else None
    | _ => None
    end
  else None.

(** The encoding of U+FFFD, [RuneError]. *)
Definition runeError : bytes := map byte_of [0xef; 0xbf; 0xbd].

Definition cont (v : Z) : ascii := byte_of (Z.lor 0x80 (Z.land v 0x3f)).

Definition EncodeRune (r : Z) : bytes :=
  if r <? 0 then runeError
  else if r <=? 0x7f then [byte_of r]
  else if r <=? 0x7ff then [byte_of (Z.lor 0xc0 (Z.shiftr r 6)); cont r]
  else if (0xd800 <=? r) && (r <=? 0xdfff) then runeError
  else if r <=? 0xffff then
    [byte_of (Z.lor 0xe0 (Z.shiftr r 12)); cont (Z.shiftr r 6); cont r]
  else if r <=? 0x10ffff then
    [byte_of (Z.lor 0xf0 (Z.shiftr r 18)); cont (Z.shiftr r 12); cont (Z.shiftr r 6); cont r]
  else runeError.
End utf8.

(** ** The JSON form of a token *)

(** [type tokenJSON struct], with the keys of its field tags. *)
Record tokenJSON : Type := mkTokenJSON {
  tj_APIKeyID : bytes;     (* `json:"apiKeyID"` *)
  tj_Timestamp : bytes;    (* `json:"timestamp"` *)
  tj_SigningAlgo : bytes;  (* `json:"algo"` *)
  tj_Signature : bytes;    (* `json:"signature"` *)
}.

(** ** encoding/json, for [tokenJSON] *)

Module json.

(** *** Marshal *)

(** [htmlSafeSet]: the ASCII bytes written as they are. *)
Definition htmlSafe (c : ascii) : bool :=
  let v := byte_val c in
  (0x20 <=? v) && (v <? 0x80) &&
  negb (Ascii.eqb c quote || Ascii.eqb c "\" || Ascii.eqb c "<" || Ascii.eqb c ">"
        || Ascii.eqb c "&").

(** The escape of an ASCII byte outside [htmlSafeSet]: a backslash
    before the quote and the backslash, [\n], [\r] and [\t], and
    [\u00XX] for the rest. *)
Definition escape (c : ascii) : bytes :=
  if Ascii.eqb c quote || Ascii.eqb c "\" then ["\"%char; c]
  else if Ascii.eqb c "010" then B "\n"
  else if Ascii.eqb c "013" then B "\r"
  else if Ascii.eqb c "009" then B "\t"
  else B "\u00" ++ [hex.digit (Z.shiftr (byte_val c) 4); hex.digit (Z.land (byte_val c) 0xf)].

(** The body of a string literal; [k] counts the continuation bytes of
    a well-formed multi-byte encoding still to be copied.  Ill-formed
    UTF-8 becomes the escape of U+FFFD, and U+2028 and U+2029 are escaped. *)
Fixpoint encode_body (s : bytes) (k : nat) : bytes :=
  match s with
  | [] => []
  | c :: r =>
      match k with
      | S k' => c :: encode_body r k'
      | O =>
          if byte_val c <? 0x80 then
            (if htmlSafe c then [c] else escape c) ++ encode_body r 0
          else
            match utf8.follow c r with
            | None => B "\ufffd" ++ encode_body r 0
            | Some n =>
                match r with
                | x :: y :: r' =>
                    if (byte_val c =? 0xe2) && (byte_val x =? 0x80)
                       && ((byte_val y =? 0xa8) || (byte_val y =? 0xa9))
                    then B "\u202" ++ [hex.digit (Z.land (byte_val y) 0xf)] ++ encode_body r' 0
                    else c :: encode_body r n
                | _ => c :: encode_body r n
                end
            end
      end
  end.

Definition encode_string (s : bytes) : bytes := [quote] ++ encode_body s 0 ++ [quote].

(** [Marshal(&tokenJSON{...})]: the fields in declaration order; a
    struct of strings cannot fail to marshal. *)
Definition Marshal (t : tokenJSON) : result unit bytes :=
  Ok (B "{" ++ encode_string (B "apiKeyID") ++ B ":" ++ encode_string (tj_APIKeyID t) ++
      B "," ++ encode_string (B "timestamp") ++ B ":" ++ encode_string (tj_Timestamp t) ++
      B "," ++ encode_string (B "algo") ++ B ":" ++ encode_string (tj_SigningAlgo t) ++
      B "," ++ encode_string (B "signature") ++ B ":" ++ encode_string (tj_Signature t) ++
      B "}").

(** *** Decode *)

#[local] Set Warnings "-register-all".
Inductive value : Type :=
| Null
| Bool (b : bool)
| Number
| Str (s : bytes)
| Array (l : list value)
| Object (l : list (bytes * value)).

Definition isSpace (c : ascii) : bool :=
  Ascii.eqb c " " || Ascii.eqb c "009" || Ascii.eqb c "013" || Ascii.eqb c "010".

Fixpoint skip_ws (s : bytes) : bytes :=
  match s with
  | c :: r => if isSpace c then skip_ws r else s
  | [] => []
  end.

Definition hex4 (a b c d : ascii) : option Z :=
  match hex.fromHexChar a, hex.fromHexChar b, hex.fromHexChar c, hex.fromHexChar d with
  | Some x, Some y, Some z, Some w =>
      Some (Z.lor (Z.lor (Z.lor (Z.shiftl x 12) (Z.shiftl y 8)) (Z.shiftl z 4)) w)
  | _, _, _, _ => None
  end.

(** [getu4] *)
Definition getu4 (s : bytes) : option Z :=
  match s with
  | bs :: u :: a :: b :: c :: d :: _ =>
      if Ascii.eqb bs "\" && Ascii.eqb u "u" then hex4 a b c d else None
  | _ => None
  end.

(** [utf16.DecodeRune], [None] standing for the replacement character *)
Definition utf16_DecodeRune (r1 : Z) (r2 : option Z) : option Z :=
  match r2 with
  | Some r2 =>
      if (0xd800 <=? r1) && (r1 <? 0xdc00) && (0xdc00 <=? r2) && (r2 <? 0xe000)
      then Some (Z.lor (Z.shiftl (r1 - 0xd800) 10) (r2 - 0xdc00) + 0x10000)
      else None
  | None => None
  end.

Definition isSurrogate (r : Z) : bool := (0xd800 <=? r) && (r <? 0xe000).

Definition simple_escape (e : ascii) : option ascii :=
  if Ascii.eqb e quote || Ascii.eqb e "\" || Ascii.eqb e "/" then Some e
  else if Ascii.eqb e "b" then Some "008"%char
  else if Ascii.eqb e "f" then Some "012"%char
  else if Ascii.eqb e "n" then Some "010"%char
  else if Ascii.eqb e "r" then Some "013"%char
  else if Ascii.eqb e "t" then Some "009"%char
  else None.

Definition prepend (p : bytes) (o : option (bytes * bytes)) : option (bytes * bytes) :=
  match o with
  | Some (l, rest) => Some (p ++ l, rest)
  | None => None
  end.

(** A string literal after its opening quote: the scanner's check and
    [unquote] in one pass; the decoded string and the input after the
    closing quote.  [k] is as in [encode_body]. *)
Fixpoint unquote (s : bytes) (k : nat) {struct s} : option (bytes * bytes) :=
  match s with
  | [] => None
  | c :: r =>
      match k with
      | S k' => prepend [c] (unquote r k')
      | O =>
          if Ascii.eqb c quote then Some ([], r)
          else if Ascii.eqb c "\" then
            match r with
            | [] => None
            | e :: r1 =>
                match simple_escape e with
                | Some b => prepend [b] (unquote r1 0)
                | None =>
                    if negb (Ascii.eqb e "u") then None else
                    match r1 with
                    | h1 :: h2 :: h3 :: h4 :: r2 =>
                        match hex4 h1 h2 h3 h4 with
                        | None => None
                        | Some rr =>
                            if isSurrogate rr then
                              match utf16_DecodeRune rr (getu4 r2) with
                              | Some d =>
                                  match r2 with
                                  | _ :: _ :: _ :: _ :: _ :: _ :: r3 =>
                                      prepend (utf8.EncodeRune d) (unquote r3 0)
                                  | _ => None
                                  end
                              | None => prepend utf8.runeError (unquote r2 0)
                              end
                            else prepend (utf8.EncodeRune rr) (unquote r2 0)
                        end
                    | _ => None
                    end
                end
            end
          else if byte_val c <? 0x20 then None
          else if byte_val c <? 0x80 then prepend [c] (unquote r 0)
          else
            match utf8.follow c r with
            | Some n => prepend [c] (unquote r n)
            | None => prepend utf8.runeError (unquote r 0)
            end
      end
  end.

(** The number grammar of the scanner: the input after the number. *)
Fixpoint skip_digits (s : bytes) : bytes :=
  match s with
  | c :: r => if time.isDigit c then skip_digits r else s
  | [] => []
  end.

Definition scan_exp (s : bytes) : option bytes :=
  match s with
  | e :: r =>
      if Ascii.eqb e "e" || Ascii.eqb e "E" then
        let r := match r with
                 | sg :: r' => if Ascii.eqb sg "+" || Ascii.eqb sg "-" then r' else r
                 | [] => r
                 end in
        match r with
        | d :: r' => if time.isDigit d then Some (skip_digits r') else None
        | [] => None
        end
      else Some s
  | [] => Some s
  end.

Definition scan_frac (s : bytes) : option bytes :=
  match s with
  | p :: r =>
      if Ascii.eqb p "." then
        match r with
        | d :: r' => if time.isDigit d then scan_exp (skip_digits r') else None
        | [] => None
        end
      else scan_exp s
  | [] => Some s
  end.

Definition scan_number (s : bytes) : option bytes :=
  let s := match s with
           | m :: r => if Ascii.eqb m "-" then r else s
           | [] => s
           end in
  match s with
  | d :: r =>
      if Ascii.eqb d "0" then scan_frac r
      else if time.isDigit d then scan_frac (skip_digits r)
      else None
  | [] => None
  end.

(** [maxNestingDepth] *)
Definition maxNestingDepth : Z := 10000.

(** One JSON value at the head of the input, after white space, and
    the input that follows it. *)
Fixpoint parse_value (fuel : nat) (depth : Z) (s : bytes) : option (value * bytes) :=
  match fuel with
  | O => None
  | S fuel' =>
      match skip_ws s with
      | [] => None
      | c :: r =>
          if Ascii.eqb c "{" then
            if maxNestingDepth <? depth + 1 then None else
            match skip_ws r with
            | c' :: r' =>
                if Ascii.eqb c' "}" then Some (Object [], r')
                else match parse_members fuel' (depth + 1) (skip_ws r) with
                     | Some (ms, rest) => Some (Object ms, rest)
                     | None => None
                     end
            | [] => None
            end
          else if Ascii.eqb c "[" then
            if maxNestingDepth <? depth + 1 then None else
            match skip_ws r with
            | c' :: r' =>
                if Ascii.eqb c' "]" then Some (Array [], r')
                else match parse_elements fuel' (depth + 1) r with
                     | Some (vs, rest) => Some (Array vs, rest)
                     | None => None
                     end
            | [] => None
            end
          else if Ascii.eqb c quote then
            match unquote r 0 with
            | Some (str, rest) => Some (Str str, rest)
            | None => None
            end
          else if Ascii.eqb c "-" || time.isDigit c then
            match scan_number (c :: r) with
            | Some rest => Some (Number, rest)
            | None => None
            end
          else
            match strings.strip_prefix (B "true") (c :: r) with
            | Some rest => Some (Bool true, rest)
            | None =>
            match strings.strip_prefix (B "false") (c :: r) with
            | Some rest => Some (Bool false, rest)
            | None =>
            match strings.strip_prefix (B "null") (c :: r) with
            | Some rest => Some (Null, rest)
            | None => None
            end end end
      end
  end

(** The members of an object from a key on: [s] starts at the key. *)
with parse_members (fuel : nat) (depth : Z) (s : bytes) : option (list (bytes * value) * bytes) :=
  match fuel with
  | O => None
  | S fuel' =>
      match s with
      | q :: r =>
          if negb (Ascii.eqb q quote) then None else
          match unquote r 0 with
          | None => None
          | Some (key, rest) =>
              match skip_ws rest with
              | colon :: rest1 =>
                  if negb (Ascii.eqb colon ":") then None else
                  match parse_value fuel' depth rest1 with
                  | None => None
                  | Some (v, rest2) =>
                      match skip_ws rest2 with
                      | d :: rest3 =>
                          if Ascii.eqb d "}" then Some ([(key, v)], rest3)
                          else if Ascii.eqb d "," then
                            match parse_members fuel' depth (skip_ws rest3) with
                            | Some (ms, rest4) => Some ((key, v) :: ms, rest4)
                            | None => None
                            end
                          else None
                      | [] => None
                      end
                  end
              | [] => None
              end
          end
      | [] => None
      end
  end

(** The elements of an array from a value on. *)
with parse_elements (fuel : nat) (depth : Z) (s : bytes) : option (list value * bytes) :=
  match fuel with
  | O => None
  | S fuel' =>
      match parse_value fuel' depth s with
      | None => None
      | Some (v, rest) =>
          match skip_ws rest with
          | d :: rest1 =>
              if Ascii.eqb d "]" then Some ([v], rest1)
              else if Ascii.eqb d "," then
                match parse_elements fuel' depth rest1 with
                | Some (vs, rest2) => Some (v :: vs, rest2)
                | None => None
                end
              else None
          | [] => None
          end
      end
  end.

(** [foldName]: the key in the form in which field names are compared
    when no field has exactly the key's name.  Letters go to upper
    case; U+212A and U+017F are the two code points outside ASCII that
    fold to an ASCII letter. *)
Fixpoint foldName (s : bytes) : bytes :=
  match s with
  | [] => []
  | c :: r =>
      let v := byte_val c in
      if (97 <=? v) && (v <=? 122) then byte_of (v - 32) :: foldName r
      else
        match r with
        | x :: r1 =>
            if (v =? 0xc5) && (byte_val x =? 0xbf) then "S"%char :: foldName r1
            else
              match r1 with
              | y :: r2 =>
                  if (v =? 0xe2) && (byte_val x =? 0x84) && (byte_val y =? 0xaa)
                  then "K"%char :: foldName r2
                  else c :: foldName r
              | [] => c :: foldName r
              end
        | [] => c :: foldName r
        end
  end.

Inductive field : Type := FAPIKeyID | FTimestamp | FSigningAlgo | FSignature.

Definition fields : list (bytes * field) :=
  [ (B "apiKeyID", FAPIKeyID); (B "timestamp", FTimestamp);
    (B "algo", FSigningAlgo); (B "signature", FSignature) ].

Definition find_field (key : bytes) : option field :=
  match find (fun f => strings.bytes_eqb (fst f) key) fields with
  | Some f => Some (snd f)
  | None =>
      match find (fun f => strings.bytes_eqb (foldName (fst f)) (foldName key)) fields with
      | Some f => Some (snd f)
      | None => None
      end
  end.

Definition set_field (f : field) (s : bytes) (t : tokenJSON) : tokenJSON :=
  match f with
  | FAPIKeyID => mkTokenJSON s (tj_Timestamp t) (tj_SigningAlgo t) (tj_Signature t)
  | FTimestamp => mkTokenJSON (tj_APIKeyID t) s (tj_SigningAlgo t) (tj_Signature t)
  | FSigningAlgo => mkTokenJSON (tj_APIKeyID t) (tj_Timestamp t) s (tj_Signature t)
  | FSignature => mkTokenJSON (tj_APIKeyID t) (tj_Timestamp t) (tj_SigningAlgo t) s
  end.

Inductive error : Type :=
| EOF                    (* io.EOF: no value in the input *)
| SyntaxError            (* *json.SyntaxError or io.ErrUnexpectedEOF *)
| UnmarshalTypeError.    (* a value that does not fit its Go type *)

(** The members are stored in order; a string sets its field, [null]
    and unknown keys are skipped, and any other value for a known key is
    a type error that is reported when the object has been read. *)
Fixpoint store (ms : list (bytes * value)) (t : tokenJSON) (bad : bool) : tokenJSON * bool :=
  match ms with
  | [] => (t, bad)
  | (key, v) :: ms' =>
      match find_field key with
      | None => store ms' t bad
      | Some f =>
          match v with
          | Str s => store ms' (set_field f s t) bad
          | Null => store ms' t bad
          | _ => store ms' t true
          end
      end
  end.

(** [NewDecoder(bytes.NewReader(buf)).Decode(token)] on a zero
    [token]: the first value of the input is read, the input after it
    is not looked at. *)
Definition Decode (buf : bytes) : result error tokenJSON :=
  let zero := mkTokenJSON [] [] [] [] in
  match skip_ws buf with
  | [] => Err EOF
  | _ =>
      match parse_value (S (length buf)) 0 buf with
      | None => Err SyntaxError
      | Some (Object ms, _) =>
          let '(t, bad) := store ms zero false in
          if bad then Err UnmarshalTypeError else Ok t
      | Some (Null, _) => Ok zero
      | Some (_, _) => Err UnmarshalTypeError
      end
  end.

End json.

(** ** bearer_token.go *)

(** [type BearerToken struct] *)
Record BearerToken : Type := mkBearerToken {
  APIKeyID : uuid.UUID;
  Timestamp : time.Time;
  Signature : bytes;
}.

Definition maxPackedLen : Z := 1024.

(** The errors that the package makes, one constructor for each
    [errors.New], [errors.Errorf], [errors.Wrap] and [errors.Wrapf] of
    the source, holding the cause and the values that the message
    formats.  [errors.WithStack] adds a stack trace to an error and keeps
    its message; it is the identity here. *)
Inductive error : Type :=
| ErrIllegalSignature                                (* "illegal signature" *)
| ErrIllegalTimestamp                                (* "illegal timestamp" *)
| ErrPack (cause : unit)                             (* "unable to pack the bearer token" *)
| ErrTooLong (l max : Z)                             (* "bearer token string is too long: %d (allowed max: %d)" *)
| ErrBase64 (cause : base64.error) (packed : bytes)  (* "unable to parse the bearer token: `%s`" *)
| ErrJSON (cause : json.error) (content : bytes)     (* "unable to parse the JSON content of the bearer token: `%s`" *)
| ErrAPIKeyID (cause : uuid.error) (s : bytes)       (* "unable to parse the API key ID: `%s`" *)
| ErrTimestamp (s : bytes)                           (* "unable to parse the timestamp value: `%s`" *)
| ErrSigningAlgo (s : bytes)                         (* "unsupported signing algorithm: `%s`" *)
| ErrSignature (cause : hex.error) (s : bytes)       (* "unable to parse the signature value: `%s`" *)
| ErrRead (cause : bytes).                           (* an error of the body's reader *)

(** [func (t *BearerToken) sign(secret, contentToSign []byte) []byte] *)
Definition sign (t : BearerToken) (secret contentToSign : bytes) : bytes :=
  let h := hmac.New (S := sha256.digest) secret in
  let h := hmac.Write h (time.FormatRFC3339 (time.UTC (Timestamp t))) in
  let h := hmac.Write h contentToSign in
  hmac.Sum h [].

(** [func (t *BearerToken) Sign(apiKeySecret, contentToSign []byte) error] *)
Definition Sign (t : BearerToken) (apiKeySecret contentToSign : bytes)
  : BearerToken * option error :=
  ({| APIKeyID := APIKeyID t; Timestamp := Timestamp t;
      Signature := sign t apiKeySecret contentToSign |}, None).

(** [func (t *BearerToken) Verify(apiKeySecret, contentToSign []byte,
    maxClockSkew time.Duration) error]; [now] is what [time.Now()]
    returns. *)
Definition Verify (now : time.Time) (t : BearerToken) (apiKeySecret contentToSign : bytes)
    (maxClockSkew : time.Duration) : option error :=
  let calculatedSig := sign t apiKeySecret contentToSign in
  if negb (subtle.ConstantTimeCompare (Signature t) calculatedSig =? 1)
  then Some ErrIllegalSignature
  else
    let min := time.Add now (time.neg64 maxClockSkew) in
    let max := time.Add now maxClockSkew in
    let ts := time.UTC (Timestamp t) in
    if time.Before ts min || time.After ts max
    then Some ErrIllegalTimestamp
    else None.

(** The struct that [Pack] marshals. *)
Definition Pack_json (t : BearerToken) : tokenJSON :=
  {| tj_APIKeyID := uuid.String (APIKeyID t);
     tj_Timestamp := time.FormatRFC3339 (Timestamp t);
     tj_SigningAlgo := B "HMAC-SHA256";
     tj_Signature := hex.EncodeToString (Signature t) |}.

(** [func (t *BearerToken) Pack() (string, error)] *)
Definition Pack (t : BearerToken) : bytes * option error :=
  match json.Marshal (Pack_json t) with
  | Err e => ([], Some (ErrPack e))
  | Ok packed => (base64.EncodeToString packed, None)
  end.

Section Unpack.
(** The five library calls of [Unpack]. *)
Variable base64_DecodeString : bytes -> result base64.error bytes.
Variable json_Decode : bytes -> result json.error tokenJSON.
Variable uuid_Parse : bytes -> result uuid.error uuid.UUID.
Variable time_Parse : bytes -> option time.Time.
Variable hex_DecodeString : bytes -> result hex.error bytes.

(** [func (t *BearerToken) Unpack(packed string) error], over the
    library calls it makes. *)
Definition Unpack_with (t : BearerToken) (packed : bytes) : BearerToken * option error :=
  if maxPackedLen <? len packed
  then (t, Some (ErrTooLong (len packed) maxPackedLen))
  else
    match base64_DecodeString packed with
    | Err e => (t, Some (ErrBase64 e packed))
    | Ok tokenContent =>
        match json_Decode tokenContent with
        | Err e => (t, Some (ErrJSON e tokenContent))
        | Ok token =>
            match uuid_Parse (tj_APIKeyID token) with
            | Err e => (t, Some (ErrAPIKeyID e (tj_APIKeyID token)))
            | Ok apiKeyID =>
                match time_Parse (tj_Timestamp token) with
                | None => (t, Some (ErrTimestamp (tj_Timestamp token)))
                | Some timestamp =>
                    if negb (strings.bytes_eqb
                               (strings.ToLower (strings.TrimSpace (tj_SigningAlgo token)))
                               (B "hmac-sha256"))
                    then (t, Some (ErrSigningAlgo (tj_SigningAlgo token)))
                    else
                      match hex_DecodeString (tj_Signature token) with
                      | Err e => (t, Some (ErrSignature e (tj_Signature token)))
                      | Ok sig =>
                          ({| APIKeyID := apiKeyID; Timestamp := timestamp;
                              Signature := sig |}, None)
                      end
                end
            end
        end
    end.

(** The checks of [Unpack], in its order, and the token they yield. *)
Inductive validated (packed : bytes) : BearerToken -> Prop :=
| Validated (tokenContent : bytes) (token : tokenJSON) (apiKeyID : uuid.UUID)
    (timestamp : time.Time) (sig : bytes) :
    len packed <= maxPackedLen ->
    base64_DecodeString packed = Ok tokenContent ->
    json_Decode tokenContent = Ok token ->
    uuid_Parse (tj_APIKeyID token) = Ok apiKeyID ->
    time_Parse (tj_Timestamp token) = Some timestamp ->
    strings.ToLower (strings.TrimSpace (tj_SigningAlgo token)) = B "hmac-sha256" ->
    hex_DecodeString (tj_Signature token) = Ok sig ->
    validated packed {| APIKeyID := apiKeyID; Timestamp := timestamp; Signature := sig |}.
End Unpack.

(** The errors that [Unpack] returns. *)
Definition unpack_error (e : error) : Prop :=
  match e with
  | ErrTooLong _ _ | ErrBase64 _ _ | ErrJSON _ _ | ErrAPIKeyID _ _ | ErrTimestamp _
  | ErrSigningAlgo _ | ErrSignature _ _ => True
  | _ => False
  end.

(** [Unpack] with the library calls of the source. *)
Definition Unpack : BearerToken -> bytes -> BearerToken * option error :=
  Unpack_with base64.DecodeString json.Decode uuid.Parse time.ParseRFC3339 hex.DecodeString.

(** ** net/http *)

Module http.

(** A request body, [io.ReadCloser]: [NoBody], or a stream that
    yields [data] and then ends, with the error [fail] if there is one. *)
Inductive Body : Type :=
| NoBody
| Reader (data : bytes) (fail : option bytes).

(** [io.ReadAll]: what was read, the error, and the stream afterwards. *)
Definition ReadAll (b : Body) : bytes * option bytes * Body :=
  match b with
  | NoBody => ([], None, NoBody)
  | Reader data fail => (data, fail, Reader [] fail)
  end.

(** [io.NopCloser(bytes.NewBuffer(buf))] *)
Definition NewBuffer (buf : bytes) : Body := Reader buf None.

(** The fields of a request that [Client.sign] and the handler read
    or write, with the method and the URL, which they leave alone.
    [Header] is a [map[string][]string]. *)
Record Request : Type := mkRequest {
  Method : bytes;
  URL : bytes;
  Header : gmap (list ascii) (list (list ascii));
  ReqBody : option Body;   (* [nil] is [None] *)
}.

(** [h.Set(key, value)], for a key in canonical form. *)
Definition Header_Set (h : gmap (list ascii) (list (list ascii))) (key value : bytes)
  : gmap (list ascii) (list (list ascii)) :=
  <[key := [value]]> h.

(** [h.Values(key)], for a key in canonical form. *)
Definition Header_Values (h : gmap (list ascii) (list (list ascii))) (key : bytes)
  : list (list ascii) :=
  default [] (h !! key).

Definition StatusAccepted : Z := 202.
Definition StatusBadRequest : Z := 400.
Definition StatusUnauthorized : Z := 401.
Definition StatusForbidden : Z := 403.
Definition StatusInternalServerError : Z := 500.

(** What a handler writes: a text, or a text that ends in the message
    of an error, [fmt.Sprintf("...: %s", err.Error())]. *)
Inductive text (E : Type) : Type :=
| Text (msg : bytes)
| TextErr (msg : bytes) (e : E).
Arguments Text {E} msg.
Arguments TextErr {E} msg e.

(** A [ResponseWriter]: the header map, the status of [WriteHeader] if
    it was called, and what [Write] was given, in order. *)
Record ResponseWriter (E : Type) : Type := mkResponseWriter {
  RespHeader : gmap (list ascii) (list (list ascii));
  Status : option Z;
  Written : list (text E);
}.
Arguments mkResponseWriter {E}.
Arguments RespHeader {E}.
Arguments Status {E}.
Arguments Written {E}.

Definition WriteHeader {E} (w : ResponseWriter E) (code : Z) : ResponseWriter E :=
  mkResponseWriter (RespHeader w) (Some code) (Written w).
Definition Write {E} (w : ResponseWriter E) (t : text E) : ResponseWriter E :=
  mkResponseWriter (RespHeader w) (Status w) (Written w ++ [t]).
Definition SetHeader {E} (w : ResponseWriter E) (key value : bytes) : ResponseWriter E :=
  mkResponseWriter (Header_Set (RespHeader w) key value) (Status w) (Written w).
End http.

(** ** client.go *)

(** [type Client struct], without the base URL and the HTTP client. *)
Record Client : Type := mkClient {
  keyID : uuid.UUID;
  keySec : bytes;
  maxTimeDiff : time.Duration;
}.

(** [func (c *Client) sign(req *http.Request) error]; [now] is what
    [time.Now()] returns.  The request is returned as the call leaves it. *)
Definition Client_sign (c : Client) (now : time.Time) (req : http.Request)
  : http.Request * option error :=
  let token := {| APIKeyID := keyID c; Timestamp := now; Signature := [] |} in
  let '(reqBuf, rerr, body) :=
    match http.ReqBody req with
    | Some (http.Reader data fail) =>
        let '(buf, e, drained) := http.ReadAll (http.Reader data fail) in
        match e with
        | Some _ => (buf, e, Some drained)
        | None => (buf, None, Some (http.NewBuffer buf))
        end
    | other => ([], None, other)
    end in
  let req := http.mkRequest (http.Method req) (http.URL req) (http.Header req) body in
  match rerr with
  | Some e => (req, Some (ErrRead e))
  | None =>
      match Sign token (keySec c) reqBuf with
      | (_, Some e) => (req, Some e)
      | (token, None) =>
          match Pack token with
          | (_, Some e) => (req, Some e)
          | (packed, None) =>
              (http.mkRequest (http.Method req) (http.URL req)
                 (http.Header_Set (http.Header req) (B "Authorization") (B "Bearer " ++ packed))
                 (http.ReqBody req),
               None)
          end
      end
  end.

(** ** webhook.go *)

(** How a call of the handler ends. *)
Inductive ending : Type :=
| Returned
| Panicked.   (* a run-time panic: the method call on a nil error *)

Section Webhook.
(** [Transaction], [json.Unmarshal] into it, and the error of the
    business callback. *)
Variable Transaction : Type.
Variable json_Unmarshal : bytes -> result json.error Transaction.
Variable HandlerError : Type.

(** The errors whose message a response quotes. *)
Inductive werror : Type :=
| WToken (e : error)
| WJSON (e : json.error)
| WHandler (e : HandlerError).

(** What a call leaves: the response writer, the transactions that the
    callback was given, and how the call ended. *)
Record outcome : Type := mkOutcome {
  resp : http.ResponseWriter werror;
  calls : list Transaction;
  ended : ending;
}.

Definition reply (w : http.ResponseWriter werror) (code : Z) (t : http.text werror) : outcome :=
  mkOutcome (http.Write (http.WriteHeader w code) t) [] Returned.

(** [func (c *Client) WebhookHandler(handler WebhookHandler)
    func(http.ResponseWriter, *http.Request)]; [now] is what
    [time.Now()] returns in [Verify]. *)
Definition WebhookHandler (c : Client) (handler : Transaction -> option HandlerError)
    (now : time.Time) (w : http.ResponseWriter werror) (r : http.Request) : outcome :=
  let w := http.SetHeader w (B "Content-Type") (B "text/plain") in
  let token := {| APIKeyID := uuid.Nil; Timestamp := time.mkTime 0 0; Signature := [] |} in
  let hdrs := http.Header_Values (http.Header r) (B "Authorization") in
  match hdrs with
  | [] => reply w http.StatusUnauthorized (http.Text (B "Missing `Authorization` header."))
  | _ :: _ :: _ => reply w http.StatusBadRequest (http.Text (B "Multiple `Authorization` header."))
  | [hdr0] =>
      let hdr := strings.TrimSpace hdr0 in
      if len hdr <? 7
      then reply w http.StatusBadRequest (http.Text (B "Incomplete `Authorization` header."))
      else if negb (strings.bytes_eqb (strings.ToLower (firstn 7 hdr)) (B "bearer "))
      then reply w http.StatusBadRequest (http.Text (B "Invalid `Authorization` token type."))
      else
        let v := strings.TrimSpace (skipn 7 hdr) in
        if len v =? 0
        then reply w http.StatusBadRequest (http.Text (B "Missing bearer token."))
        else
          match Unpack token v with
          | (_, Some err) =>
              reply w http.StatusBadRequest (http.TextErr (B "Invalid bearer token: ") (WToken err))
          | (token, None) =>
              match http.ReqBody r with
              | None => mkOutcome w [] Panicked
              | Some body =>
                  let '(payload, err, _) := http.ReadAll body in
                  match err with
                  | Some e =>
                      reply w http.StatusInternalServerError
                        (http.TextErr (B "Unable to read request body: ") (WToken (ErrRead e)))
                  | None =>
                      match Verify now token (keySec c) payload (maxTimeDiff c) with
                      | Some verr =>
                          reply w http.StatusForbidden
                            (http.TextErr (B "Unable to verify the request signature: ")
                               (WToken verr))
                      | None =>
                          if negb (strings.bytes_eqb (uuid.to_bytes (APIKeyID token))
                                     (uuid.to_bytes (keyID c)))
                          then
                            let w := http.WriteHeader w http.StatusForbidden in
                            (* [err] is the nil error of [io.ReadAll] *)
                            match err with
                            | None => mkOutcome w [] Panicked
                            | Some e =>
                                mkOutcome (http.Write w (http.TextErr (B "Illegal signer: ")
                                                           (WToken (ErrRead e)))) [] Returned
                            end
                          else
                            match json_Unmarshal payload with
                            | Err e =>
                                reply w http.StatusBadRequest
                                  (http.TextErr (B "Invalid request payload: ") (WJSON e))
                            | Ok trx =>
                                match handler trx with
                                | Some e =>
                                    mkOutcome
                                      (http.Write (http.WriteHeader w http.StatusInternalServerError)
                                         (http.TextErr
                                            (B "An error occurred while processing the webhook notification: ")
                                            (WHandler e)))
                                      [trx] Returned
                                | None =>
                                    mkOutcome
                                      (http.Write (http.WriteHeader w http.StatusAccepted)
                                         (http.Text (B "The webhook notification has been processed successfully.")))
                                      [trx] Returned
                                end
                            end
                      end
                  end
              end
          end
  end.
End Webhook.

(** What the gates of the handler before [Verify] require of a request:
    one [Authorization] header, of the form [Bearer <token>], whose token
    unpacks to [token], and a body that reads as [payload]. *)
Definition well_formed (r : http.Request) (token : BearerToken) (payload : bytes) : Prop :=
  exists hdr0 body rest,
    http.Header_Values (http.Header r) (B "Authorization") = [hdr0]
    /\ 7 <= len (strings.TrimSpace hdr0)
    /\ strings.ToLower (firstn 7 (strings.TrimSpace hdr0)) = B "bearer "
    /\ strings.TrimSpace (skipn 7 (strings.TrimSpace hdr0)) <> []
    /\ Unpack {| APIKeyID := uuid.Nil; Timestamp := time.mkTime 0 0; Signature := [] |}
         (strings.TrimSpace (skipn 7 (strings.TrimSpace hdr0))) = (token, None)
    /\ http.ReqBody r = Some body
    /\ http.ReadAll body = (payload, None, rest).

(** The bytes that a request body will yield when it is sent. *)
Definition body_bytes (b : option http.Body) : bytes :=
  match b with
  | Some body => let '(data, _, _) := http.ReadAll body in data
  | None => []
  end.

(** ** Sample values *)

Module sample.
Definition id : uuid.UUID :=
  match uuid.Parse (B "123e4567-e89b-12d3-a456-426614174000") with
  | Ok u => u
  | Err _ => uuid.Nil
  end.

Definition other_id : uuid.UUID :=
  match uuid.Parse (B "00000000-0000-4000-8000-000000000001") with
  | Ok u => u
  | Err _ => uuid.Nil
  end.

Definition secret : bytes := B "secret".
Definition payload : bytes := B "{}".

(** 2024-05-01T15:00:00.123456789+03:00 *)
Definition now : time.Time := time.mkTime 1714564800123456789 10800.

(** The token that [Client.sign] makes at [now] for [payload]. *)
Definition token : BearerToken :=
  fst (Sign {| APIKeyID := id; Timestamp := now; Signature := [] |} secret payload).

Definition packed : bytes := fst (Pack token).

(** The same token with its timestamp cut to the second. *)
Definition token_sec : BearerToken :=
  fst (Sign {| APIKeyID := id; Timestamp := time.mkTime 1714564800000000000 10800;
               Signature := [] |} secret payload).

Definition zero : BearerToken :=
  {| APIKeyID := uuid.Nil; Timestamp := time.mkTime 0 0; Signature := [] |}.

(** A packed token with the given algorithm tag, otherwise as [Pack]
    makes it. *)
Definition packed_with_algo (algo : bytes) : bytes :=
  match json.Marshal {| tj_APIKeyID := uuid.String id;
                        tj_Timestamp := B "2024-05-01T12:00:00Z";
                        tj_SigningAlgo := algo;
                        tj_Signature := hex.EncodeToString (Signature token) |} with
  | Ok buf => base64.EncodeToString buf
  | Err _ => []
  end.

(** A webhook request that carries [packed] and [payload]. *)
Definition request : http.Request :=
  {| http.Method := B "POST"; http.URL := B "/bank-transfers";
     http.Header := {[ B "Authorization" := [B "Bearer " ++ packed] ]};
     http.ReqBody := Some (http.Reader payload None) |}.

(** A client that holds the secret of the token under another key
    identifier. *)
Definition other_client : Client :=
  {| keyID := other_id; keySec := secret; maxTimeDiff := 10 * time.Minute |}.

(** The client that the token was made for. *)
Definition client : Client :=
  {| keyID := id; keySec := secret; maxTimeDiff := 10 * time.Minute |}.

(** A client with the key identifier of the token and another secret. *)
Definition wrong_secret_client : Client :=
  {| keyID := id; keySec := B "another secret"; maxTimeDiff := 10 * time.Minute |}.

Definition writer {E} : http.ResponseWriter E :=
  {| http.RespHeader := ∅; http.Status := None; http.Written := [] |}.
End sample.

(** ** Notions for the proofs *)

(** Linear arithmetic with division and remainder by constants. *)
Ltac dlia := zify; Z.to_euclidean_division_equations; lia.

(** Case analysis on the 256 bytes. *)
Ltac each_byte a := destruct a as [[] [] [] [] [] [] [] []].

(** A plain string: ASCII that [Marshal] writes as it is. *)
Definition plain (s : bytes) : Prop := Forall (fun c => json.htmlSafe c = true) s.

(** A member as [Marshal] writes it. *)
Definition member (key s : bytes) : bytes :=
  quote :: key ++ quote :: ":"%char :: quote :: s ++ [quote].

(** A check of [f] on the [n] integers from [z] on. *)
Fixpoint all_from (n : nat) (z : Z) (f : Z -> bool) : bool :=
  match n with
  | O => true
  | S n' => f z && all_from n' (z + 1) f
  end.

(** What the calendar must do on a day of the cycle of 400 years that
    starts on 0000-03-01. *)
Definition civil_ok (doe : Z) : bool :=
  let '(y, m, d) := time.civil (doe - 719468) in
  (0 <=? y) && (y <=? 400) && (1 <=? m) && (m <=? 12) && (1 <=? d) && (d <=? time.daysIn m y)
  && (time.daysSinceEpoch y m d =? doe - 719468).

(** The date and the clock of a formatted time, as [Parse] reads them. *)
Definition clock_text (year month day clock : Z) : bytes :=
  time.appendInt year 4 ++ B "-" ++ time.appendInt month 2 ++ B "-" ++
  time.appendInt day 2 ++ B "T" ++
  time.appendInt (clock / 3600) 2 ++ B ":" ++ time.appendInt (clock mod 3600 / 60) 2 ++ B ":" ++
  time.appendInt (clock mod 60) 2.

(** * The rest of the package

    The code around the bearer token: the remaining gates of the webhook
    handler, the request options of webhook.go, and [NewClient], [path]
    and [do] of client.go, with models of the library calls that they
    make (net/url query strings, strconv, path, io, the standard alphabet
    of encoding/base64).  What is not embedded is a parameter: [url.Parse]
    and [URL.String], the HTTP transport and the JSON decoding of a
    response. *)

(** ** Notions for the handler *)

(** What the handler requires of the headers of a request before it
    unpacks: one [Authorization] header, of the form [Bearer <v>] with
    [v] not empty, white space around both cut and the case of [Bearer]
    ignored. *)
Definition bearer_header (r : http.Request) (v : bytes) : Prop :=
  exists hdr0,
    http.Header_Values (http.Header r) (B "Authorization") = [hdr0]
    /\ 7 <= len (strings.TrimSpace hdr0)
    /\ strings.ToLower (firstn 7 (strings.TrimSpace hdr0)) = B "bearer "
    /\ v = strings.TrimSpace (skipn 7 (strings.TrimSpace hdr0))
    /\ v <> [].

(** The token that the handler unpacks into, [&BearerToken{}]. *)
Definition zero_token : BearerToken :=
  {| APIKeyID := uuid.Nil; Timestamp := time.mkTime 0 0; Signature := [] |}.

(** ** strconv *)

Module strconv.
(** [FormatInt(i, 10)]: the decimal digits of [i], after [-] when it
    is negative. *)
Definition FormatInt (i : Z) : bytes :=
  (if i <? 0 then B "-" else []) ++
  time.digits (S (Z.to_nat (Z.log2 (Z.abs i)))) (Z.abs i) [].
End strconv.

(** ** net/url: query strings *)

Module url.

(** [type URL struct]; a nil [User] is [None], and a [Userinfo] is
    a user name with a password if one is set. *)
Record URL : Type := mkURL {
  Scheme : bytes;
  Opaque : bytes;
  User : option (bytes * option bytes);
  Host : bytes;
  Path : bytes;
  RawPath : bytes;
  OmitHost : bool;
  ForceQuery : bool;
  RawQuery : bytes;
  Fragment : bytes;
  RawFragment : bytes;
}.

(** [u.Path = p] *)
Definition with_Path (u : URL) (p : bytes) : URL :=
  mkURL (Scheme u) (Opaque u) (User u) (Host u) p (RawPath u) (OmitHost u) (ForceQuery u)
    (RawQuery u) (Fragment u) (RawFragment u).

(** [type Values map[string][]string] *)
Abbreviation Values := (gmap (list ascii) (list (list ascii))).

Definition upperhex : bytes := B "0123456789ABCDEF".
Definition hexdigit (v : Z) : ascii := nth (Z.to_nat v) upperhex "0"%char.

(** [shouldEscape(c, encodeQueryComponent)]: all but the letters, the
    digits and [-], [_], [.], [~]. *)
Definition shouldEscape (c : ascii) : bool :=
  let v := byte_val c in
  if ((97 <=? v) && (v <=? 122)) || ((65 <=? v) && (v <=? 90)) || ((48 <=? v) && (v <=? 57))
  then false
  else if Ascii.eqb c "-" || Ascii.eqb c "_" || Ascii.eqb c "." || Ascii.eqb c "~"
  then false
  else true.

(** [QueryEscape]: a space becomes [+], any other byte to escape
    becomes [%XX]. *)
Fixpoint QueryEscape (s : bytes) : bytes :=
  match s with
  | [] => []
  | c :: r =>
      (if shouldEscape c then
         if Ascii.eqb c " " then B "+"
         else ["%"%char; hexdigit (Z.shiftr (byte_val c) 4); hexdigit (Z.land (byte_val c) 15)]
       else [c]) ++ QueryEscape r
  end.

Definition ishex (c : ascii) : bool :=
  match hex.fromHexChar c with Some _ => true | None => false end.
Definition unhex (c : ascii) : Z := default 0 (hex.fromHexChar c).

Inductive error : Type :=
| EscapeError (s : bytes)     (* "invalid URL escape" *)
| SemicolonError.             (* "invalid semicolon separator in query" *)

(** The first pass of [unescape]: the first [%] that two hexadecimal
    digits do not follow, with the at most three bytes from it on. *)
Fixpoint bad_escape (s : bytes) : option bytes :=
  match s with
  | [] => None
  | c :: r =>
      if Ascii.eqb c "%" then
        match r with
        | h1 :: h2 :: r' => if ishex h1 && ishex h2 then bad_escape r' else Some (firstn 3 s)
        | _ => Some (firstn 3 s)
        end
      else bad_escape r
  end.

(** The second pass of [unescape], in the mode of a query component. *)
Fixpoint unescaped (s : bytes) : bytes :=
  match s with
  | [] => []
  | c :: r =>
      if Ascii.eqb c "%" then
        match r with
        | h1 :: h2 :: r' => byte_of (Z.lor (Z.shiftl (unhex h1) 4) (unhex h2)) :: unescaped r'
        | _ => []
        end
      else if Ascii.eqb c "+" then " "%char :: unescaped r
      else c :: unescaped r
  end.

Definition QueryUnescape (s : bytes) : result error bytes :=
  match bad_escape s with
  | Some bad => Err (EscapeError bad)
  | None => Ok (unescaped s)
  end.

(** [strings.Cut(s, sep)] for a separator of one byte. *)
Fixpoint Cut (s : bytes) (sep : ascii) : bytes * bytes * bool :=
  match s with
  | [] => ([], [], false)
  | c :: r =>
      if Ascii.eqb c sep then ([], r, true)
      else let '(before, after, found) := Cut r sep in (c :: before, after, found)
  end.

(** [strings.Contains(s, sep)] for a separator of one byte. *)
Definition Contains (s : bytes) (sep : ascii) : bool := existsb (Ascii.eqb sep) s.

(** [v.Set(key, value)] *)
Definition Values_Set (v : Values) (key value : bytes) : Values := <[key := [value]]> v.

(** [v.Add(key, value)] *)
Definition Values_Add (v : Values) (key value : bytes) : Values :=
  <[key := default [] (v !! key) ++ [value]]> v.

(** [v.Get(key)] *)
Definition Values_Get (v : Values) (key : bytes) : bytes :=
  match v !! key with
  | Some (value :: _) => value
  | _ => []
  end.

(** [parseQuery(m, query)]: the loop [for query != ""], which takes
    one pair off the query in each round; [fuel] bounds the rounds. *)
Fixpoint parseQuery (fuel : nat) (m : Values) (err : option error) (query : bytes)
  : Values * option error :=
  match fuel with
  | O => (m, err)
  | S fuel' =>
      match query with
      | [] => (m, err)
      | _ =>
          let '(key, query, _) := Cut query "&" in
          if Contains key ";" then parseQuery fuel' m (Some SemicolonError) query
          else if bool_decide (key = []) then parseQuery fuel' m err query
          else
            let '(key, value, _) := Cut key "=" in
            match QueryUnescape key with
            | Err err1 =>
                parseQuery fuel' m (match err with None => Some err1 | _ => err end) query
            | Ok key =>
                match QueryUnescape value with
                | Err err1 =>
                    parseQuery fuel' m (match err with None => Some err1 | _ => err end) query
                | Ok value => parseQuery fuel' (Values_Add m key value) err query
                end
            end
      end
  end.

(** [ParseQuery(query)] *)
Definition ParseQuery (query : bytes) : Values * option error :=
  parseQuery (length query) ∅ None query.

(** [u.Query()] for a URL whose [RawQuery] is [raw]: the values that
    parse; the error is dropped. *)
Definition Query (raw : bytes) : Values := fst (ParseQuery raw).

(** The order of strings: byte by byte, a prefix first. *)
Fixpoint bytes_leb (a b : bytes) : bool :=
  match a, b with
  | [], _ => true
  | _ :: _, [] => false
  | x :: a', y :: b' =>
      if byte_val x <? byte_val y then true
      else if byte_val y <? byte_val x then false
      else bytes_leb a' b'
  end.

(** [slices.Sort(keys)], as a sort by insertion. *)
Fixpoint insert_key (k : bytes) (keys : list bytes) : list bytes :=
  match keys with
  | [] => [k]
  | x :: rest => if bytes_leb k x then k :: keys else x :: insert_key k rest
  end.

Definition Sort (keys : list bytes) : list bytes := fold_right insert_key [] keys.

(** The keys of [v], sorted. *)
Definition sorted_keys (v : Values) : list bytes := Sort (map fst (map_to_list v)).

(** [v.Encode()]: the pairs [key=value] with [&] between them, the
    keys in order and the values of a key in theirs. *)
Definition Encode (v : Values) : bytes :=
  fold_left
    (fun buf k =>
       let keyEscaped := QueryEscape k in
       fold_left
         (fun buf value =>
            (if 0 <? len buf then buf ++ B "&" else buf)
              ++ keyEscaped ++ B "=" ++ QueryEscape value)
         (default [] (v !! k)) buf)
    (sorted_keys v) [].
End url.

(** ** The request options of webhook.go *)

(** [type reqOpt func(req *http.Request) error].  The options read and
    write [req.URL.RawQuery] and nothing else of the request: an option
    is a function from the raw query to the raw query that it leaves and
    the error that it returns. *)
Definition reqOpt : Type := bytes -> bytes * option error.

(** [func (o reqOpt) apply(req *http.Request) error] *)
Definition apply (o : reqOpt) (raw : bytes) : bytes * option error := o raw.

(** [func WithPageNum(pageNum int) RequestOption] *)
Definition WithPageNum (pageNum : Z) : reqOpt := fun raw =>
  let q := url.Query raw in
  let q := url.Values_Set q (B "pageNum") (strconv.FormatInt pageNum) in
  (url.Encode q, None).

(** [func WithPageSize(pageSize int) RequestOption] *)
Definition WithPageSize (pageSize : Z) : reqOpt := fun raw =>
  let q := url.Query raw in
  let q := url.Values_Set q (B "pageSize") (strconv.FormatInt pageSize) in
  (url.Encode q, None).

(** [func WithFilterInDateRange(startDate, endDate time.Time) RequestOption] *)
Definition WithFilterInDateRange (startDate endDate : time.Time) : reqOpt := fun raw =>
  let q := url.Query raw in
  let q := url.Values_Set q (B "startDate") (time.FormatRFC3339 startDate) in
  let q := url.Values_Set q (B "endDate") (time.FormatRFC3339 endDate) in
  (url.Encode q, None).

(** [func WithFilterIncomingTransactions() RequestOption] *)
Definition WithFilterIncomingTransactions : reqOpt := fun raw =>
  let q := url.Query raw in
  let q := url.Values_Set q (B "direction") (B "INCOMING") in
  (url.Encode q, None).

(** [func WithFilterOutgoingTransactions() RequestOption] *)
Definition WithFilterOutgoingTransactions : reqOpt := fun raw =>
  let q := url.Query raw in
  let q := url.Values_Set q (B "direction") (B "OUTGOING") in
  (url.Encode q, None).

(** [func WithFilterAccountIDs(accountID ...uuid.UUID) RequestOption] *)
Definition WithFilterAccountIDs (accountID : list uuid.UUID) : reqOpt := fun raw =>
  let q := url.Query raw in
  let q := fold_left (fun q aid => url.Values_Add q (B "account") (uuid.String aid)) accountID q in
  (url.Encode q, None).

(** The loop over the options in [Client.APIKeys] and
    [Client.Transactions]: each option is applied in turn, and the first
    error ends the loop. *)
Fixpoint apply_options (options : list reqOpt) (raw : bytes) : bytes * option error :=
  match options with
  | [] => (raw, None)
  | opt :: rest =>
      match apply opt raw with
      | (raw', Some err) => (raw', Some err)
      | (raw', None) => apply_options rest raw'
      end
  end.

(** ** Notions for the proofs about queries *)

(** The bytes that separate the pairs of a query and the parts of a pair. *)
Definition separator (c : ascii) : bool :=
  Ascii.eqb c "&" || Ascii.eqb c "=" || Ascii.eqb c ";".

(** A pair as [Encode] writes it. *)
Definition encoded_pair (p : bytes * bytes) : bytes :=
  url.QueryEscape (fst p) ++ B "=" ++ url.QueryEscape (snd p).

(** The pairs of [v] under the keys [keys], in the order of [Encode]. *)
Definition pairs_of (v : url.Values) (keys : list bytes) : list (bytes * bytes) :=
  flat_map (fun k => map (pair k) (default [] (v !! k))) keys.

(** The pairs with [&] between them. *)
Fixpoint joined (ps : list (bytes * bytes)) : bytes :=
  match ps with
  | [] => []
  | [p] => encoded_pair p
  | p :: rest => encoded_pair p ++ B "&" ++ joined rest
  end.

(** Values as [ParseQuery], [Set] and [Add] make them: no key without
    a value. *)
Definition proper (v : url.Values) : Prop :=
  forall k vs, v !! k = Some vs -> vs <> [].

(** An option that replaces the values of the query by [f] of them. *)
Definition updates (o : reqOpt) (f : url.Values -> url.Values) : Prop :=
  (forall raw, o raw = (url.Encode (f (url.Query raw)), None))
  /\ (forall v, proper v -> proper (f v)).

(** ** encoding/base64: [StdEncoding] *)

Module base64std.

(** [StdEncoding]: the alphabet of RFC 4648, section 4, padded with [=]. *)
Definition encodeStd : bytes :=
  B "ABCDEFGHIJKLMNOPQRSTUVWXYZabcdefghijklmnopqrstuvwxyz0123456789+/".

Definition enc (v : Z) : ascii := nth (Z.to_nat v) encodeStd "A"%char.

Fixpoint EncodeToString (src : bytes) : bytes :=
  match src with
  | [] => []
  | [a] =>
      let val := Z.shiftl (byte_val a) 16 in
      [enc (Z.land (Z.shiftr val 18) 0x3f); enc (Z.land (Z.shiftr val 12) 0x3f);
       base64.padChar; base64.padChar]
  | [a; b] =>
      let val := Z.lor (Z.shiftl (byte_val a) 16) (Z.shiftl (byte_val b) 8) in
      [enc (Z.land (Z.shiftr val 18) 0x3f); enc (Z.land (Z.shiftr val 12) 0x3f);
       enc (Z.land (Z.shiftr val 6) 0x3f); base64.padChar]
  | a :: b :: c :: r =>
      let val := Z.lor (Z.lor (Z.shiftl (byte_val a) 16) (Z.shiftl (byte_val b) 8))
                   (byte_val c) in
      enc (Z.land (Z.shiftr val 18) 0x3f) :: enc (Z.land (Z.shiftr val 12) 0x3f)
        :: enc (Z.land (Z.shiftr val 6) 0x3f) :: enc (Z.land val 0x3f)
        :: EncodeToString r
  end.

(** [decodeMap]: the value of an alphabet byte. *)
Definition dec (c : ascii) : option Z :=
  let v := byte_val c in
  if (65 <=? v) && (v <=? 90) then Some (v - 65)
  else if (97 <=? v) && (v <=? 122) then Some (v - 97 + 26)
  else if (48 <=? v) && (v <=? 57) then Some (v - 48 + 52)
  else if v =? 43 then Some 62
  else if v =? 47 then Some 63
  else None.

(** As [base64.decode], with the values of this alphabet. *)
Fixpoint decode (s : bytes) : result base64.error bytes :=
  match s with
  | [] => Ok []
  | c0 :: c1 :: c2 :: c3 :: r =>
      match dec c0, dec c1 with
      | Some v0, Some v1 =>
          match dec c2 with
          | Some v2 =>
              match dec c3 with
              | Some v3 =>
                  match decode r with
                  | Ok l => Ok (base64.quantum v0 v1 v2 v3 ++ l)
                  | Err e => Err e
                  end
              | None =>
                  if Ascii.eqb c3 base64.padChar && bool_decide (r = [])
                  then Ok (firstn 2 (base64.quantum v0 v1 v2 0))
                  else Err base64.CorruptInputError
              end
          | None =>
              if Ascii.eqb c2 base64.padChar && Ascii.eqb c3 base64.padChar
                 && bool_decide (r = [])
              then Ok (firstn 1 (base64.quantum v0 v1 0 0))
              else Err base64.CorruptInputError
          end
      | _, _ => Err base64.CorruptInputError
      end
  | _ => Err base64.CorruptInputError
  end.

Definition DecodeString (s : bytes) : result base64.error bytes :=
  decode (List.filter (fun c => negb (base64.isNewline c)) s).

End base64std.

(** ** client.go: NewClient *)

(** [type Credentials struct] *)
Module Credentials.
Record t : Type := mk {
  APIKeyID : bytes;
  APIKeySecret : bytes;
}.
End Credentials.

Definition defaultServiceURL : bytes := B "https://api.birapi.com/corpbank/aispis/v1".
Definition defaultMaxTimeDiff : time.Duration := 10 * time.Minute.

Section NewClient.
(** [url.Parse] and its error, [*http.Client] and
    [http.DefaultClient]. *)
Variable URLError : Type.
Variable url_Parse : bytes -> result URLError url.URL.
Variable HTTPClient : Type.
Variable http_DefaultClient : HTTPClient.

(** [type ClientOptions struct]; a nil [HTTPClient] is [None]. *)
Record ClientOptions : Type := mkClientOptions {
  APIBaseURL : bytes;
  HTTPClient_opt : option HTTPClient;
  MaxTimeDiff : time.Duration;
}.

(** [type Client struct] in full: the fields of [Client], the base
    URL and the HTTP client. *)
Record ClientHandle : Type := mkClientHandle {
  fields : Client;
  baseURL : url.URL;
  hc : HTTPClient;
}.

(** The errors of [NewClient], each with its cause and the value
    that its message quotes. *)
Inductive NewClientError : Type :=
| ErrParseKeyID (cause : uuid.error) (s : bytes)   (* "unable to parse API key ID: `%s`" *)
| ErrParseSecret (cause : base64.error)            (* "unable to parse API secret" *)
| ErrParseURL (cause : URLError) (s : bytes).      (* "unable to parse API URL: `%s`" *)

(** [func NewClient(apiCreds Credentials, clientOpts *ClientOptions)],
    which returns a client or an error; a nil [clientOpts] is [None]. *)
Definition NewClient (apiCreds : Credentials.t) (clientOpts : option ClientOptions)
  : result NewClientError ClientHandle :=
  match uuid.Parse (Credentials.APIKeyID apiCreds) with
  | Err err => Err (ErrParseKeyID err (Credentials.APIKeyID apiCreds))
  | Ok apiKeyID =>
      match base64std.DecodeString (Credentials.APIKeySecret apiCreds) with
      | Err err => Err (ErrParseSecret err)
      | Ok apiKeySec =>
          let c_hc := http_DefaultClient in
          let c_maxTimeDiff := defaultMaxTimeDiff in
          let baseURL := defaultServiceURL in
          let baseURL :=
            match clientOpts with
            | Some o => if negb (bool_decide (APIBaseURL o = [])) then APIBaseURL o else baseURL
            | None => baseURL
            end in
          match url_Parse baseURL with
          | Err err => Err (ErrParseURL err baseURL)
          | Ok c_baseURL =>
              let c_hc :=
                match clientOpts with
                | Some o => match HTTPClient_opt o with Some h => h | None => c_hc end
                | None => c_hc
                end in
              let c_maxTimeDiff :=
                match clientOpts with
                | Some o => if 0 <? MaxTimeDiff o then MaxTimeDiff o else c_maxTimeDiff
                | None => c_maxTimeDiff
                end in
              Ok {| fields := {| keyID := apiKeyID; keySec := apiKeySec;
                                 maxTimeDiff := c_maxTimeDiff |};
                    baseURL := c_baseURL;
                    hc := c_hc |}
          end
      end
  end.
End NewClient.

(** ** io *)

Module io.
(** [io.LimitReader(r, n)]: the stream [r] cut after [n] bytes.  The
    error of [r] comes after its data and is met only when fewer than
    [n] bytes come before it. *)
Definition LimitReader (r : http.Body) (n : Z) : http.Body :=
  match r with
  | http.NoBody => http.NoBody
  | http.Reader data fail =>
      if n <=? len data then http.Reader (firstn (Z.to_nat n) data) None
      else http.Reader data fail
  end.
End io.

(** ** client.go: do *)

Definition maxReadBytes : Z := 10 * 1024 * 1024.
Definition maxReadBytesOnErr : Z := 4 * 1024.

Section Do.
(** The error of the transport, and what [dst] points to. *)
Variable TransportError : Type.
Variable Dst : Type.

(** [*http.Response]: the fields that [do] reads. *)
Record Response : Type := mkResponse {
  RespStatus : bytes;
  StatusCode : Z;
  RespBody : http.Body;
}.

(** [c.hc.Do(req)] *)
Variable hc_Do : http.Request -> result TransportError Response.

(** [json.NewDecoder(io.TeeReader(r, os.Stdout)).Decode(dst)]: what
    [dst] points to afterwards, the error, and the bytes that the decoder
    has read from [r], which the tee has written to the standard
    output. *)
Variable Decode_tee : http.Body -> Dst -> Dst * option json.error * bytes.

(** The errors that [do] returns. *)
Inductive do_error : Type :=
| DoSign (cause : error)
| DoTransport (cause : TransportError)
| DoReadStatus (cause : bytes) (status : bytes) (expected : Z)
    (* "unable to read HTTP response for status code: %s (expected: %d)" *)
| DoUnexpected (status : bytes) (respBody : bytes)
    (* "remote service returns unexpected response: %s - %s" *)
| DoJSON (cause : json.error).
    (* "unable to parse JSON response of the remote service" *)

(** What a call of [do] leaves: the error, what [dst] points to, the
    request as it is afterwards, the requests that the transport was
    given, the response body if it was closed, and what was written to
    the standard output. *)
Record do_outcome : Type := mkDoOutcome {
  do_err : option do_error;
  do_dst : option Dst;
  do_req : http.Request;
  sent : list http.Request;
  closed : option http.Body;
  stdout : bytes;
}.

(** [func (c *Client) do(dst interface{}, req *http.Request,
    expectedStatusCode int) error]; a nil [dst] is [None], and [now] is
    what [time.Now()] returns in [sign]. *)
Definition do (c : Client) (now : time.Time) (dst : option Dst) (req : http.Request)
    (expectedStatusCode : Z) : do_outcome :=
  match Client_sign c now req with
  | (req, Some err) => mkDoOutcome (Some (DoSign err)) dst req [] None []
  | (req, None) =>
      match hc_Do req with
      | Err err => mkDoOutcome (Some (DoTransport err)) dst req [req] None []
      | Ok resp =>
          if negb (StatusCode resp =? expectedStatusCode) then
            let '(respBody, err, _) :=
              http.ReadAll (io.LimitReader (RespBody resp) maxReadBytesOnErr) in
            match err with
            | Some e =>
                mkDoOutcome (Some (DoReadStatus e (RespStatus resp) expectedStatusCode))
                  dst req [req] (Some (RespBody resp)) []
            | None =>
                mkDoOutcome (Some (DoUnexpected (RespStatus resp) respBody))
                  dst req [req] (Some (RespBody resp)) []
            end
          else
            match dst with
            | Some d =>
                let '(d', err, echoed) :=
                  Decode_tee (io.LimitReader (RespBody resp) maxReadBytes) d in
                match err with
                | Some e =>
                    mkDoOutcome (Some (DoJSON e)) (Some d') req [req] (Some (RespBody resp)) echoed
                | None =>
                    mkDoOutcome None (Some d') req [req] (Some (RespBody resp)) echoed
                end
            | None => mkDoOutcome None None req [req] (Some (RespBody resp)) []
            end
      end
  end.
End Do.

(** ** path *)

Module path.

(** The bytes of [s] up to the first [/], and [s] from it on. *)
Fixpoint element (s : bytes) : bytes * bytes :=
  match s with
  | [] => ([], [])
  | c :: r =>
      if Ascii.eqb c "/" then ([], s)
      else let '(e, rest) := element r in (c :: e, rest)
  end.

(** [out.w--; for out.w > dotdot && out.index(out.w) != '/' { out.w-- }]
    on the buffer [out], given in reverse: bytes are dropped from the
    end until one that is dropped is a [/] or [dotdot] bytes are left. *)
Fixpoint backtrack (dotdot : nat) (rout : bytes) : bytes :=
  match rout with
  | [] => []
  | b :: rest =>
      if (dotdot <? length rest)%nat && negb (Ascii.eqb b "/") then backtrack dotdot rest
      else rest
  end.

Definition at_end (s : bytes) : bool :=
  match s with
  | [] => true
  | c :: _ => Ascii.eqb c "/"
  end.

(** The loop of [Clean]: [s] is what is left of the path to read,
    [out] what is written, and [dotdot] the length of [out] at which
    backtracking stops. *)
Fixpoint clean_loop (fuel : nat) (rooted : bool) (dotdot : nat) (out s : bytes) : bytes :=
  match fuel with
  | O => out
  | S fuel' =>
      match s with
      | [] => out
      | c :: s1 =>
          if Ascii.eqb c "/" then clean_loop fuel' rooted dotdot out s1
          else if Ascii.eqb c "." && at_end s1 then clean_loop fuel' rooted dotdot out s1
          else if Ascii.eqb c "." && Ascii.eqb (hd "/"%char s1) "." && at_end (tl s1) then
            let s2 := tl s1 in
            if (dotdot <? length out)%nat then
              clean_loop fuel' rooted dotdot (rev (backtrack dotdot (rev out))) s2
            else if negb rooted then
              let out := (if (0 <? length out)%nat then out ++ B "/" else out) ++ B ".." in
              clean_loop fuel' rooted (length out) out s2
            else clean_loop fuel' rooted dotdot out s2
          else
            let out :=
              if (rooted && negb (length out =? 1)%nat) || (negb rooted && negb (length out =? 0)%nat)
              then out ++ B "/" else out in
            let '(e, rest) := element s in
            clean_loop fuel' rooted dotdot (out ++ e) rest
      end
  end.

(** [Clean(path)] *)
Definition Clean (path : bytes) : bytes :=
  match path with
  | [] => B "."
  | c :: r =>
      let rooted := Ascii.eqb c "/" in
      let out := if rooted
                 then clean_loop (length path) true 1 (B "/") r
                 else clean_loop (length path) false 0 [] path in
      match out with
      | [] => B "."
      | _ => out
      end
  end.

(** [Join(elem...)]: the elements that are not empty, with [/]
    between them, cleaned; the empty string when there is none. *)
Definition Join (elem : list bytes) : bytes :=
  if (fold_left (fun size e => size + length e)%nat elem 0 =? 0)%nat then []
  else
    Clean (fold_left
             (fun buf e =>
                if (0 <? length buf)%nat || negb (bool_decide (e = []))
                then (if (0 <? length buf)%nat then buf ++ B "/" else buf) ++ e
                else buf)
             elem []).
End path.

(** ** client.go: path *)

Section Path.
Variable HTTPClient : Type.

(** [u.String()] *)
Variable URL_String : url.URL -> bytes.

(** [func (c *Client) path(p ...string) string] *)
Definition Client_path (c : ClientHandle HTTPClient) (p : list bytes) : bytes :=
  let u := baseURL _ c in
  let u := fold_left
             (fun u p => url.with_Path u (path.Join [url.Path u; url.QueryEscape p])) p u in
  URL_String u.
End Path.

(** ** Notions for the proofs about paths *)

(** The bytes of a name: the letters, the digits, [-] and [_]. *)
Definition name_byte (c : ascii) : bool :=
  let v := byte_val c in
  ((97 <=? v) && (v <=? 122)) || ((65 <=? v) && (v <=? 90)) || ((48 <=? v) && (v <=? 57))
  || Ascii.eqb c "-" || Ascii.eqb c "_".

(** A name: at least one byte, all of them bytes of a name. *)
Definition name (s : bytes) : Prop := s <> [] /\ forallb name_byte s = true.

(** The rooted path of the elements [es]: [/e1/e2/...]. *)
Definition slashed (es : list bytes) : bytes := concat (map (cons "/"%char) es).

(** * Properties *)

(** ** The library models on published vectors *)

(** FIPS 180-4, SHA-256 of "abc", in one shot and through the digest. *)
Example Sum256_abc :
  hex.EncodeToString (sha256.Sum256 (B "abc"))
  = B "ba7816bf8f01cfea414140de5dae2223b00361a396177a9cb410ff61f20015ad".
Proof. vm_compute. reflexivity. Qed.

Example digest_abc :
  hex.EncodeToString (sha256.Sum (sha256.Write (sha256.Write sha256.New (B "a")) (B "bc")) [])
  = B "ba7816bf8f01cfea414140de5dae2223b00361a396177a9cb410ff61f20015ad".
Proof. vm_compute. reflexivity. Qed.

(** The message of 56 bytes, which pads into a second block. *)
Example Sum256_two_blocks :
  hex.EncodeToString
    (sha256.Sum256 (B "abcdbcdecdefdefgefghfghighijhijkijkljklmklmnlmnomnopnopq"))
  = B "248d6a61d20638b8e5c026930c3e6039a33ce45964ff2167f6ecedd419db06c1".
Proof. vm_compute. reflexivity. Qed.

(** RFC 4231, test case 2. *)
Example HMAC_SHA256_rfc4231 :
  hex.EncodeToString (HMAC_SHA256 (B "Jefe") (B "what do ya want for nothing?"))
  = B "5bdcc146bf60754e6a042426089575c75a003f089d2739839dec58b964ec3843".
Proof. vm_compute. reflexivity. Qed.

(** RFC 4648, section 10, and the two digits that the URL alphabet changes. *)
Example base64_foobar :
  base64.EncodeToString (B "foobar") = B "Zm9vYmFy"
  /\ base64.EncodeToString (B "fooba") = B "Zm9vYmE="
  /\ base64.EncodeToString (B "foob") = B "Zm9vYg=="
  /\ base64.EncodeToString (map byte_of [0xfb; 0xff; 0xfe]) = B "-__-"
  /\ base64.DecodeString (B "Zm9vYg==") = Ok (B "foob")
  /\ base64.DecodeString (B "Zm9vYg") = Err base64.CorruptInputError.
Proof. vm_compute. repeat split. Qed.

Example Format_samples :
  time.FormatRFC3339 (time.mkTime 1714564800123456789 0) = B "2024-05-01T12:00:00Z"
  /\ time.FormatRFC3339 (time.mkTime 1714564800123456789 10800) = B "2024-05-01T15:00:00+03:00"
  /\ time.FormatRFC3339 (time.mkTime 1714564800123456789 (-19800)) = B "2024-05-01T06:30:00-05:30"
  /\ time.FormatRFC3339 (time.mkTime 951782400000000000 0) = B "2000-02-29T00:00:00Z"
  /\ time.FormatRFC3339 (time.mkTime (-1) 0) = B "1969-12-31T23:59:59Z".
Proof. vm_compute. repeat split. Qed.

Example Parse_samples :
  time.ParseRFC3339 (B "2024-05-01T15:00:00.5+03:00")
    = Some (time.mkTime 1714564800500000000 10800)
  /\ time.ParseRFC3339 (B "2023-02-29T00:00:00Z") = None
  /\ time.ParseRFC3339 (B "2024-05-01 12:00:00Z") = None.
Proof. vm_compute. repeat split. Qed.

Example uuid_samples :
  uuid.String sample.id = B "123e4567-e89b-12d3-a456-426614174000"
  /\ uuid.Parse (B "123E4567E89B12D3A456426614174000") = Ok sample.id
  /\ uuid.Parse (B "123e4567-e89b-12d3-a456-42661417400") = Err (uuid.invalidLengthError 35).
Proof. vm_compute. repeat split. Qed.

Example TrimSpace_samples :
  strings.TrimSpace (B "  HMAC-SHA256 ") = B "HMAC-SHA256"
  /\ strings.TrimSpace (map byte_of [0xc2; 0xa0; 0x61; 0x20; 0x62; 0xe2; 0x80; 0x89])
     = map byte_of [0x61; 0x20; 0x62].
Proof. vm_compute. repeat split. Qed.

(** A JSON object with white space, an escape, a field name in another
    case, a null, an unknown member and text after the object. *)
Example Decode_sample :
  json.Decode (B "  { " ++ [quote] ++ B "APIKEYID" ++ [quote] ++ B " : " ++ [quote]
               ++ B "aA\n" ++ [quote] ++ B ", " ++ [quote] ++ B "x" ++ [quote]
               ++ B ": [1, -2.5e3, {}, true], " ++ [quote] ++ B "algo" ++ [quote]
               ++ B ": null } trailing")
  = Ok {| tj_APIKeyID := B "aA" ++ ["010"%char]; tj_Timestamp := [];
          tj_SigningAlgo := []; tj_Signature := [] |}
  /\ json.Decode (B "{" ++ [quote] ++ B "algo" ++ [quote] ++ B ": 1}")
     = Err json.UnmarshalTypeError
  /\ json.Decode (B "{" ++ [quote] ++ B "algo" ++ [quote] ++ B ": ") = Err json.SyntaxError
  /\ json.Decode (B "null") = Ok {| tj_APIKeyID := []; tj_Timestamp := [];
                                    tj_SigningAlgo := []; tj_Signature := [] |}.
Proof. vm_compute. repeat split. Qed.

(** The sample token. *)
Example sample_token :
  hex.EncodeToString (Signature sample.token)
  = B "3ec4aca0c177c52bc0ae908bdca979b246f9ce24177acaa95d23f9ad8bc0f068"
  /\ sample.packed
     = B "eyJhcGlLZXlJRCI6IjEyM2U0NTY3LWU4OWItMTJkMy1hNDU2LTQyNjYxNDE3NDAwMCIsInRpbWVzdGFtcCI6IjIwMjQtMDUtMDFUMTU6MDA6MDArMDM6MDAiLCJhbGdvIjoiSE1BQy1TSEEyNTYiLCJzaWduYXR1cmUiOiIzZWM0YWNhMGMxNzdjNTJiYzBhZTkwOGJkY2E5NzliMjQ2ZjljZTI0MTc3YWNhYTk1ZDIzZjlhZDhiYzBmMDY4In0=".
Proof. vm_compute. split; reflexivity. Qed.

(** ** SHA-256: the streaming digest computes the hash of what was written *)

Module sha256_facts.
Import sha256.

Lemma block_n_app (k : nat) : forall (hh : regs) (a b : bytes) (m : nat),
  length a = (k * chunk)%nat ->
  block_n (k + m) hh (a ++ b) = block_n m (block_n k hh a) b.
Proof.
  induction k as [|k IH]; intros hh a b m Ha.
  - destruct a; [reflexivity | discriminate].
  - change (S k + m)%nat with (S (k + m)). cbn [block_n].
    assert (Hlen : (chunk <= length a)%nat) by (rewrite Ha; unfold chunk; lia).
    rewrite firstn_app, skipn_app.
    replace (chunk - length a)%nat with 0%nat by lia.
    cbn [firstn skipn]. rewrite app_nil_r.
    apply IH. rewrite length_skipn, Ha. unfold chunk. lia.
Qed.

Lemma block_short (hh : regs) (p : bytes) :
  (length p < chunk)%nat -> block hh p = hh.
Proof.
  intros H. unfold block. rewrite Nat.div_small by exact H. reflexivity.
Qed.

Lemma block_exact (k : nat) (hh : regs) (a : bytes) :
  length a = (k * chunk)%nat -> block hh a = block_n k hh a.
Proof.
  intros H. unfold block. rewrite H, Nat.div_mul by discriminate. reflexivity.
Qed.

Lemma block_app (k : nat) (hh : regs) (a b : bytes) :
  length a = (k * chunk)%nat -> block hh (a ++ b) = block (block hh a) b.
Proof.
  intros H. rewrite (block_exact k hh a H). unfold block at 1 2.
  rewrite length_app, H, Nat.div_add_l by discriminate.
  apply block_n_app, H.
Qed.

(** The digest after the bytes [D] were written: [D] is a run [A] of
    whole chunks, which [h] has absorbed, and the buffered rest [x]. *)
Definition absorbed (d : digest) (D : bytes) : Prop :=
  exists (A : bytes) (k : nat),
    D = A ++ x d /\ length A = (k * chunk)%nat /\ (length (x d) < chunk)%nat /\
    h d = block init A /\ dlen d = u64 (len D).

Lemma absorbed_New : absorbed New [].
Proof.
  exists [], 0%nat. cbn. repeat split; try reflexivity. unfold chunk. lia.
Qed.

Lemma u64_add (a b : Z) : u64 (u64 a + b) = u64 (a + b).
Proof. unfold u64. apply Zplus_mod_idemp_l. Qed.

Lemma len_app {A} (a b : list A) : len (a ++ b) = len a + len b.
Proof. unfold len. rewrite length_app. lia. Qed.

Lemma Write_absorbed (d : digest) (D p : bytes) :
  absorbed d D -> absorbed (Write d p) (D ++ p).
Proof.
  intros (A & k & HD & HA & Hx & Hh & Hl).
  assert (Hlen : u64 (dlen d + len p) = u64 (len (D ++ p))).
  { rewrite Hl, u64_add, len_app. reflexivity. }
  unfold absorbed, Write.
  (* first stage: top up a buffer that is in use *)
  assert (Hst1 : exists A1 k1 h1 x1 p1,
    (if (0 <? length (x d))%nat then
       let n := Nat.min (chunk - length (x d)) (length p) in
       let x' := x d ++ firstn n p in
       if (length x' =? chunk)%nat then (block (h d) x', [], skipn n p)
       else (h d, x', skipn n p)
     else (h d, x d, p)) = (h1, x1, p1) /\
    D ++ p = A1 ++ x1 ++ p1 /\ length A1 = (k1 * chunk)%nat /\
    (length x1 < chunk)%nat /\ h1 = block init A1 /\ (x1 = [] \/ p1 = [])).
  { destruct (0 <? length (x d))%nat eqn:E0.
    - set (n := Nat.min (chunk - length (x d)) (length p)).
      cbn zeta. destruct (length (x d ++ firstn n p) =? chunk)%nat eqn:E1.
      + apply Nat.eqb_eq in E1.
        exists (A ++ x d ++ firstn n p), (S k), (block (h d) (x d ++ firstn n p)), [], (skipn n p).
        repeat split.
        * rewrite HD, <- !app_assoc. cbn [app]. rewrite firstn_skipn. reflexivity.
        * rewrite length_app, E1, HA. unfold chunk. lia.
        * cbn. unfold chunk. lia.
        * rewrite Hh. symmetry. apply (block_app k). exact HA.
        * left; reflexivity.
      + apply Nat.eqb_neq in E1.
        rewrite length_app, length_firstn in E1.
        assert (Hn : n = length p) by (subst n; unfold chunk in *; lia).
        exists A, k, (h d), (x d ++ firstn n p), (skipn n p).
        rewrite Hn, firstn_all, skipn_all.
        repeat split; try assumption.
        * rewrite HD, app_nil_r, app_assoc. reflexivity.
        * rewrite length_app. subst n. unfold chunk in *. lia.
        * right; reflexivity.
    - apply Nat.ltb_ge in E0.
      assert (Hx0 : x d = []) by (destruct (x d); [reflexivity | cbn in E0; lia]).
      exists A, k, (h d), (x d), p. rewrite Hx0 in *.
      repeat split; try assumption.
      + rewrite HD, <- app_assoc. reflexivity.
      + left; reflexivity. }
  cbv zeta in Hst1.
  destruct Hst1 as (A1 & k1 & h1 & x1 & p1 & -> & HD1 & HA1 & Hx1 & Hh1 & Hor).
  cbn beta iota.
  destruct (chunk <=? length p1)%nat eqn:E2.
  - apply Nat.leb_le in E2.
    assert (x1 = []) as -> by (destruct Hor as [? | ->]; [assumption | cbn in E2; unfold chunk in E2; lia]).
    set (n := (length p1 / chunk * chunk)%nat).
    assert (Hn : (n <= length p1)%nat) by (subst n; unfold chunk; dlia).
    assert (Hr : (length p1 - n < chunk)%nat) by (subst n; unfold chunk; dlia).
    exists (A1 ++ firstn n p1), (k1 + length p1 / chunk)%nat.
    cbn [x h dlen].
    assert (Hs : length (skipn n p1) = (length p1 - n)%nat) by apply length_skipn.
    destruct (0 <? length (skipn n p1))%nat eqn:E3.
    + repeat split.
      * rewrite HD1. cbn [app]. rewrite <- app_assoc, firstn_skipn. reflexivity.
      * rewrite length_app, length_firstn, HA1. subst n. lia.
      * lia.
      * rewrite Hh1. symmetry. apply (block_app k1). exact HA1.
      * exact Hlen.
    + apply Nat.ltb_ge in E3.
      assert (Hnil : skipn n p1 = []) by (destruct (skipn n p1); [reflexivity | cbn in E3; lia]).
      repeat split.
      * rewrite HD1. cbn [app]. rewrite app_nil_r.
        rewrite <- (firstn_skipn n p1) at 1. rewrite Hnil, app_nil_r. reflexivity.
      * rewrite length_app, length_firstn, HA1. subst n. lia.
      * cbn. unfold chunk. lia.
      * rewrite Hh1. symmetry. apply (block_app k1). exact HA1.
      * exact Hlen.
  - apply Nat.leb_gt in E2. cbn [x h dlen].
    destruct (0 <? length p1)%nat eqn:E3.
    + assert (x1 = []) as -> by (destruct Hor as [? | ->]; [assumption | discriminate]).
      exists A1, k1. cbn [x h dlen]. repeat split; assumption.
    + apply Nat.ltb_ge in E3.
      assert (p1 = []) as -> by (destruct p1; [reflexivity | cbn in E3; lia]).
      exists A1, k1. cbn [x h dlen]. rewrite app_nil_r in HD1. repeat split; assumption.
Qed.

(** When a whole number of chunks was written, nothing is buffered. *)
Lemma absorbed_whole (d : digest) (D : bytes) (k : nat) :
  absorbed d D -> length D = (k * chunk)%nat -> h d = block init D.
Proof.
  intros (A & k' & HD & HA & Hx & Hh & _) Hk.
  assert (Hx0 : x d = []).
  { apply (f_equal (@length ascii)) in HD. rewrite length_app, HA, Hk in HD.
    unfold chunk in *. destruct (x d); [reflexivity | cbn in *; lia]. }
  rewrite Hx0, app_nil_r in HD. subst A. exact Hh.
Qed.

Lemma length_be64 v : length (be64 v) = 8%nat.
Proof. reflexivity. Qed.

(** The padding that [checkSum] writes is the padding of the standard. *)
Lemma checkSum_pad (n : Z) : 0 <= n ->
  let l := u64 n in
  let t := if l mod 64 <? 56 then 56 - l mod 64 else 64 + 56 - l mod 64 in
  "128"%char :: repeat "000"%char (Z.to_nat t - 1) ++ be64 (u64 (Z.shiftl l 3)) = pad n.
Proof.
  intros Hn l t. unfold pad.
  assert (Hl64 : l mod 64 = n mod 64).
  { subst l. unfold u64. change (2 ^ 64) with 18446744073709551616. dlia. }
  assert (Ht : (Z.to_nat t - 1)%nat = Z.to_nat ((55 - n) mod 64)).
  { subst t. rewrite Hl64.
    destruct (n mod 64 <? 56) eqn:E; [apply Z.ltb_lt in E | apply Z.ltb_ge in E]; dlia. }
  rewrite Ht. do 3 f_equal.
  subst l. unfold u64. rewrite Z.shiftl_mul_pow2 by lia.
  change (2 ^ 3) with 8. change (2 ^ 64) with 18446744073709551616. dlia.
Qed.

Lemma length_pad (n : Z) : 0 <= n ->
  exists k : nat, (Z.to_nat n + length (pad n) = k * chunk)%nat.
Proof.
  intros Hn. unfold pad. cbn [length]. rewrite length_app, repeat_length, length_be64.
  exists (Z.to_nat (1 - (55 - n) / 64)). unfold chunk. dlia.
Qed.

(** A digest that has absorbed [D] sums to the hash of [D]. *)
Theorem Sum_absorbed (d : digest) (D : bytes) :
  absorbed d D -> dlen d = u64 (len D) -> Sum d [] = Sum256 D.
Proof.
  intros Hd Hl. unfold Sum, Sum256, checkSum. cbn [app]. f_equal.
  rewrite Hl. rewrite (checkSum_pad (len D)) by (unfold len; lia).
  destruct (length_pad (len D) ltac:(unfold len; lia)) as [k Hk].
  apply (absorbed_whole _ _ k).
  - apply Write_absorbed, Hd.
  - rewrite length_app. unfold len in Hk. rewrite Nat2Z.id in Hk. exact Hk.
Qed.

Lemma absorbed_dlen d D : absorbed d D -> dlen d = u64 (len D).
Proof. intros (A & k & _ & _ & _ & _ & H). exact H. Qed.

(** Two writes are one write of the concatenation. *)
Lemma Sum_Write (p : bytes) : Sum (Write New p) [] = Sum256 p.
Proof.
  assert (H : absorbed (Write New p) ([] ++ p)) by apply Write_absorbed, absorbed_New.
  apply Sum_absorbed; [exact H | exact (absorbed_dlen _ _ H)].
Qed.

Lemma Sum_Write_Write (p q : bytes) : Sum (Write (Write New p) q) [] = Sum256 (p ++ q).
Proof.
  assert (H : absorbed (Write (Write New p) q) (([] ++ p) ++ q))
    by apply Write_absorbed, Write_absorbed, absorbed_New.
  apply Sum_absorbed; [exact H | exact (absorbed_dlen _ _ H)].
Qed.

Lemma Sum_Write_Write_Write (p q r : bytes) :
  Sum (Write (Write (Write New p) q) r) [] = Sum256 (p ++ q ++ r).
Proof.
  assert (H : absorbed (Write (Write (Write New p) q) r) ((([] ++ p) ++ q) ++ r))
    by apply Write_absorbed, Write_absorbed, Write_absorbed, absorbed_New.
  cbn [app] in H. rewrite <- app_assoc in H.
  apply Sum_absorbed; [exact H | exact (absorbed_dlen _ _ H)].
Qed.

Lemma length_Sum256 (p : bytes) : length (Sum256 p) = 32%nat.
Proof.
  unfold Sum256. destruct (block init (p ++ pad (len p))) as [[[[[[[? ?] ?] ?] ?] ?] ?] ?].
  reflexivity.
Qed.
End sha256_facts.

(** ** HMAC: the keyed hash object computes HMAC-SHA256 *)

Lemma hmac_copy_key (key : bytes) :
  (length key <= 64)%nat ->
  hmac.copy_key (S := sha256.digest) key = key ++ repeat "000"%char (64 - length key).
Proof.
  intros H. unfold hmac.copy_key. cbn [hash_BlockSize sha256_Hash].
  unfold sha256.BlockSize. rewrite firstn_all2 by exact H. reflexivity.
Qed.

Lemma hmac_Sum_Write_Write (key p q : bytes) :
  hmac.Sum (hmac.Write (hmac.Write (hmac.New (S := sha256.digest) key) p) q) []
  = HMAC_SHA256 key (p ++ q).
Proof.
  unfold hmac.Sum, hmac.Write, hmac.New, HMAC_SHA256.
  cbn [hmac.inner hmac.opad hmac.ipad hmac.outer hash_New hash_Write hash_Sum
       hash_BlockSize sha256_Hash].
  unfold sha256.BlockSize.
  rewrite sha256_facts.Sum_Write.
  set (k0 := if (64 <? length key)%nat then sha256.Sum256 key else key).
  assert (Hk0 : (length k0 <= 64)%nat).
  { subst k0. destruct (64 <? length key)%nat eqn:E.
    - rewrite sha256_facts.length_Sum256. lia.
    - apply Nat.ltb_ge in E. exact E. }
  rewrite (hmac_copy_key k0 Hk0).
  rewrite sha256_facts.Sum_Write_Write_Write, sha256_facts.Sum_Write_Write.
  reflexivity.
Qed.

(** ** A comparison in constant time is an equality test *)

Lemma byte_val_inj (a b : ascii) : byte_val a = byte_val b -> a = b.
Proof.
  unfold byte_val. intros H. apply N2Z.inj in H.
  rewrite <- (ascii_N_embedding a), <- (ascii_N_embedding b), H. reflexivity.
Qed.

Lemma byte_val_range (a : ascii) : 0 <= byte_val a < 256.
Proof.
  unfold byte_val. pose proof (N_ascii_bounded a). lia.
Qed.

Lemma byte_of_val (a : ascii) : byte_of (byte_val a) = a.
Proof.
  unfold byte_of, byte_val. pose proof (N_ascii_bounded a).
  rewrite Z.mod_small by lia. rewrite N2Z.id. apply ascii_N_embedding.
Qed.

Lemma byte_val_of (z : Z) : 0 <= z < 256 -> byte_val (byte_of z) = z.
Proof.
  intros H. unfold byte_of, byte_val. rewrite Z.mod_small by lia.
  rewrite N_ascii_embedding by lia. lia.
Qed.

Lemma xor_fold_0 (x y : bytes) : forall v : Z,
  0 <= v -> length x = length y ->
  (subtle.xor_fold v x y = 0 <-> v = 0 /\ x = y).
Proof.
  revert y. induction x as [|a x IH]; intros [|b y] v Hv Hlen; try discriminate; cbn.
  - intuition.
  - pose proof (byte_val_range a). pose proof (byte_val_range b).
    assert (Hx : 0 <= Z.lxor (byte_val a) (byte_val b)) by (apply Z.lxor_nonneg; lia).
    rewrite IH; [| apply Z.lor_nonneg; lia | cbn in Hlen; lia].
    rewrite Z.lor_eq_0_iff, Z.lxor_eq_0_iff. split.
    + intros [[-> Hab] ->]. apply byte_val_inj in Hab. subst. auto.
    + intros [-> Heq]. injection Heq as -> ->. auto.
Qed.

Lemma ConstantTimeCompare_spec (x y : bytes) :
  subtle.ConstantTimeCompare x y = 1 <-> x = y.
Proof.
  unfold subtle.ConstantTimeCompare.
  destruct (length x =? length y)%nat eqn:E; cbn [negb].
  - apply Nat.eqb_eq in E.
    destruct (subtle.xor_fold 0 x y =? 0) eqn:F.
    + apply Z.eqb_eq in F. apply xor_fold_0 in F; [| lia | exact E]. tauto.
    + apply Z.eqb_neq in F. split; [discriminate |].
      intros ->. exfalso. apply F. apply xor_fold_0; auto. lia.
  - apply Nat.eqb_neq in E. split; [discriminate |]. intros ->. congruence.
Qed.

Lemma ConstantTimeCompare_refl (x : bytes) : subtle.ConstantTimeCompare x x = 1.
Proof. apply ConstantTimeCompare_spec. reflexivity. Qed.

(** ** Verify *)

Lemma neg64_opp (d : Z) : time.minInt64 < d <= time.maxInt64 -> time.neg64 d = - d.
Proof.
  unfold time.neg64, time.wrap64, time.minInt64, time.maxInt64.
  change (2 ^ 63) with 9223372036854775808.
  change (2 ^ 64) with 18446744073709551616. intros H. dlia.
Qed.

(** With a valid signature, [Verify] is the test of the window. *)
Lemma Verify_valid_sig (now : time.Time) (t : BearerToken) (secret body : bytes) (w : Z) :
  time.minInt64 < w <= time.maxInt64 ->
  Signature t = sign t secret body ->
  Verify now t secret body w =
    if (time.ns now - w <=? time.ns (Timestamp t)) && (time.ns (Timestamp t) <=? time.ns now + w)
    then None else Some ErrIllegalTimestamp.
Proof.
  intros Hw Hsig. unfold Verify.
  rewrite <- Hsig, ConstantTimeCompare_refl. cbn [Z.eqb Pos.eqb negb].
  rewrite (neg64_opp w Hw).
  unfold time.Before, time.After, time.Add, time.UTC. cbn [time.ns].
  destruct (time.ns (Timestamp t) <? time.ns now + - w) eqn:E1;
    destruct (time.ns now + w <? time.ns (Timestamp t)) eqn:E2;
    destruct (time.ns now - w <=? time.ns (Timestamp t)) eqn:E3;
    destruct (time.ns (Timestamp t) <=? time.ns now + w) eqn:E4;
    try reflexivity; exfalso; lia.
Qed.

(** With another signature, [Verify] fails on the signature. *)
Lemma Verify_bad_sig (now : time.Time) (t : BearerToken) (secret body : bytes) (w : Z) :
  Signature t <> sign t secret body ->
  Verify now t secret body w = Some ErrIllegalSignature.
Proof.
  intros Hsig. unfold Verify.
  destruct (subtle.ConstantTimeCompare (Signature t) (sign t secret body) =? 1) eqn:E.
  - apply Z.eqb_eq, ConstantTimeCompare_spec in E. contradiction.
  - reflexivity.
Qed.

(** The signature depends on the timestamp only. *)
Lemma sign_Timestamp (t t' : BearerToken) (secret body : bytes) :
  Timestamp t = Timestamp t' -> sign t secret body = sign t' secret body.
Proof. unfold sign. intros ->. reflexivity. Qed.

Lemma Sign_Signature (t : BearerToken) (secret body : bytes) :
  Signature (fst (Sign t secret body)) = sign (fst (Sign t secret body)) secret body.
Proof.
  unfold Sign. cbn [fst Signature]. apply sign_Timestamp. reflexivity.
Qed.

(** ** encoding/hex and uuid: decoding inverts encoding *)

Lemma xtob_digit (a : ascii) :
  uuid.xtob (hex.digit (Z.shiftr (byte_val a) 4)) (hex.digit (Z.land (byte_val a) 0x0f)) = Some a.
Proof. each_byte a; reflexivity. Qed.

Lemma hex_Decode_cons (a : ascii) (r : bytes) :
  hex.DecodeString (hex.digit (Z.shiftr (byte_val a) 4)
                      :: hex.digit (Z.land (byte_val a) 0x0f) :: r)
  = match hex.DecodeString r with Ok l => Ok (a :: l) | Err e => Err e end.
Proof. each_byte a; reflexivity. Qed.

Lemma hex_Decode_Encode (l : bytes) : hex.DecodeString (hex.EncodeToString l) = Ok l.
Proof.
  induction l as [|a l IH]; [reflexivity |].
  cbn [hex.EncodeToString]. rewrite hex_Decode_cons, IH. reflexivity.
Qed.

Lemma hex_Encode_length (l : bytes) : length (hex.EncodeToString l) = (2 * length l)%nat.
Proof. induction l as [|a l IH]; cbn [hex.EncodeToString length]; lia. Qed.

Lemma uuid_Parse_String (u : uuid.UUID) : uuid.Parse (uuid.String u) = Ok u.
Proof.
  destruct u as [a0 a1 a2 a3 a4 a5 a6 a7 a8 a9 a10 a11 a12 a13 a14 a15].
  unfold uuid.String, uuid.to_bytes.
  cbn [uuid.b0 uuid.b1 uuid.b2 uuid.b3 uuid.b4 uuid.b5 uuid.b6 uuid.b7 uuid.b8 uuid.b9
       uuid.b10 uuid.b11 uuid.b12 uuid.b13 uuid.b14 uuid.b15
       firstn skipn hex.EncodeToString app list_ascii_of_string].
  unfold uuid.Parse. cbn [length]. unfold uuid.parse36.
  change (negb (Ascii.eqb "-" "-" && Ascii.eqb "-" "-" && Ascii.eqb "-" "-" && Ascii.eqb "-" "-"))
    with false.
  cbv iota. unfold uuid.of_hex. cbn [uuid.xtobs].
  rewrite !xtob_digit. reflexivity.
Qed.

Lemma uuid_String_length (u : uuid.UUID) : length (uuid.String u) = 36%nat.
Proof. destruct u. reflexivity. Qed.

(** ** encoding/base64: decoding inverts encoding *)

(** Bits set below [2 ^ k] join a multiple of [2 ^ k] by addition. *)
Lemma lor_low (a b k : Z) : 0 <= k -> 0 <= b < 2 ^ k -> Z.lor (a * 2 ^ k) b = a * 2 ^ k + b.
Proof.
  intros Hk Hb.
  assert (Hland : Z.land (a * 2 ^ k) b = 0).
  { apply Z.bits_inj'. intros n Hn. rewrite Z.land_spec, Z.bits_0.
    destruct (Z.ltb_spec n k) as [Hlt | Hge].
    - rewrite Z.mul_pow2_bits_low by lia. reflexivity.
    - assert (Hbn : Z.testbit b n = false).
      { destruct (Z.eq_dec b 0) as [-> | Hb0]; [apply Z.bits_0 |].
        apply Z.bits_above_log2; [lia |].
        apply Z.log2_lt_pow2; [lia |].
        apply Z.lt_le_trans with (2 ^ k); [lia | apply Z.pow_le_mono_r; lia]. }
      rewrite Hbn. apply andb_false_r. }
  rewrite <- Z.lxor_lor by exact Hland. symmetry. apply Z.add_nocarry_lxor, Hland.
Qed.

Lemma byte_of_eq (z : Z) (a : ascii) : z mod 256 = byte_val a -> byte_of z = a.
Proof.
  intros H. unfold byte_of. rewrite H. unfold byte_val. rewrite N2Z.id.
  apply ascii_N_embedding.
Qed.

Lemma val24 (x y z : Z) : 0 <= x < 256 -> 0 <= y < 256 -> 0 <= z < 256 ->
  Z.lor (Z.lor (Z.shiftl x 16) (Z.shiftl y 8)) z = x * 65536 + y * 256 + z.
Proof.
  intros Hx Hy Hz. rewrite !Z.shiftl_mul_pow2 by lia.
  rewrite (lor_low x (y * 2 ^ 8) 16) by (change (2 ^ 8) with 256; change (2 ^ 16) with 65536; lia).
  replace (x * 2 ^ 16 + y * 2 ^ 8) with ((x * 256 + y) * 2 ^ 8) by lia.
  rewrite lor_low by (change (2 ^ 8) with 256; lia). lia.
Qed.

Lemma val16 (x y : Z) : 0 <= x < 256 -> 0 <= y < 256 ->
  Z.lor (Z.shiftl x 16) (Z.shiftl y 8) = x * 65536 + y * 256.
Proof.
  intros Hx Hy. rewrite !Z.shiftl_mul_pow2 by lia.
  rewrite (lor_low x (y * 2 ^ 8) 16) by (change (2 ^ 8) with 256; change (2 ^ 16) with 65536; lia).
  lia.
Qed.

Lemma val24_6 (v0 v1 v2 v3 : Z) :
  0 <= v0 < 64 -> 0 <= v1 < 64 -> 0 <= v2 < 64 -> 0 <= v3 < 64 ->
  Z.lor (Z.lor (Z.lor (Z.shiftl v0 18) (Z.shiftl v1 12)) (Z.shiftl v2 6)) v3
  = v0 * 262144 + v1 * 4096 + v2 * 64 + v3.
Proof.
  intros H0 H1 H2 H3. rewrite !Z.shiftl_mul_pow2 by lia.
  rewrite (lor_low v0 (v1 * 2 ^ 12) 18)
    by (change (2 ^ 12) with 4096; change (2 ^ 18) with 262144; lia).
  replace (v0 * 2 ^ 18 + v1 * 2 ^ 12) with ((v0 * 64 + v1) * 2 ^ 12) by lia.
  rewrite (lor_low _ (v2 * 2 ^ 6) 12)
    by (change (2 ^ 6) with 64; change (2 ^ 12) with 4096; lia).
  replace ((v0 * 64 + v1) * 2 ^ 12 + v2 * 2 ^ 6) with (((v0 * 64 + v1) * 64 + v2) * 2 ^ 6) by lia.
  rewrite lor_low by (change (2 ^ 6) with 64; lia). lia.
Qed.

(** The 6-bit value at bit [k] of [v]. *)
Lemma sextet (v k : Z) : 0 <= k -> Z.land (Z.shiftr v k) 0x3f = v / 2 ^ k mod 64.
Proof.
  intros Hk. rewrite Z.shiftr_div_pow2 by exact Hk.
  change 0x3f with (Z.ones 6). rewrite Z.land_ones by lia. reflexivity.
Qed.

Lemma sextet_range (v k : Z) : 0 <= v / 2 ^ k mod 64 < 64.
Proof. apply Z.mod_pos_bound. lia. Qed.

(** Every value below 64 has a digit, which is no padding and no line
    break and decodes to the value. *)
Lemma dec_enc (v : Z) : 0 <= v < 64 ->
  base64.dec (base64.enc v) = Some v /\ base64.isNewline (base64.enc v) = false.
Proof.
  intros H. rewrite <- (Z2Nat.id v) by lia.
  assert (Hn : (Z.to_nat v < 64)%nat) by lia.
  generalize dependent (Z.to_nat v). intros n Hn. clear H.
  do 64 (destruct n as [|n]; [split; reflexivity |]). lia.
Qed.

Lemma quantum_bytes (a b c : ascii) :
  let val := byte_val a * 65536 + byte_val b * 256 + byte_val c in
  base64.quantum (val / 2 ^ 18 mod 64) (val / 2 ^ 12 mod 64) (val / 2 ^ 6 mod 64)
    (val / 2 ^ 0 mod 64) = [a; b; c].
Proof.
  intros val. unfold base64.quantum.
  rewrite val24_6 by apply sextet_range.
  rewrite !Z.shiftr_div_pow2 by lia.
  pose proof (byte_val_range a). pose proof (byte_val_range b). pose proof (byte_val_range c).
  change (2 ^ 18) with 262144. change (2 ^ 12) with 4096. change (2 ^ 6) with 64.
  change (2 ^ 0) with 1. change (2 ^ 16) with 65536. change (2 ^ 8) with 256.
  f_equal; [| f_equal; [| f_equal]]; apply byte_of_eq; subst val; dlia.
Qed.

Lemma decode_Encode_3 (a b c : ascii) (r : bytes) :
  base64.decode (base64.EncodeToString (a :: b :: c :: r))
  = match base64.decode (base64.EncodeToString r) with
    | Ok l => Ok (a :: b :: c :: l)
    | Err e => Err e
    end.
Proof.
  cbn [base64.EncodeToString].
  pose proof (byte_val_range a). pose proof (byte_val_range b). pose proof (byte_val_range c).
  rewrite val24 by assumption.
  set (val := byte_val a * 65536 + byte_val b * 256 + byte_val c).
  replace (Z.land val 0x3f) with (Z.land (Z.shiftr val 0) 0x3f) by (rewrite Z.shiftr_0_r; reflexivity).
  rewrite !sextet by lia.
  cbn [base64.decode].
  rewrite !(proj1 (dec_enc _ (sextet_range _ _))).
  subst val. rewrite quantum_bytes. reflexivity.
Qed.

Lemma decode_Encode_2 (a b : ascii) :
  base64.decode (base64.EncodeToString [a; b]) = Ok [a; b].
Proof.
  cbn [base64.EncodeToString].
  pose proof (byte_val_range a). pose proof (byte_val_range b).
  rewrite val16 by assumption.
  set (val := byte_val a * 65536 + byte_val b * 256).
  rewrite !sextet by lia.
  cbn [base64.decode].
  rewrite !(proj1 (dec_enc _ (sextet_range _ _))).
  change (base64.dec base64.padChar) with (@None Z). cbv iota.
  change (Ascii.eqb base64.padChar base64.padChar && bool_decide (@nil ascii = [])) with true.
  cbv iota. unfold base64.quantum.
  rewrite val24_6 by (try apply sextet_range; lia).
  rewrite !Z.shiftr_div_pow2 by lia.
  change (2 ^ 18) with 262144. change (2 ^ 12) with 4096. change (2 ^ 6) with 64.
  change (2 ^ 16) with 65536. change (2 ^ 8) with 256.
  cbn [firstn]. f_equal. f_equal; [| f_equal]; apply byte_of_eq; subst val; dlia.
Qed.

Lemma decode_Encode_1 (a : ascii) :
  base64.decode (base64.EncodeToString [a]) = Ok [a].
Proof. each_byte a; reflexivity. Qed.

(** Induction on a list three elements at a time. *)
Lemma list_ind3 {A} (P : list A -> Prop) :
  P [] -> (forall a, P [a]) -> (forall a b, P [a; b]) ->
  (forall a b c r, P r -> P (a :: b :: c :: r)) ->
  forall l, P l.
Proof.
  intros H0 H1 H2 H3.
  fix IH 1. intros [|a [|b [|c r]]].
  - exact H0.
  - apply H1.
  - apply H2.
  - apply H3, IH.
Qed.

Lemma decode_Encode (l : bytes) : base64.decode (base64.EncodeToString l) = Ok l.
Proof.
  induction l as [| a | a b | a b c r IH] using list_ind3.
  - reflexivity.
  - apply decode_Encode_1.
  - apply decode_Encode_2.
  - rewrite decode_Encode_3, IH. reflexivity.
Qed.

Lemma Encode_no_newline (l : bytes) :
  List.filter (fun c => negb (base64.isNewline c)) (base64.EncodeToString l)
  = base64.EncodeToString l.
Proof.
  induction l as [| a | a b | a b c r IH] using list_ind3.
  - reflexivity.
  - each_byte a; reflexivity.
  - cbn [base64.EncodeToString].
    rewrite !sextet by lia.
    cbn [List.filter].
    rewrite !(proj2 (dec_enc _ (sextet_range _ _))). reflexivity.
  - cbn [base64.EncodeToString].
    replace (Z.land (Z.lor (Z.lor (Z.shiftl (byte_val a) 16) (Z.shiftl (byte_val b) 8)) (byte_val c)) 0x3f)
      with (Z.land (Z.shiftr (Z.lor (Z.lor (Z.shiftl (byte_val a) 16) (Z.shiftl (byte_val b) 8)) (byte_val c)) 0) 0x3f)
      by (rewrite Z.shiftr_0_r; reflexivity).
    rewrite !sextet by lia.
    cbn [List.filter].
    rewrite !(proj2 (dec_enc _ (sextet_range _ _))). cbn [negb].
    rewrite IH. reflexivity.
Qed.

Theorem base64_Decode_Encode (l : bytes) :
  base64.DecodeString (base64.EncodeToString l) = Ok l.
Proof.
  unfold base64.DecodeString. rewrite Encode_no_newline. apply decode_Encode.
Qed.

(** The length of the encoding: four bytes for every three, rounded up. *)
Lemma base64_Encode_length (l : bytes) :
  len (base64.EncodeToString l) = 4 * ((len l + 2) / 3).
Proof.
  unfold len.
  induction l as [| a | a b | a b c r IH] using list_ind3; try reflexivity.
  cbn [base64.EncodeToString length].
  rewrite !Nat2Z.inj_succ, IH. dlia.
Qed.

(** Decoding does not lengthen. *)
Lemma decode_length : forall (n : nat) (s l : bytes),
  (length s <= n)%nat -> base64.decode s = Ok l -> (length l <= length s)%nat.
Proof.
  induction n as [|n IH]; intros s l Hn H.
  - destruct s; [| cbn in Hn; lia]. injection H as <-. cbn. lia.
  - destruct s as [|c0 [|c1 [|c2 [|c3 r]]]]; try discriminate.
    + injection H as <-. cbn. lia.
    + cbn [base64.decode] in H.
      destruct (base64.dec c0); [| discriminate].
      destruct (base64.dec c1); [| discriminate].
      destruct (base64.dec c2).
      * destruct (base64.dec c3).
        -- destruct (base64.decode r) as [l' |] eqn:E; [| discriminate].
           injection H as <-. apply IH in E; [| cbn in Hn; lia].
           cbn. lia.
        -- destruct (Ascii.eqb c3 base64.padChar && bool_decide (r = [])); [| discriminate].
           injection H as <-. cbn. lia.
      * destruct (Ascii.eqb c2 base64.padChar && Ascii.eqb c3 base64.padChar && bool_decide (r = []));
          [| discriminate].
        injection H as <-. cbn. lia.
Qed.

Lemma filter_length_le {A} (f : A -> bool) (l : list A) :
  (length (List.filter f l) <= length l)%nat.
Proof.
  induction l as [|a l IH]; cbn; [lia |]. destruct (f a); cbn; lia.
Qed.

Lemma base64_Decode_length (s l : bytes) :
  base64.DecodeString s = Ok l -> len l <= len s.
Proof.
  unfold base64.DecodeString. intros H.
  apply (decode_length _ _ _ (le_n _)) in H.
  unfold len.
  pose proof (filter_length_le (fun c => negb (base64.isNewline c)) s). lia.
Qed.

(** ** encoding/json: decoding inverts marshalling on plain strings *)

Lemma encode_body_safe (c : ascii) (r : bytes) :
  json.htmlSafe c = true -> json.encode_body (c :: r) 0 = c :: json.encode_body r 0.
Proof. each_byte c; intros H; try discriminate H; reflexivity. Qed.

Lemma encode_body_plain (s : bytes) : plain s -> json.encode_body s 0 = s.
Proof.
  induction 1 as [| c r Hc _ IH]; [reflexivity |].
  rewrite encode_body_safe, IH by exact Hc. reflexivity.
Qed.

Lemma encode_string_plain (s : bytes) : plain s -> json.encode_string s = quote :: s ++ [quote].
Proof.
  intros H. unfold json.encode_string. rewrite encode_body_plain by exact H. reflexivity.
Qed.

Lemma unquote_safe (c : ascii) (r : bytes) :
  json.htmlSafe c = true -> json.unquote (c :: r) 0 = json.prepend [c] (json.unquote r 0).
Proof. each_byte c; intros H; try discriminate H; reflexivity. Qed.

Lemma unquote_plain (s rest : bytes) :
  plain s -> json.unquote (s ++ quote :: rest) 0 = Some (s, rest).
Proof.
  induction 1 as [| c r Hc _ IH]; [reflexivity |].
  cbn [app]. rewrite unquote_safe, IH by exact Hc. reflexivity.
Qed.

(** A string value. *)
Lemma parse_value_string (fuel : nat) (depth : Z) (s rest : bytes) :
  plain s ->
  json.parse_value (S fuel) depth (quote :: s ++ quote :: rest) = Some (json.Str s, rest).
Proof.
  intros H. cbn [json.parse_value json.skip_ws].
  change (json.isSpace quote) with false. cbv iota.
  change (Ascii.eqb quote "{") with false. change (Ascii.eqb quote "[") with false.
  change (Ascii.eqb quote quote) with true. cbv iota.
  rewrite unquote_plain by exact H. reflexivity.
Qed.

(** A member with a string value, the last one and one before a comma. *)
Lemma parse_members_last (fuel : nat) (depth : Z) (key s rest : bytes) :
  plain key -> plain s ->
  json.parse_members (S (S fuel)) depth
    (quote :: key ++ quote :: ":"%char :: quote :: s ++ quote :: "}"%char :: rest)
  = Some ([(key, json.Str s)], rest).
Proof.
  intros Hk Hs.
  remember (S fuel) as f eqn:Hf.
  cbn [json.parse_members].
  change (negb (Ascii.eqb quote quote)) with false. cbv iota.
  rewrite unquote_plain by exact Hk.
  cbn [json.skip_ws]. change (json.isSpace ":") with false. cbv iota.
  change (negb (Ascii.eqb ":" ":")) with false. cbv iota.
  rewrite Hf at 1. rewrite parse_value_string by exact Hs.
  reflexivity.
Qed.

Lemma parse_members_more (fuel : nat) (depth : Z) (key s rest : bytes) :
  plain key -> plain s ->
  json.parse_members (S (S fuel)) depth
    (quote :: key ++ quote :: ":"%char :: quote :: s ++ quote :: ","%char :: rest)
  = match json.parse_members (S fuel) depth (json.skip_ws rest) with
    | Some (ms, rest') => Some ((key, json.Str s) :: ms, rest')
    | None => None
    end.
Proof.
  intros Hk Hs.
  remember (S fuel) as f eqn:Hf.
  cbn [json.parse_members].
  change (negb (Ascii.eqb quote quote)) with false. cbv iota.
  rewrite unquote_plain by exact Hk.
  cbn [json.skip_ws]. change (json.isSpace ":") with false. cbv iota.
  change (negb (Ascii.eqb ":" ":")) with false. cbv iota.
  rewrite Hf at 1. rewrite parse_value_string by exact Hs.
  reflexivity.
Qed.

Lemma plain_literal (s : bytes) : forallb json.htmlSafe s = true -> plain s.
Proof. intros H. apply List.Forall_forall. apply List.forallb_forall. exact H. Qed.

Lemma member_app (key s rest : bytes) :
  member key s ++ rest = quote :: key ++ quote :: ":"%char :: quote :: s ++ quote :: rest.
Proof.
  unfold member. cbn [app]. rewrite <- !app_assoc. cbn [app]. rewrite <- !app_assoc.
  reflexivity.
Qed.

Lemma Marshal_members (t : tokenJSON) :
  plain (tj_APIKeyID t) -> plain (tj_Timestamp t) ->
  plain (tj_SigningAlgo t) -> plain (tj_Signature t) ->
  json.Marshal t =
    Ok ("{"%char :: member (B "apiKeyID") (tj_APIKeyID t) ++
        ","%char :: member (B "timestamp") (tj_Timestamp t) ++
        ","%char :: member (B "algo") (tj_SigningAlgo t) ++
        ","%char :: member (B "signature") (tj_Signature t) ++ ["}"%char]).
Proof.
  intros H1 H2 H3 H4. unfold json.Marshal.
  rewrite !encode_string_plain by (assumption || (apply plain_literal; reflexivity)).
  rewrite !member_app. cbn [app list_ascii_of_string].
  repeat (rewrite <- !app_assoc; cbn [app]). reflexivity.
Qed.

Lemma parse_value_object (fuel : nat) (depth : Z) (r : bytes) :
  depth < json.maxNestingDepth ->
  json.parse_value (S fuel) depth ("{"%char :: quote :: r)
  = match json.parse_members fuel (depth + 1) (quote :: r) with
    | Some (ms, rest) => Some (json.Object ms, rest)
    | None => None
    end.
Proof.
  intros Hd. cbn [json.parse_value json.skip_ws].
  change (json.isSpace "{") with false. cbv iota.
  change (Ascii.eqb "{" "{") with true. cbv iota.
  destruct (Z.ltb_spec json.maxNestingDepth (depth + 1)) as [Hlt | _]; [lia |].
  change (json.isSpace quote) with false. cbv iota.
  change (Ascii.eqb quote "}") with false. cbv iota.
  reflexivity.
Qed.

Lemma skip_ws_member (key s rest : bytes) :
  json.skip_ws (member key s ++ rest) = member key s ++ rest.
Proof. reflexivity. Qed.

Theorem json_Decode_Marshal (t : tokenJSON) :
  plain (tj_APIKeyID t) -> plain (tj_Timestamp t) ->
  plain (tj_SigningAlgo t) -> plain (tj_Signature t) ->
  exists buf, json.Marshal t = Ok buf /\ json.Decode buf = Ok t.
Proof.
  intros H1 H2 H3 H4. eexists. split; [apply Marshal_members; assumption |].
  unfold json.Decode.
  match goal with |- context [json.parse_value (S (length ?b)) 0 ?b] => set (buf := b) end.
  assert (Hfuel : exists n, length buf = S (S (S (S (S (S n)))))).
  { subst buf. unfold member. cbn [length app]. eexists. reflexivity. }
  destruct Hfuel as [n Hn]. rewrite Hn. subst buf.
  assert (Hk1 : plain (B "apiKeyID")) by (apply plain_literal; reflexivity).
  assert (Hk2 : plain (B "timestamp")) by (apply plain_literal; reflexivity).
  assert (Hk3 : plain (B "algo")) by (apply plain_literal; reflexivity).
  assert (Hk4 : plain (B "signature")) by (apply plain_literal; reflexivity).
  cbn [json.skip_ws]. change (json.isSpace "{") with false. cbv iota.
  rewrite member_app at 1. rewrite parse_value_object by (unfold json.maxNestingDepth; lia).
  rewrite <- member_app.
  rewrite (member_app (B "apiKeyID")), parse_members_more by assumption.
  rewrite skip_ws_member.
  rewrite (member_app (B "timestamp")), parse_members_more by assumption.
  rewrite skip_ws_member.
  rewrite (member_app (B "algo")), parse_members_more by assumption.
  rewrite skip_ws_member.
  rewrite (member_app (B "signature")), parse_members_last by assumption.
  destruct t. reflexivity.
Qed.

(** The length of what [Marshal] writes. *)
Lemma Marshal_length (t : tokenJSON) (buf : bytes) :
  plain (tj_APIKeyID t) -> plain (tj_Timestamp t) ->
  plain (tj_SigningAlgo t) -> plain (tj_Signature t) ->
  json.Marshal t = Ok buf ->
  len buf = 55 + len (tj_APIKeyID t) + len (tj_Timestamp t)
            + len (tj_SigningAlgo t) + len (tj_Signature t).
Proof.
  intros H1 H2 H3 H4. rewrite Marshal_members by assumption. intros [= <-].
  unfold len, member. cbn [length app list_ascii_of_string].
  repeat (rewrite ?length_app; cbn [length]). lia.
Qed.

(** ** time: parsing inverts formatting *)

Lemma all_from_spec (f : Z -> bool) (n : nat) : forall z : Z,
  all_from n z f = true -> forall k, z <= k < z + Z.of_nat n -> f k = true.
Proof.
  induction n as [|n IH]; intros z H k Hk; [lia |].
  cbn [all_from] in H. apply andb_prop in H as [Hz Hrest].
  destruct (Z.eq_dec k z) as [-> | Hne]; [exact Hz |].
  apply (IH (z + 1) Hrest). lia.
Qed.

Lemma civil_cycle : all_from (Z.to_nat 146097) 0 civil_ok = true.
Proof. vm_cast_no_check (eq_refl true). Qed.

Lemma isLeap_shift (y k : Z) : time.isLeap (y + 400 * k) = time.isLeap y.
Proof.
  unfold time.isLeap.
  replace ((y + 400 * k) mod 4) with (y mod 4) by dlia.
  replace ((y + 400 * k) mod 100) with (y mod 100) by dlia.
  replace ((y + 400 * k) mod 400) with (y mod 400) by dlia.
  reflexivity.
Qed.

Lemma daysIn_shift (m y k : Z) : time.daysIn m (y + 400 * k) = time.daysIn m y.
Proof. unfold time.daysIn. rewrite isLeap_shift. reflexivity. Qed.

Lemma daysSinceEpoch_shift (y m d k : Z) :
  time.daysSinceEpoch (y + 400 * k) m d = time.daysSinceEpoch y m d + 146097 * k.
Proof.
  unfold time.daysSinceEpoch.
  set (c := if m <=? 2 then 1 else 0).
  replace ((y + 400 * k - c) / 400) with ((y - c) / 400 + k) by dlia.
  replace ((y + 400 * k - c) mod 400) with ((y - c) mod 400) by dlia.
  lia.
Qed.

Lemma civil_shift (days : Z) :
  let z := days + 719468 in
  time.civil days =
    let '(y, m, d) := time.civil (z mod 146097 - 719468) in (y + 400 * (z / 146097), m, d).
Proof.
  intros z. unfold time.civil. fold z.
  replace (z mod 146097 - 719468 + 719468) with (z mod 146097) by lia.
  rewrite Z.mod_mod by lia.
  replace (z mod 146097 / 146097) with 0 by dlia.
  cbv zeta. f_equal. f_equal. lia.
Qed.

(** The date of a day is a date of the calendar, and the day of that date. *)
Theorem civil_spec (days y m d : Z) :
  time.civil days = (y, m, d) ->
  1 <= m <= 12 /\ 1 <= d <= time.daysIn m y /\ time.daysSinceEpoch y m d = days.
Proof.
  pose proof (civil_shift days) as Hs. cbv zeta in Hs. rewrite Hs. clear Hs.
  set (z := days + 719468).
  assert (Hdoe : 0 <= z mod 146097 < 0 + Z.of_nat (Z.to_nat 146097)).
  { rewrite Z2Nat.id by lia. dlia. }
  pose proof (all_from_spec civil_ok _ 0 civil_cycle _ Hdoe) as Hok.
  unfold civil_ok in Hok.
  destruct (time.civil (z mod 146097 - 719468)) as [[y0 m0] d0].
  intros [= <- <- <-].
  rewrite !andb_true_iff in Hok.
  destruct Hok as [[[[[[H1 H2] H3] H4] H5] H6] H7].
  rewrite daysIn_shift, daysSinceEpoch_shift.
  apply Z.eqb_eq in H7. subst z. dlia.
Qed.

Lemma digit_val (d : Z) : 0 <= d <= 9 -> byte_val (time.digit d) = 48 + d.
Proof. intros H. unfold time.digit. apply byte_val_of. lia. Qed.

Lemma isDigit_digit (d : Z) : 0 <= d <= 9 -> time.isDigit (time.digit d) = true.
Proof.
  intros H. unfold time.isDigit. rewrite digit_val by exact H.
  apply andb_true_iff. split; apply Z.leb_le; lia.
Qed.

Lemma appendInt_2 (v : Z) : 0 <= v < 100 ->
  time.appendInt v 2 = [time.digit (v / 10); time.digit (v mod 10)].
Proof.
  intros H. unfold time.appendInt.
  destruct (Z.ltb_spec v 0); [lia |].
  rewrite Z.abs_eq by lia.
  destruct (Z.ltb_spec v 100); [| lia]. reflexivity.
Qed.

Lemma appendInt_4 (v : Z) : 0 <= v < 10000 ->
  time.appendInt v 4 =
    [time.digit (v / 1000); time.digit (v / 100 mod 10); time.digit (v / 10 mod 10);
     time.digit (v mod 10)].
Proof.
  intros H. unfold time.appendInt.
  destruct (Z.ltb_spec v 0); [lia |].
  rewrite Z.abs_eq by lia.
  destruct (Z.ltb_spec v 10000); [| lia]. reflexivity.
Qed.

Lemma atoi_digit (d : Z) (r : bytes) (acc : Z) : 0 <= d <= 9 ->
  time.atoi (time.digit d :: r) acc = time.atoi r (acc * 10 + d).
Proof.
  intros H. cbn [time.atoi]. rewrite isDigit_digit, digit_val by exact H.
  f_equal. lia.
Qed.

Lemma parseUint_2 (v lo hi : Z) : 0 <= v < 100 -> lo <= v <= hi ->
  time.parseUint [time.digit (v / 10); time.digit (v mod 10)] lo hi = Some v.
Proof.
  intros Hv Hr. unfold time.parseUint.
  rewrite !atoi_digit by dlia. cbn [time.atoi].
  replace ((0 * 10 + v / 10) * 10 + v mod 10) with v by dlia.
  destruct (Z.leb_spec lo v); [| lia]. destruct (Z.leb_spec v hi); [| lia]. reflexivity.
Qed.

Lemma parseUint_4 (v lo hi : Z) : 0 <= v < 10000 -> lo <= v <= hi ->
  time.parseUint [time.digit (v / 1000); time.digit (v / 100 mod 10);
                  time.digit (v / 10 mod 10); time.digit (v mod 10)] lo hi = Some v.
Proof.
  intros Hv Hr. unfold time.parseUint.
  rewrite !atoi_digit by dlia. cbn [time.atoi].
  replace ((((0 * 10 + v / 1000) * 10 + v / 100 mod 10) * 10 + v / 10 mod 10) * 10 + v mod 10)
    with v by dlia.
  destruct (Z.leb_spec lo v); [| lia]. destruct (Z.leb_spec v hi); [| lia]. reflexivity.
Qed.

Lemma Format_clock_text (t : time.Time) :
  let abs := time.ns t / 1000000000 + time.off t in
  time.FormatRFC3339 t =
    (let '(year, month, day) := time.civil (abs / 86400) in
     clock_text year month day (abs mod 86400)) ++
    (if time.off t =? 0 then B "Z"
     else
       let zone := Z.quot (time.off t) 60 in
       (if zone <? 0 then B "-" else B "+") ++
       time.appendInt (Z.abs zone / 60) 2 ++ B ":" ++ time.appendInt (Z.abs zone mod 60) 2).
Proof.
  intros abs. unfold time.FormatRFC3339, clock_text. fold abs.
  destruct (time.civil (abs / 86400)) as [[y m] d].
  rewrite <- !app_assoc. reflexivity.
Qed.

(** What [Parse] makes of a date and a clock in range, before the zone. *)
Lemma Parse_clock_text (y m d clock : Z) (zone : bytes) :
  0 <= y <= 9999 -> 1 <= m <= 12 -> 1 <= d <= time.daysIn m y -> 0 <= clock < 86400 ->
  (forall c r, zone = c :: r -> Ascii.eqb c "." = false) ->
  time.ParseRFC3339 (clock_text y m d clock ++ zone) =
    let t := time.Date y m d (clock / 3600) (clock mod 3600 / 60) (clock mod 60) 0 in
    match zone with
    | [z] => if time.eqb_byte z "Z" then Some t else None
    | [sg; a1; a2; c6; b1; b2] =>
        match time.parseUint [a1; a2] 0 23 with None => None | Some hr =>
        match time.parseUint [b1; b2] 0 59 with None => None | Some mm =>
        if negb ((time.eqb_byte sg "-" || time.eqb_byte sg "+") && time.eqb_byte c6 ":")
        then None else
        let zoneOffset := (hr * 60 + mm) * 60 in
        let zoneOffset := if time.eqb_byte sg "-" then - zoneOffset else zoneOffset in
        Some {| time.ns := time.ns t - zoneOffset * 1000000000; time.off := zoneOffset |}
        end end
    | _ => None
    end.
Proof.
  intros Hy Hm Hd Hc Hz.
  assert (Hd31 : time.daysIn m y <= 31).
  { unfold time.daysIn. destruct ((m =? 2) && time.isLeap y); [lia |].
    generalize (Z.to_nat (m - 1)). intros k.
    do 12 (destruct k as [|k]; [cbn; lia |]). destruct k; cbn; lia. }
  unfold clock_text.
  rewrite (appendInt_4 y), !appendInt_2 by dlia.
  cbn [app list_ascii_of_string]. unfold time.ParseRFC3339.
  rewrite (parseUint_4 y) by lia.
  rewrite (parseUint_2 m) by lia.
  rewrite (parseUint_2 d) by lia.
  rewrite (parseUint_2 (clock / 3600)) by dlia.
  rewrite (parseUint_2 (clock mod 3600 / 60)) by dlia.
  rewrite (parseUint_2 (clock mod 60)) by dlia.
  change (negb (time.eqb_byte "-" "-" && time.eqb_byte "-" "-" && time.eqb_byte "T" "T"
                && time.eqb_byte ":" ":" && time.eqb_byte ":" ":")) with false.
  cbv iota beta.
  destruct zone as [|p [|f rest']].
  - reflexivity.
  - reflexivity.
  - unfold time.eqb_byte at 1. rewrite (Hz p (f :: rest') eq_refl). cbn [andb]. reflexivity.
Qed.

(** A time of whole seconds, with a year of four digits and a zone offset
    of whole minutes below a day, is parsed back from its text. *)
Theorem Parse_Format (t : time.Time) :
  time.ns t mod 1000000000 = 0 ->
  time.off t mod 60 = 0 -> -86400 < time.off t < 86400 ->
  0 <= time.Year t <= 9999 ->
  time.ParseRFC3339 (time.FormatRFC3339 t) = Some t.
Proof.
  intros Hns Hoff60 Hoff Hyear.
  pose proof (Format_clock_text t) as HF. cbv zeta in HF. rewrite HF. clear HF.
  unfold time.Year in Hyear.
  set (abs := time.ns t / 1000000000 + time.off t) in *.
  destruct (time.civil (abs / 86400)) as [[y m] d] eqn:Ec.
  destruct (civil_spec _ _ _ _ Ec) as (Hm & Hd & Hdays).
  assert (Hclock : 0 <= abs mod 86400 < 86400) by dlia.
  destruct t as [tns toff]. cbn [time.ns time.off] in *.
  destruct (Z.eqb_spec toff 0) as [-> | Hne].
  - rewrite Parse_clock_text; try assumption.
    + cbv zeta. change (time.eqb_byte "Z" "Z") with true. cbv iota.
      unfold time.Date. rewrite Hdays. f_equal. f_equal. subst abs. dlia.
    + intros c r [= <- <-]. reflexivity.
  - set (zone := Z.quot toff 60).
    assert (Hzone : toff = zone * 60) by (subst zone; dlia).
    assert (Hz24 : 0 <= Z.abs zone < 1440) by lia.
    rewrite !appendInt_2 by dlia.
    set (sg := if zone <? 0 then B "-" else B "+").
    assert (Hsg : sg = ["-"%char] /\ zone < 0 \/ sg = ["+"%char] /\ 0 <= zone).
    { subst sg. destruct (Z.ltb_spec zone 0); [left | right]; split; (reflexivity || lia). }
    destruct Hsg as [[-> Hneg] | [-> Hpos]].
    + cbn [app list_ascii_of_string].
      rewrite Parse_clock_text; try assumption;
        [| intros c r [= <- <-]; reflexivity].
      cbv zeta.
      rewrite (parseUint_2 (Z.abs zone / 60)) by dlia.
      rewrite (parseUint_2 (Z.abs zone mod 60)) by dlia.
      change (negb ((time.eqb_byte "-" "-" || time.eqb_byte "-" "+") && time.eqb_byte ":" ":"))
        with false.
      change (time.eqb_byte "-" "-") with true. cbv iota.
      unfold time.Date. cbn [time.ns]. rewrite Hdays.
      f_equal. f_equal; subst abs; dlia.
    + cbn [app list_ascii_of_string].
      rewrite Parse_clock_text; try assumption;
        [| intros c r [= <- <-]; reflexivity].
      cbv zeta.
      rewrite (parseUint_2 (Z.abs zone / 60)) by dlia.
      rewrite (parseUint_2 (Z.abs zone mod 60)) by dlia.
      change (negb ((time.eqb_byte "+" "-" || time.eqb_byte "+" "+") && time.eqb_byte ":" ":"))
        with false.
      change (time.eqb_byte "+" "-") with false. cbv iota.
      unfold time.Date. cbn [time.ns]. rewrite Hdays.
      f_equal. f_equal; subst abs; dlia.
Qed.

(** ** The fields that [Pack] marshals are plain *)

Lemma plain_app (a b : bytes) : plain a -> plain b -> plain (a ++ b).
Proof. apply Forall_app_2. Qed.

Lemma plain_cons (c : ascii) (s : bytes) : json.htmlSafe c = true -> plain s -> plain (c :: s).
Proof. intros. constructor; assumption. Qed.

Lemma plain_hex_digit (v : Z) : json.htmlSafe (hex.digit v) = true.
Proof.
  unfold hex.digit. generalize (Z.to_nat v). intros n.
  do 16 (destruct n as [|n]; [reflexivity |]). destruct n; reflexivity.
Qed.

Lemma plain_hex (l : bytes) : plain (hex.EncodeToString l).
Proof.
  induction l as [|a l IH]; [constructor |].
  cbn [hex.EncodeToString]. repeat apply plain_cons; auto using plain_hex_digit.
Qed.

Lemma plain_uuid (u : uuid.UUID) : plain (uuid.String u).
Proof.
  unfold uuid.String.
  repeat (apply plain_hex || (apply plain_literal; reflexivity) || apply plain_app).
Qed.

Lemma plain_time_digit (d : Z) : 0 <= d <= 9 -> json.htmlSafe (time.digit d) = true.
Proof.
  intros H.
  assert (Hn : exists n, d = Z.of_nat n /\ (n < 10)%nat) by (exists (Z.to_nat d); lia).
  destruct Hn as (n & -> & Hn).
  do 10 (destruct n as [|n]; [reflexivity |]). lia.
Qed.

Lemma plain_digits (fuel : nat) : forall (u : Z) (acc : bytes),
  0 <= u -> plain acc -> plain (time.digits fuel u acc).
Proof.
  induction fuel as [|fuel IH]; intros u acc Hu Hacc; [exact Hacc |].
  cbn [time.digits]. destruct (Z.ltb_spec u 10).
  - apply plain_cons; [apply plain_time_digit; lia | exact Hacc].
  - apply IH; [dlia |]. apply plain_cons; [apply plain_time_digit; dlia | exact Hacc].
Qed.

Lemma plain_repeat (c : ascii) (n : nat) : json.htmlSafe c = true -> plain (repeat c n).
Proof. intros H. induction n; cbn; [constructor | apply plain_cons; assumption]. Qed.

Lemma plain_appendInt (x : Z) (width : nat) : plain (time.appendInt x width).
Proof.
  unfold time.appendInt. apply plain_app.
  - destruct (x <? 0); [apply plain_literal; reflexivity | constructor].
  - pose proof (Z.abs_nonneg x) as Hu.
    destruct ((width =? 2)%nat && (Z.abs x <? 100)) eqn:E2.
    + apply andb_prop in E2 as [_ E2]. apply Z.ltb_lt in E2.
      repeat apply plain_cons; try (apply plain_time_digit; dlia). constructor.
    + destruct ((width =? 4)%nat && (Z.abs x <? 10000)) eqn:E4.
      * apply andb_prop in E4 as [_ E4]. apply Z.ltb_lt in E4.
        repeat apply plain_cons; try (apply plain_time_digit; dlia). constructor.
      * apply plain_app; [apply plain_repeat; reflexivity |].
        apply plain_digits; [exact Hu | constructor].
Qed.

Lemma plain_Format (t : time.Time) : plain (time.FormatRFC3339 t).
Proof.
  unfold time.FormatRFC3339.
  destruct (time.civil _) as [[y m] d].
  repeat (apply plain_appendInt || (apply plain_literal; reflexivity) || apply plain_app).
  destruct (time.off t =? 0); [apply plain_literal; reflexivity |].
  repeat (apply plain_appendInt || (apply plain_literal; reflexivity) || apply plain_app).
  destruct (_ <? 0); apply plain_literal; reflexivity.
Qed.

Lemma plain_Pack_json (t : BearerToken) :
  plain (tj_APIKeyID (Pack_json t)) /\ plain (tj_Timestamp (Pack_json t)) /\
  plain (tj_SigningAlgo (Pack_json t)) /\ plain (tj_Signature (Pack_json t)).
Proof.
  unfold Pack_json. cbn [tj_APIKeyID tj_Timestamp tj_SigningAlgo tj_Signature].
  repeat split.
  - apply plain_uuid.
  - apply plain_Format.
  - apply plain_literal. reflexivity.
  - apply plain_hex.
Qed.

(** ** Pack and Unpack *)

(** [Pack] never fails, and its result decodes to the struct it marshals. *)
Lemma Pack_ok (t : BearerToken) :
  exists buf, json.Marshal (Pack_json t) = Ok buf /\
              Pack t = (base64.EncodeToString buf, None) /\
              base64.DecodeString (base64.EncodeToString buf) = Ok buf /\
              json.Decode buf = Ok (Pack_json t).
Proof.
  destruct (plain_Pack_json t) as (H1 & H2 & H3 & H4).
  destruct (json_Decode_Marshal (Pack_json t) H1 H2 H3 H4) as (buf & HM & HD).
  exists buf. unfold Pack. rewrite HM.
  repeat split; [apply base64_Decode_Encode | exact HD].
Qed.

Lemma algo_tag_ok :
  strings.bytes_eqb (strings.ToLower (strings.TrimSpace (B "HMAC-SHA256"))) (B "hmac-sha256") = true.
Proof. reflexivity. Qed.

(** The length of a packed token, from the lengths of its timestamp and
    of its signature. *)
Lemma Pack_length (t : BearerToken) :
  len (fst (Pack t)) =
    4 * ((104 + len (time.FormatRFC3339 (Timestamp t)) + 2 * len (Signature t)) / 3).
Proof.
  destruct (Pack_ok t) as (buf & HM & HP & _ & _). rewrite HP. cbn [fst].
  rewrite base64_Encode_length.
  destruct (plain_Pack_json t) as (H1 & H2 & H3 & H4).
  rewrite (Marshal_length _ _ H1 H2 H3 H4 HM).
  unfold Pack_json. cbn [tj_APIKeyID tj_Timestamp tj_SigningAlgo tj_Signature].
  unfold len at 1 3 4. rewrite uuid_String_length, hex_Encode_length.
  cbn [length list_ascii_of_string]. f_equal. f_equal. unfold len. lia.
Qed.

(** * The claims *)

(** ** Sign and Verify *)

(** C2. The signature that [sign] computes is HMAC-SHA256, keyed by the
    secret, of the bytes of the token's timestamp in the RFC 3339 layout
    in UTC followed at once by the bytes of the body; it has 32 bytes,
    and for an absent body (a nil slice, the empty list) it is the HMAC of
    the timestamp text alone. *)
Theorem sign_is_HMAC_SHA256 (t : BearerToken) (secret body : bytes) :
  sign t secret body
    = HMAC_SHA256 secret (time.FormatRFC3339 (time.UTC (Timestamp t)) ++ body)
  /\ length (sign t secret body) = 32%nat
  /\ sign t secret [] = HMAC_SHA256 secret (time.FormatRFC3339 (time.UTC (Timestamp t))).
Proof.
  assert (H : forall b, sign t secret b
                = HMAC_SHA256 secret (time.FormatRFC3339 (time.UTC (Timestamp t)) ++ b)).
  { intros b. unfold sign. apply hmac_Sum_Write_Write. }
  repeat split.
  - apply H.
  - rewrite H. unfold HMAC_SHA256. apply sha256_facts.length_Sum256.
  - rewrite H, app_nil_r. reflexivity.
Qed.

(** C5. For a token whose signature is valid and a skew window [w] (an
    int64 other than the least one, which has no negation), [Verify]
    fails with the timestamp error exactly when the distance between the
    clock and the token's timestamp exceeds [w], and succeeds exactly when
    the timestamp lies in [[now - w, now + w]], the boundary included, on
    both sides of the clock. *)
Theorem Verify_window (now : time.Time) (t : BearerToken) (secret body : bytes)
    (w : time.Duration) :
  time.minInt64 < w <= time.maxInt64 ->
  Signature t = sign t secret body ->
  let d := Z.abs (time.ns now - time.ns (Timestamp t)) in
  (Verify now t secret body w = Some ErrIllegalTimestamp <-> w < d)
  /\ (Verify now t secret body w = None <-> d <= w)
  /\ (d = w -> Verify now t secret body w = None)
  /\ (Verify now t secret body w = None
      <-> time.ns now - w <= time.ns (Timestamp t) <= time.ns now + w).
Proof.
  intros Hw Hsig d.
  rewrite (Verify_valid_sig now t secret body w Hw Hsig).
  destruct (Z.leb_spec (time.ns now - w) (time.ns (Timestamp t)));
    destruct (Z.leb_spec (time.ns (Timestamp t)) (time.ns now + w));
    cbn [andb]; subst d; repeat split; intros; try discriminate; try lia; try reflexivity.
Qed.

Lemma Verify_window_witness :
  Verify (time.Add sample.now time.Minute) sample.token sample.secret sample.payload time.Minute
  = None.
Proof.
  refine (proj1 (proj2 (proj2 (Verify_window (time.Add sample.now time.Minute) sample.token
            sample.secret sample.payload time.Minute _ _))) _).
  - unfold time.minInt64, time.maxInt64, time.Minute, time.Second. lia.
  - apply Sign_Signature.
  - reflexivity.
Defined.

(** C1, as the code has it.  A token signed with [Sign] passes [Verify]
    with the same secret and body and a tolerance [skew >= 0] when the
    clock of the verifier is within [skew] of the token's timestamp, and
    fails with the timestamp error otherwise; [Sign] itself never fails. *)
Theorem Sign_then_Verify (now : time.Time) (t : BearerToken) (secret body : bytes)
    (skew : time.Duration) :
  0 <= skew <= time.maxInt64 ->
  let signed := Sign t secret body in
  snd signed = None
  /\ (Z.abs (time.ns now - time.ns (Timestamp t)) <= skew ->
      Verify now (fst signed) secret body skew = None)
  /\ (skew < Z.abs (time.ns now - time.ns (Timestamp t)) ->
      Verify now (fst signed) secret body skew = Some ErrIllegalTimestamp).
Proof.
  intros Hs signed.
  assert (Hw : time.minInt64 < skew <= time.maxInt64) by (unfold time.minInt64; lia).
  pose proof (Verify_valid_sig now (fst signed) secret body skew Hw
                (Sign_Signature t secret body)) as HV.
  change (Timestamp (fst signed)) with (Timestamp t) in HV.
  split; [reflexivity |]. rewrite HV.
  destruct (Z.leb_spec (time.ns now - skew) (time.ns (Timestamp t)));
    destruct (Z.leb_spec (time.ns (Timestamp t)) (time.ns now + skew));
    cbn [andb]; split; intros; try reflexivity; lia.
Qed.

Lemma Sign_then_Verify_witness :
  Verify sample.now sample.token sample.secret sample.payload 0 = None.
Proof.
  refine (proj1 (proj2 (Sign_then_Verify sample.now
            {| APIKeyID := sample.id; Timestamp := sample.now; Signature := [] |}
            sample.secret sample.payload 0 _)) _).
  - unfold time.maxInt64. lia.
  - cbn. lia.
Defined.

(** C1 as stated fails: a token verified two seconds after its timestamp
    with a tolerance of one second is refused. *)
Lemma Sign_then_Verify_stale :
  Verify (time.Add sample.now (2 * time.Second)) sample.token sample.secret sample.payload
    time.Second = Some ErrIllegalTimestamp.
Proof. vm_compute. reflexivity. Qed.

(** ** Unpack, whatever the library calls return *)

Section UnpackFacts.
Variable base64_DecodeString : bytes -> result base64.error bytes.
Variable json_Decode : bytes -> result json.error tokenJSON.
Variable uuid_Parse : bytes -> result uuid.error uuid.UUID.
Variable time_Parse : bytes -> option time.Time.
Variable hex_DecodeString : bytes -> result hex.error bytes.

Local Abbreviation Unpack' :=
  (Unpack_with base64_DecodeString json_Decode uuid_Parse time_Parse hex_DecodeString).
Local Abbreviation validated' :=
  (validated base64_DecodeString json_Decode uuid_Parse time_Parse hex_DecodeString).

Lemma Unpack_with_cases (t : BearerToken) (packed : bytes) :
  (exists e, unpack_error e /\ Unpack' t packed = (t, Some e))
  \/ (exists t', validated' packed t' /\ Unpack' t packed = (t', None)).
Proof.
  unfold Unpack_with.
  destruct (Z.ltb_spec maxPackedLen (len packed)) as [Hlen | Hlen];
    [left; eexists; split; [| reflexivity]; exact I |].
  destruct (base64_DecodeString packed) as [tokenContent | e1] eqn:E1;
    [| left; eexists; split; [| reflexivity]; exact I].
  destruct (json_Decode tokenContent) as [token | e2] eqn:E2;
    [| left; eexists; split; [| reflexivity]; exact I].
  destruct (uuid_Parse (tj_APIKeyID token)) as [apiKeyID | e3] eqn:E3;
    [| left; eexists; split; [| reflexivity]; exact I].
  destruct (time_Parse (tj_Timestamp token)) as [timestamp |] eqn:E4;
    [| left; eexists; split; [| reflexivity]; exact I].
  destruct (strings.bytes_eqb _ _) eqn:E5; cbn [negb];
    [| left; eexists; split; [| reflexivity]; exact I].
  destruct (hex_DecodeString (tj_Signature token)) as [sig | e6] eqn:E6;
    [| left; eexists; split; [| reflexivity]; exact I].
  right. eexists. split; [| reflexivity].
  apply bool_decide_eq_true in E5.
  econstructor; eassumption.
Qed.

(** C10. [Unpack] is atomic on failure: when it returns an error, which
    is one of its seven kinds, the receiver is returned as it was; when
    it returns no error, every check has passed and the receiver holds
    the three parsed fields. *)
Theorem Unpack_atomic (t : BearerToken) (packed : bytes) :
  match Unpack' t packed with
  | (t', Some e) => t' = t /\ unpack_error e
  | (t', None) => validated' packed t'
  end.
Proof.
  destruct (Unpack_with_cases t packed) as [(e & He & ->) | (t' & Hv & ->)]; auto.
Qed.

(** C6. An input longer than [maxPackedLen], and so every input whose
    base64 content is longer than that, fails with the length error, the
    receiver unchanged, and this whatever the library calls would return:
    none of them is consulted. *)
Theorem Unpack_oversized (t : BearerToken) (packed : bytes) :
  (maxPackedLen < len packed
   \/ exists content, base64.DecodeString packed = Ok content /\ maxPackedLen < len content) ->
  Unpack' t packed = (t, Some (ErrTooLong (len packed) maxPackedLen)).
Proof.
  intros H.
  assert (Hlen : maxPackedLen < len packed).
  { destruct H as [H | (content & Hdec & Hc)]; [exact H |].
    pose proof (base64_Decode_length _ _ Hdec). lia. }
  unfold Unpack_with. destruct (Z.ltb_spec maxPackedLen (len packed)); [reflexivity | lia].
Qed.

(** C7, as the code has it.  When the input passes the checks that come
    first (length, base64, JSON, key identifier, timestamp), [Unpack]
    fails with the algorithm error exactly when the tag, cut of
    surrounding white space and put in lower case, is not
    [hmac-sha256]; the signature field plays no part. *)
Theorem Unpack_unsupported_algo (t : BearerToken) (packed tokenContent : bytes)
    (token : tokenJSON) (apiKeyID : uuid.UUID) (timestamp : time.Time) :
  len packed <= maxPackedLen ->
  base64_DecodeString packed = Ok tokenContent ->
  json_Decode tokenContent = Ok token ->
  uuid_Parse (tj_APIKeyID token) = Ok apiKeyID ->
  time_Parse (tj_Timestamp token) = Some timestamp ->
  (strings.ToLower (strings.TrimSpace (tj_SigningAlgo token)) <> B "hmac-sha256"
   <-> Unpack' t packed = (t, Some (ErrSigningAlgo (tj_SigningAlgo token)))).
Proof.
  intros Hlen E1 E2 E3 E4. unfold Unpack_with.
  destruct (Z.ltb_spec maxPackedLen (len packed)); [lia |].
  rewrite E1, E2, E3, E4. unfold strings.bytes_eqb.
  destruct (bool_decide_reflect
              (strings.ToLower (strings.TrimSpace (tj_SigningAlgo token)) = B "hmac-sha256"))
    as [Heq | Hne]; cbn [negb].
  - split; [contradiction |].
    destruct (hex_DecodeString (tj_Signature token)); discriminate.
  - split; [reflexivity | intros _; exact Hne].
Qed.
End UnpackFacts.

Lemma Unpack_oversized_witness :
  Unpack sample.zero (repeat "A"%char 1025)
  = (sample.zero, Some (ErrTooLong 1025 maxPackedLen)).
Proof.
  apply (Unpack_oversized base64.DecodeString json.Decode uuid.Parse time.ParseRFC3339
           hex.DecodeString sample.zero (repeat "A"%char 1025)).
  left. reflexivity.
Defined.

Lemma Unpack_unsupported_algo_witness :
  Unpack sample.zero (sample.packed_with_algo (B "HMAC-SHA512"))
  = (sample.zero, Some (ErrSigningAlgo (B "HMAC-SHA512"))).
Proof.
  refine (proj1 (Unpack_unsupported_algo base64.DecodeString json.Decode uuid.Parse
            time.ParseRFC3339 hex.DecodeString sample.zero
            (sample.packed_with_algo (B "HMAC-SHA512")) _
            {| tj_APIKeyID := uuid.String sample.id;
               tj_Timestamp := B "2024-05-01T12:00:00Z";
               tj_SigningAlgo := B "HMAC-SHA512";
               tj_Signature := hex.EncodeToString (Signature sample.token) |}
            sample.id (time.mkTime 1714564800000000000 0) _ _ _ _ _) _).
  - vm_compute. discriminate.
  - vm_compute. reflexivity.
  - vm_compute. reflexivity.
  - vm_compute. reflexivity.
  - vm_compute. reflexivity.
  - vm_compute. discriminate.
Defined.

(** C7 as stated fails: the tag [hmac-sha256], in lower case, is not the
    tag [HMAC-SHA256] that [Pack] writes, and is accepted. *)
Lemma Unpack_accepts_lowercase_algo :
  sample.packed_with_algo (B "hmac-sha256")
  = B "eyJhcGlLZXlJRCI6IjEyM2U0NTY3LWU4OWItMTJkMy1hNDU2LTQyNjYxNDE3NDAwMCIsInRpbWVzdGFtcCI6IjIwMjQtMDUtMDFUMTI6MDA6MDBaIiwiYWxnbyI6ImhtYWMtc2hhMjU2Iiwic2lnbmF0dXJlIjoiM2VjNGFjYTBjMTc3YzUyYmMwYWU5MDhiZGNhOTc5YjI0NmY5Y2UyNDE3N2FjYWE5NWQyM2Y5YWQ4YmMwZjA2OCJ9"
  /\ Unpack sample.zero (sample.packed_with_algo (B "hmac-sha256"))
     = ({| APIKeyID := sample.id; Timestamp := time.mkTime 1714564800000000000 0;
           Signature := Signature sample.token |}, None).
Proof. split; vm_compute; reflexivity. Qed.

(** ** Pack, and Unpack after Pack *)

Lemma Format_length (t : time.Time) :
  -86400 < time.off t < 86400 -> 0 <= time.Year t <= 9999 ->
  len (time.FormatRFC3339 t) <= 25.
Proof.
  intros Hoff Hyear.
  pose proof (Format_clock_text t) as HF. cbv zeta in HF. rewrite HF. clear HF.
  unfold time.Year in Hyear.
  set (abs := time.ns t / 1000000000 + time.off t) in *.
  destruct (time.civil (abs / 86400)) as [[y m] d] eqn:Ec.
  destruct (civil_spec _ _ _ _ Ec) as (Hm & Hd & _).
  assert (Hd31 : d < 100).
  { unfold time.daysIn in Hd. destruct ((m =? 2) && time.isLeap y); [lia |].
    revert Hd. generalize (Z.to_nat (m - 1)). intros k.
    do 12 (destruct k as [|k]; [cbn; lia |]). destruct k; cbn; lia. }
  unfold clock_text.
  rewrite (appendInt_4 y), !appendInt_2 by dlia.
  destruct (time.off t =? 0);
    [unfold len; cbn [length app list_ascii_of_string]; lia |].
  rewrite ?appendInt_2 by dlia.
  destruct (_ <? 0); unfold len; cbn [length app list_ascii_of_string]; lia.
Qed.

(** A signature of at most 320 bytes, and so one that [Sign] made, packs
    into at most [maxPackedLen] bytes. *)
Lemma Pack_fits (t : BearerToken) :
  -86400 < time.off (Timestamp t) < 86400 -> 0 <= time.Year (Timestamp t) <= 9999 ->
  (length (Signature t) <= 320)%nat ->
  len (fst (Pack t)) <= maxPackedLen.
Proof.
  intros Hoff Hyear Hsig. rewrite Pack_length.
  pose proof (Format_length _ Hoff Hyear). unfold maxPackedLen, len in *. dlia.
Qed.

(** C3, as the code has it.  For a token whose timestamp is a whole
    number of seconds, in a year from 0 to 9999 and with a zone offset of
    whole minutes short of a day, and whose packed form has at most
    [maxPackedLen] bytes, [Pack] succeeds and [Unpack] of the packed
    string yields the token, field for field, whatever the receiver held. *)
Theorem Unpack_Pack (t r : BearerToken) :
  time.ns (Timestamp t) mod 1000000000 = 0 ->
  time.off (Timestamp t) mod 60 = 0 ->
  -86400 < time.off (Timestamp t) < 86400 ->
  0 <= time.Year (Timestamp t) <= 9999 ->
  len (fst (Pack t)) <= maxPackedLen ->
  snd (Pack t) = None /\ Unpack r (fst (Pack t)) = (t, None).
Proof.
  intros Hns Hoff60 Hoff Hyear Hlen.
  destruct (Pack_ok t) as (buf & HM & HP & HB & HJ).
  rewrite HP in *. cbn [fst snd] in *. split; [reflexivity |].
  unfold Unpack, Unpack_with.
  destruct (Z.ltb_spec maxPackedLen (len (base64.EncodeToString buf))); [lia |].
  rewrite HB, HJ. unfold Pack_json. cbn [tj_APIKeyID tj_Timestamp tj_SigningAlgo tj_Signature].
  rewrite uuid_Parse_String, Parse_Format by assumption.
  rewrite algo_tag_ok. cbn [negb].
  rewrite hex_Decode_Encode. destruct t. reflexivity.
Qed.

Lemma Unpack_Pack_witness :
  Unpack sample.zero (fst (Pack sample.token_sec)) = (sample.token_sec, None).
Proof.
  refine (proj2 (Unpack_Pack sample.token_sec sample.zero _ _ _ _ _)).
  - reflexivity.
  - reflexivity.
  - cbn. lia.
  - split; apply Z.leb_le; vm_compute; reflexivity.
  - apply Z.leb_le. vm_compute. reflexivity.
Defined.

(** C3 as stated fails: the token that [Client.sign] makes carries the
    nanoseconds of the clock, and they do not come back. *)
Lemma Unpack_Pack_drops_nanoseconds :
  Timestamp sample.token = time.mkTime 1714564800123456789 10800
  /\ snd (Pack sample.token) = None
  /\ Unpack sample.zero (fst (Pack sample.token))
     = ({| APIKeyID := APIKeyID sample.token;
           Timestamp := time.mkTime 1714564800000000000 10800;
           Signature := Signature sample.token |}, None)
  /\ fst (Unpack sample.zero (fst (Pack sample.token))) <> sample.token.
Proof.
  assert (HU : Unpack sample.zero (fst (Pack sample.token))
               = ({| APIKeyID := APIKeyID sample.token;
                     Timestamp := time.mkTime 1714564800000000000 10800;
                     Signature := Signature sample.token |}, None))
    by (vm_compute; reflexivity).
  split; [reflexivity |]. split; [vm_compute; reflexivity |]. split; [exact HU |].
  rewrite HU. cbn [fst]. intros H. apply (f_equal Timestamp) in H.
  cbn [Timestamp] in H. discriminate H.
Qed.

Lemma hex_lowercase (l : bytes) : Forall (fun c => In c hex.hextable) (hex.EncodeToString l).
Proof.
  assert (Hd : forall v, In (hex.digit v) hex.hextable).
  { intros v. unfold hex.digit. generalize (Z.to_nat v). intros n.
    do 16 (destruct n as [|n]; [cbn; tauto |]). destruct n; cbn; tauto. }
  induction l as [|a l IH]; [constructor |].
  cbn [hex.EncodeToString].
  constructor; [apply Hd |]. constructor; [apply Hd |]. exact IH.
Qed.

(** C8, as the code has it.  [Pack] never fails and yields the URL-safe
    base64 form of the JSON object with the members [apiKeyID] (the
    canonical text of the key identifier), [timestamp] (the RFC 3339 text
    of the timestamp in the timestamp's own zone offset, which is the UTC
    text when that offset is zero), [algo] (the text [HMAC-SHA256]) and
    [signature] (the signature in lowercase hexadecimal digits), in this
    order. *)
Theorem Pack_envelope (t : BearerToken) :
  let fields := {| tj_APIKeyID := uuid.String (APIKeyID t);
                   tj_Timestamp := time.FormatRFC3339 (Timestamp t);
                   tj_SigningAlgo := B "HMAC-SHA256";
                   tj_Signature := hex.EncodeToString (Signature t) |} in
  let text := B "{" ++ member (B "apiKeyID") (tj_APIKeyID fields) ++
              B "," ++ member (B "timestamp") (tj_Timestamp fields) ++
              B "," ++ member (B "algo") (tj_SigningAlgo fields) ++
              B "," ++ member (B "signature") (tj_Signature fields) ++ B "}" in
  Pack t = (base64.EncodeToString text, None)
  /\ base64.DecodeString (base64.EncodeToString text) = Ok text
  /\ json.Decode text = Ok fields
  /\ Forall (fun c => In c hex.hextable) (tj_Signature fields)
  /\ (time.off (Timestamp t) = 0 ->
      tj_Timestamp fields = time.FormatRFC3339 (time.UTC (Timestamp t))).
Proof.
  intros fields text.
  destruct (plain_Pack_json t) as (H1 & H2 & H3 & H4).
  pose proof (Marshal_members (Pack_json t) H1 H2 H3 H4) as HM.
  change (Pack_json t) with fields in HM. fold text in HM.
  destruct (json_Decode_Marshal (Pack_json t) H1 H2 H3 H4) as (buf & HM' & HD).
  change (Pack_json t) with fields in HM', HD.
  rewrite HM in HM'. injection HM' as <-.
  repeat split.
  - unfold Pack. change (Pack_json t) with fields. rewrite HM. reflexivity.
  - apply base64_Decode_Encode.
  - exact HD.
  - apply hex_lowercase.
  - intros Hoff. subst fields. cbn [tj_Timestamp]. f_equal.
    destruct (Timestamp t) as [n o]. cbn in Hoff. subst o. reflexivity.
Qed.

(** C8 as stated fails: a timestamp in a zone at +03:00 is written with
    that offset, not in UTC. *)
Lemma Pack_keeps_zone_offset :
  match base64.DecodeString sample.packed with
  | Ok text =>
      match json.Decode text with
      | Ok fields =>
          tj_Timestamp fields = B "2024-05-01T15:00:00+03:00"
          /\ time.FormatRFC3339 (time.UTC (Timestamp sample.token)) = B "2024-05-01T12:00:00Z"
      | Err _ => False
      end
  | Err _ => False
  end.
Proof. vm_compute. split; reflexivity. Qed.

(** ** Client.sign *)

Lemma Pack_None (t : BearerToken) : Pack t = (fst (Pack t), None).
Proof. destruct (Pack_ok t) as (buf & _ & -> & _). reflexivity. Qed.

(** C9. When the body can be read, [Client.sign] returns no error and
    leaves a request with the same method and URL, with a body that
    yields the bytes that were read, unread, and with the header of the
    request in which [Authorization] holds the single value [Bearer]
    followed by the packed token, a token with the client's key
    identifier and the clock's time, signed over those same bytes; every
    other header is as it was.  A body that is nil or [NoBody] stays, and
    the signature is over no bytes.  When reading the body fails, the
    error of the reader is returned. *)
Theorem Client_sign_frame (c : Client) (now : time.Time) (req : http.Request) :
  let body := http.ReqBody req in
  let content := body_bytes body in
  let token :=
    fst (Sign {| APIKeyID := keyID c; Timestamp := now; Signature := [] |} (keySec c) content) in
  let signed := Client_sign c now req in
  match body with
  | Some (http.Reader _ (Some e)) => snd signed = Some (ErrRead e)
  | _ =>
      signed =
        ({| http.Method := http.Method req;
            http.URL := http.URL req;
            http.Header :=
              <[B "Authorization" := [B "Bearer " ++ fst (Pack token)]]> (http.Header req);
            http.ReqBody := match body with
                            | Some (http.Reader data _) => Some (http.Reader data None)
                            | other => other
                            end |}, None)
      /\ body_bytes (http.ReqBody (fst signed)) = content
      /\ Signature token = sign token (keySec c) content
      /\ http.Header (fst signed) !! B "Authorization" = Some [B "Bearer " ++ fst (Pack token)]
      /\ (forall k, k <> B "Authorization" ->
                    http.Header (fst signed) !! k = http.Header req !! k)
  end.
Proof.
  intros body content token signed.
  assert (Hok : forall b,
    match b with Some (http.Reader _ (Some _)) => False | _ => True end ->
    http.ReqBody req = b ->
    signed =
      ({| http.Method := http.Method req; http.URL := http.URL req;
          http.Header :=
            <[B "Authorization" := [B "Bearer " ++ fst (Pack token)]]> (http.Header req);
          http.ReqBody := match b with
                          | Some (http.Reader data _) => Some (http.Reader data None)
                          | other => other
                          end |}, None)).
  { intros b Hb Hreq. subst signed token content body. unfold Client_sign, Sign.
    rewrite Hreq. destruct b as [[|data [e|]]|]; try contradiction;
      cbn [http.ReadAll body_bytes fst snd http.Method http.URL http.Header http.ReqBody
           http.NewBuffer];
      rewrite Pack_None; reflexivity. }
  assert (Hrest : forall b,
    match b with Some (http.Reader _ (Some _)) => False | _ => True end ->
    http.ReqBody req = b ->
    body_bytes (match b with
                | Some (http.Reader data _) => Some (http.Reader data None)
                | other => other
                end) = body_bytes b).
  { intros [[|data [e|]]|] Hb _; try contradiction; reflexivity. }
  subst body. destruct (http.ReqBody req) as [[|data [e|]]|] eqn:Hreq;
    [ specialize (Hok (Some http.NoBody) I eq_refl)
    | subst signed; unfold Client_sign; rewrite Hreq; reflexivity
    | specialize (Hok (Some (http.Reader data None)) I eq_refl)
    | specialize (Hok None I eq_refl) ];
    rewrite Hok; cbn [fst http.ReqBody http.Header];
    (split; [reflexivity |]); (split; [reflexivity |]);
    (split; [apply Sign_Signature |]);
    (split; [apply lookup_insert_eq |]);
    intros k Hk; apply lookup_insert_ne; congruence.
Qed.

(** ** The webhook handler *)

Section WebhookFacts.
Variable Transaction : Type.
Variable json_Unmarshal : bytes -> result json.error Transaction.
Variable HandlerError : Type.

Local Abbreviation Handler := (WebhookHandler Transaction json_Unmarshal HandlerError).

(** A well-formed request reaches [Verify]. *)
Lemma WebhookHandler_gates (c : Client)
    (handler : Transaction -> option HandlerError) (now : time.Time)
    (w : http.ResponseWriter (werror HandlerError)) (r : http.Request)
    (token : BearerToken) (payload : bytes) :
  well_formed r token payload ->
  Handler c handler now w r =
    let w := http.SetHeader w (B "Content-Type") (B "text/plain") in
    match Verify now token (keySec c) payload (maxTimeDiff c) with
    | Some verr =>
        reply _ _ w http.StatusForbidden
          (http.TextErr (B "Unable to verify the request signature: ") (WToken _ verr))
    | None =>
        if negb (strings.bytes_eqb (uuid.to_bytes (APIKeyID token)) (uuid.to_bytes (keyID c)))
        then mkOutcome _ _ (http.WriteHeader w http.StatusForbidden) [] Panicked
        else
          match json_Unmarshal payload with
          | Err e =>
              reply _ _ w http.StatusBadRequest
                (http.TextErr (B "Invalid request payload: ") (WJSON _ e))
          | Ok trx =>
              match handler trx with
              | Some e =>
                  mkOutcome _ _
                    (http.Write (http.WriteHeader w http.StatusInternalServerError)
                       (http.TextErr
                          (B "An error occurred while processing the webhook notification: ")
                          (WHandler _ e)))
                    [trx] Returned
              | None =>
                  mkOutcome _ _
                    (http.Write (http.WriteHeader w http.StatusAccepted)
                       (http.Text (B "The webhook notification has been processed successfully.")))
                    [trx] Returned
              end
          end
    end.
Proof.
  intros (hdr0 & body & rest & Hvals & Hlen & Hbearer & Hv & Hunpack & Hbody & Hread).
  unfold WebhookHandler. rewrite Hvals.
  destruct (Z.ltb_spec (len (strings.TrimSpace hdr0)) 7); [lia |].
  rewrite Hbearer. change (negb (strings.bytes_eqb (B "bearer ") (B "bearer "))) with false.
  cbv iota.
  destruct (Z.eqb_spec (len (strings.TrimSpace (skipn 7 (strings.TrimSpace hdr0)))) 0)
    as [H0 | _].
  { destruct (strings.TrimSpace (skipn 7 (strings.TrimSpace hdr0))); [contradiction |].
    unfold len in H0. cbn in H0. lia. }
  rewrite Hunpack, Hbody, Hread. reflexivity.
Qed.

Lemma uuid_bytes_eqb (u v : uuid.UUID) :
  strings.bytes_eqb (uuid.to_bytes u) (uuid.to_bytes v) = true <-> u = v.
Proof.
  unfold strings.bytes_eqb. rewrite bool_decide_eq_true.
  split; [| intros ->; reflexivity].
  destruct u, v. unfold uuid.to_bytes. cbn. intros Heq.
  injection Heq. intros. subst. reflexivity.
Qed.

(** A request whose single [Authorization] header carries a token that
    unpacks and verifies under the client's secret, under a key
    identifier that is not the client's: the handler sets the status
    403 and then panics on the nil error whose message it asks for; it
    writes no text and does not call the business callback. *)
Lemma WebhookHandler_foreign_key (c : Client)
    (handler : Transaction -> option HandlerError) (now : time.Time)
    (w : http.ResponseWriter (werror HandlerError)) (r : http.Request)
    (token : BearerToken) (payload : bytes) :
  well_formed r token payload ->
  Verify now token (keySec c) payload (maxTimeDiff c) = None ->
  APIKeyID token <> keyID c ->
  let o := Handler c handler now w r in
  ended _ _ o = Panicked
  /\ http.Status (resp _ _ o) = Some http.StatusForbidden
  /\ http.Written (resp _ _ o) = http.Written w
  /\ calls _ _ o = [].
Proof.
  intros Hwf Hverify Hid o. subst o.
  rewrite (WebhookHandler_gates c handler now w r token payload Hwf). cbv zeta.
  rewrite Hverify.
  destruct (strings.bytes_eqb _ _) eqn:E; [apply uuid_bytes_eqb in E; contradiction |].
  cbn [negb]. repeat split.
Qed.
End WebhookFacts.

(** C4, on the code.  The sample request carries the sample token, which
    unpacks and verifies under the secret of the sample client, whose key
    identifier is another one.  The handler sets the status 403 and then
    panics: it writes no explanation.  The callback is not called. *)
Theorem WebhookHandler_foreign_key_panics :
  let o := WebhookHandler unit (fun _ => Ok tt) unit sample.other_client (fun _ => None)
             sample.now sample.writer sample.request in
  (exists token,
      Unpack sample.zero sample.packed = (token, None)
      /\ Verify sample.now token (keySec sample.other_client) sample.payload
           (maxTimeDiff sample.other_client) = None
      /\ APIKeyID token <> keyID sample.other_client)
  /\ ended _ _ o = Panicked
  /\ http.Status (resp _ _ o) = Some 403
  /\ http.Written (resp _ _ o) = []
  /\ calls _ _ o = [].
Proof.
  cbv zeta. split.
  - eexists. split; [vm_compute; reflexivity |]. split; [vm_compute; reflexivity |].
    vm_compute. discriminate.
  - vm_compute. repeat split.
Qed.

(** ** Further properties of Verify and of the handler *)

(** X1. A token whose signature is not the HMAC of its timestamp and the
    body, be it by one byte or in length, is refused with the signature
    error, whatever its timestamp and the tolerance. *)
Theorem Verify_refuses_other_signature (now : time.Time) (t : BearerToken)
    (secret body : bytes) (w : time.Duration) :
  Signature t <> sign t secret body ->
  Verify now t secret body w = Some ErrIllegalSignature.
Proof. apply Verify_bad_sig. Qed.

Lemma Verify_refuses_other_signature_witness :
  Verify sample.now
    {| APIKeyID := sample.id; Timestamp := sample.now;
       Signature := "000"%char :: tl (Signature sample.token) |}
    sample.secret sample.payload time.Minute = Some ErrIllegalSignature.
Proof.
  apply (Verify_refuses_other_signature sample.now
           {| APIKeyID := sample.id; Timestamp := sample.now;
              Signature := "000"%char :: tl (Signature sample.token) |}
           sample.secret sample.payload time.Minute).
  intros H. vm_compute in H. discriminate H.
Defined.

Section HandlerFacts.
Variable Transaction : Type.
Variable json_Unmarshal : bytes -> result json.error Transaction.
Variable HandlerError : Type.

Local Abbreviation Handler := (WebhookHandler Transaction json_Unmarshal HandlerError).

(** X2. Without an [Authorization] header the answer is 401, with more
    than one it is 400, each with its text; the callback is not called. *)
Theorem WebhookHandler_header_count (c : Client)
    (handler : Transaction -> option HandlerError) (now : time.Time)
    (w : http.ResponseWriter (werror HandlerError)) (r : http.Request) :
  length (http.Header_Values (http.Header r) (B "Authorization")) <> 1%nat ->
  let o := Handler c handler now w r in
  let none := http.Header_Values (http.Header r) (B "Authorization") = [] in
  ended _ _ o = Returned /\ calls _ _ o = []
  /\ (none -> http.Status (resp _ _ o) = Some http.StatusUnauthorized
              /\ http.Written (resp _ _ o)
                 = http.Written w ++ [http.Text (B "Missing `Authorization` header.")])
  /\ (~ none -> http.Status (resp _ _ o) = Some http.StatusBadRequest
                /\ http.Written (resp _ _ o)
                   = http.Written w ++ [http.Text (B "Multiple `Authorization` header.")]).
Proof.
  intros Hn o none. subst o none. unfold WebhookHandler.
  destruct (http.Header_Values (http.Header r) (B "Authorization")) as [|h0 [|h1 hs]].
  - split; [reflexivity |]. split; [reflexivity |].
    split; [intros _; split; reflexivity | intros H; contradiction H; reflexivity].
  - cbn in Hn. contradiction.
  - split; [reflexivity |]. split; [reflexivity |].
    split; [intros H; discriminate H | intros _; split; reflexivity].
Qed.

(** X3. A well-formed request whose token does not verify is answered 403
    with the reason; the callback is not called. *)
Theorem WebhookHandler_rejects_unverified (c : Client)
    (handler : Transaction -> option HandlerError) (now : time.Time)
    (w : http.ResponseWriter (werror HandlerError)) (r : http.Request)
    (token : BearerToken) (payload : bytes) (verr : error) :
  well_formed r token payload ->
  Verify now token (keySec c) payload (maxTimeDiff c) = Some verr ->
  let o := Handler c handler now w r in
  ended _ _ o = Returned /\ calls _ _ o = []
  /\ http.Status (resp _ _ o) = Some http.StatusForbidden
  /\ http.Written (resp _ _ o)
     = http.Written w ++ [http.TextErr (B "Unable to verify the request signature: ")
                            (WToken _ verr)].
Proof.
  intros Hwf Hverify o. subst o.
  rewrite (WebhookHandler_gates _ _ _ c handler now w r token payload Hwf). cbv zeta.
  rewrite Hverify. repeat split.
Qed.

(** X4. A well-formed request whose token verifies and names the client's
    key identifier, with a payload that parses and a callback that
    succeeds, is answered 202, and the callback is called once, with the
    parsed payload. *)
Theorem WebhookHandler_accepts (c : Client)
    (handler : Transaction -> option HandlerError) (now : time.Time)
    (w : http.ResponseWriter (werror HandlerError)) (r : http.Request)
    (token : BearerToken) (payload : bytes) (trx : Transaction) :
  well_formed r token payload ->
  Verify now token (keySec c) payload (maxTimeDiff c) = None ->
  APIKeyID token = keyID c ->
  json_Unmarshal payload = Ok trx ->
  handler trx = None ->
  let o := Handler c handler now w r in
  ended _ _ o = Returned /\ calls _ _ o = [trx]
  /\ http.Status (resp _ _ o) = Some http.StatusAccepted
  /\ http.Written (resp _ _ o)
     = http.Written w
       ++ [http.Text (B "The webhook notification has been processed successfully.")].
Proof.
  intros Hwf Hverify Hid Hjson Hcall o. subst o.
  rewrite (WebhookHandler_gates _ _ _ c handler now w r token payload Hwf). cbv zeta.
  rewrite Hverify, (proj2 (uuid_bytes_eqb _ _) Hid).
  cbn [negb]. rewrite Hjson, Hcall. repeat split.
Qed.
End HandlerFacts.

Lemma sample_request_well_formed :
  well_formed sample.request
    {| APIKeyID := sample.id; Timestamp := time.mkTime 1714564800000000000 10800;
       Signature := Signature sample.token |} sample.payload.
Proof.
  exists (B "Bearer " ++ sample.packed), (http.Reader sample.payload None),
         (http.Reader [] None).
  split; [vm_compute; reflexivity |].
  split; [apply Z.leb_le; vm_compute; reflexivity |].
  split; [vm_compute; reflexivity |].
  split; [intros H; vm_compute in H; discriminate H |].
  split; [vm_compute; reflexivity |].
  split; reflexivity.
Qed.

Lemma WebhookHandler_header_count_witness :
  http.Status (resp _ _ (WebhookHandler unit (fun _ => Ok tt) unit sample.client
                           (fun _ => None) sample.now sample.writer
                           {| http.Method := B "POST"; http.URL := B "/bank-transfers";
                              http.Header := ∅; http.ReqBody := Some http.NoBody |}))
  = Some http.StatusUnauthorized.
Proof.
  refine (proj1 (proj1 (proj2 (proj2 (WebhookHandler_header_count unit (fun _ => Ok tt) unit
            sample.client (fun _ => None) sample.now sample.writer
            {| http.Method := B "POST"; http.URL := B "/bank-transfers";
               http.Header := ∅; http.ReqBody := Some http.NoBody |} _))) _)).
  - vm_compute. discriminate.
  - reflexivity.
Defined.

Lemma WebhookHandler_rejects_unverified_witness :
  http.Status (resp _ _ (WebhookHandler unit (fun _ => Ok tt) unit sample.wrong_secret_client
                           (fun _ => None) sample.now sample.writer sample.request))
  = Some http.StatusForbidden.
Proof.
  refine (proj1 (proj2 (proj2 (WebhookHandler_rejects_unverified unit (fun _ => Ok tt) unit
            sample.wrong_secret_client (fun _ => None) sample.now sample.writer sample.request
            _ sample.payload ErrIllegalSignature sample_request_well_formed _)))).
  vm_compute. reflexivity.
Defined.

Lemma WebhookHandler_accepts_witness :
  calls _ _ (WebhookHandler unit (fun _ => Ok tt) unit sample.client (fun _ => None)
               sample.now sample.writer sample.request) = [tt].
Proof.
  refine (proj1 (proj2 (WebhookHandler_accepts unit (fun _ => Ok tt) unit sample.client
            (fun _ => None) sample.now sample.writer sample.request _ sample.payload tt
            sample_request_well_formed _ _ _ _))).
  - vm_compute. reflexivity.
  - reflexivity.
  - reflexivity.
  - reflexivity.
Defined.
(** * Further properties *)

(** ** The token on the wire *)

(** The RFC 3339 text of a time depends on its whole seconds only. *)
Lemma Format_whole_second (t : time.Time) :
  time.FormatRFC3339 (time.mkTime (time.ns t - time.ns t mod 1000000000) (time.off t))
  = time.FormatRFC3339 t.
Proof.
  unfold time.FormatRFC3339. cbn [time.ns time.off].
  replace ((time.ns t - time.ns t mod 1000000000) / 1000000000)
    with (time.ns t / 1000000000) by dlia.
  reflexivity.
Qed.

Lemma Year_whole_second (t : time.Time) :
  time.Year (time.mkTime (time.ns t - time.ns t mod 1000000000) (time.off t)) = time.Year t.
Proof.
  unfold time.Year. cbn [time.ns time.off].
  replace ((time.ns t - time.ns t mod 1000000000) / 1000000000)
    with (time.ns t / 1000000000) by dlia.
  reflexivity.
Qed.

(** [Parse] after [Format] cuts a time to its whole seconds. *)
Lemma Parse_Format_seconds (t : time.Time) :
  time.off t mod 60 = 0 -> -86400 < time.off t < 86400 ->
  0 <= time.Year t <= 9999 ->
  time.ParseRFC3339 (time.FormatRFC3339 t)
  = Some (time.mkTime (time.ns t - time.ns t mod 1000000000) (time.off t)).
Proof.
  intros Hoff60 Hoff Hyear.
  rewrite <- Format_whole_second. apply Parse_Format; cbn [time.ns time.off].
  - dlia.
  - exact Hoff60.
  - exact Hoff.
  - rewrite Year_whole_second. exact Hyear.
Qed.

(** [Unpack] after [Pack], for a timestamp with any fraction of a second. *)
Lemma Unpack_Pack_seconds (t r : BearerToken) :
  time.off (Timestamp t) mod 60 = 0 ->
  -86400 < time.off (Timestamp t) < 86400 ->
  0 <= time.Year (Timestamp t) <= 9999 ->
  (length (Signature t) <= 320)%nat ->
  Unpack r (fst (Pack t))
  = ({| APIKeyID := APIKeyID t;
        Timestamp := time.mkTime (time.ns (Timestamp t) - time.ns (Timestamp t) mod 1000000000)
                       (time.off (Timestamp t));
        Signature := Signature t |}, None).
Proof.
  intros Hoff60 Hoff Hyear Hsig.
  pose proof (Pack_fits t Hoff Hyear Hsig) as Hlen.
  destruct (Pack_ok t) as (buf & HM & HP & HB & HJ).
  rewrite HP in *. cbn [fst] in *.
  unfold Unpack, Unpack_with.
  destruct (Z.ltb_spec maxPackedLen (len (base64.EncodeToString buf))); [lia |].
  rewrite HB, HJ. unfold Pack_json. cbn [tj_APIKeyID tj_Timestamp tj_SigningAlgo tj_Signature].
  rewrite uuid_Parse_String, Parse_Format_seconds by assumption.
  rewrite algo_tag_ok. cbn [negb].
  rewrite hex_Decode_Encode. reflexivity.
Qed.

Lemma sign_length (t : BearerToken) (secret body : bytes) :
  length (sign t secret body) = 32%nat.
Proof.
  unfold sign. rewrite hmac_Sum_Write_Write. unfold HMAC_SHA256.
  apply sha256_facts.length_Sum256.
Qed.

Lemma sign_of_second (t u : BearerToken) (secret body : bytes) :
  time.ns (Timestamp t) / 1000000000 = time.ns (Timestamp u) / 1000000000 ->
  sign t secret body = sign u secret body.
Proof.
  intros H. unfold sign. do 2 f_equal. f_equal.
  unfold time.FormatRFC3339, time.UTC. cbn [time.ns time.off]. rewrite H. reflexivity.
Qed.

(** X5. The signature covers the timestamp to the second, in UTC, and
    nothing else of the token: two tokens whose timestamps lie in the
    same second have the same signature for a secret and a body, whatever
    their key identifiers, their zone offsets and the fractions of the
    second. *)
Theorem sign_same_second (t u : BearerToken) (secret body : bytes) :
  time.ns (Timestamp t) / 1000000000 = time.ns (Timestamp u) / 1000000000 ->
  sign t secret body = sign u secret body.
Proof. apply sign_of_second. Qed.

Lemma sign_same_second_witness :
  sign sample.token sample.secret sample.payload
  = sign {| APIKeyID := sample.other_id; Timestamp := time.mkTime 1714564800999999999 0;
            Signature := [] |} sample.secret sample.payload.
Proof.
  apply (sign_same_second sample.token
           {| APIKeyID := sample.other_id; Timestamp := time.mkTime 1714564800999999999 0;
              Signature := [] |} sample.secret sample.payload).
  reflexivity.
Defined.

(** X6. A token that [Sign] has signed survives the wire: [Pack] and then
    [Unpack] give the token back with its timestamp cut to the whole
    second and the same signature, and [Verify] accepts that token for
    the same secret and body exactly when its timestamp, so cut, is within
    the tolerance of the clock. *)
Theorem Sign_Pack_Unpack_Verify (now : time.Time) (t r : BearerToken) (secret body : bytes)
    (w : time.Duration) :
  time.off (Timestamp t) mod 60 = 0 ->
  -86400 < time.off (Timestamp t) < 86400 ->
  0 <= time.Year (Timestamp t) <= 9999 ->
  time.minInt64 < w <= time.maxInt64 ->
  let sent := fst (Sign t secret body) in
  let cut := time.ns (Timestamp t) - time.ns (Timestamp t) mod 1000000000 in
  let received := {| APIKeyID := APIKeyID t;
                     Timestamp := time.mkTime cut (time.off (Timestamp t));
                     Signature := Signature sent |} in
  Unpack r (fst (Pack sent)) = (received, None)
  /\ Signature received = sign received secret body
  /\ (Verify now received secret body w = None <-> Z.abs (time.ns now - cut) <= w)
  /\ (Verify now received secret body w = Some ErrIllegalTimestamp
      <-> w < Z.abs (time.ns now - cut)).
Proof.
  intros Hoff60 Hoff Hyear Hw sent cut received.
  assert (Hsig : Signature received = sign received secret body).
  { subst received sent. cbn [Signature Sign fst]. apply sign_of_second.
    cbn [Timestamp time.ns]. subst cut. dlia. }
  split.
  - subst received sent cut.
    rewrite (Unpack_Pack_seconds (fst (Sign t secret body)) r); cbn [Sign fst Timestamp Signature APIKeyID];
      try assumption; [reflexivity |].
    rewrite sign_length. lia.
  - split; [exact Hsig |].
    rewrite (Verify_valid_sig now received secret body w Hw Hsig).
    subst received. cbn [Timestamp time.ns].
    destruct (Z.leb_spec (time.ns now - w) cut); destruct (Z.leb_spec cut (time.ns now + w));
      cbn [andb]; split; split; intros; try discriminate; try reflexivity; lia.
Qed.

Lemma Sign_Pack_Unpack_Verify_witness :
  Verify (time.Add sample.now time.Minute)
    {| APIKeyID := sample.id; Timestamp := time.mkTime 1714564800000000000 10800;
       Signature := Signature sample.token |} sample.secret sample.payload (10 * time.Minute)
  = None.
Proof.
  refine (proj2 (proj1 (proj2 (proj2 (Sign_Pack_Unpack_Verify (time.Add sample.now time.Minute)
            {| APIKeyID := sample.id; Timestamp := sample.now; Signature := [] |}
            sample.zero sample.secret sample.payload (10 * time.Minute) _ _ _ _)))) _).
  - reflexivity.
  - cbn. lia.
  - split; apply Z.leb_le; vm_compute; reflexivity.
  - unfold time.minInt64, time.maxInt64, time.Minute, time.Second. lia.
  - apply Z.leb_le. vm_compute. reflexivity.
Defined.
(** ** The alphabet of a packed token *)

Lemma enc_alphabet (v : Z) : In (base64.enc v) base64.encodeURL.
Proof.
  unfold base64.enc.
  destruct (nth_in_or_default (Z.to_nat v) base64.encodeURL "A"%char) as [H | ->];
    [exact H | left; reflexivity].
Qed.

Lemma Encode_alphabet (l : bytes) :
  Forall (fun c => In c (base64.encodeURL ++ [base64.padChar])) (base64.EncodeToString l).
Proof.
  assert (He : forall v, In (base64.enc v) (base64.encodeURL ++ [base64.padChar]))
    by (intros v; apply in_or_app; left; apply enc_alphabet).
  assert (Hp : In base64.padChar (base64.encodeURL ++ [base64.padChar]))
    by (apply in_or_app; right; left; reflexivity).
  induction l as [| a | a b | a b c r IH] using list_ind3; cbn [base64.EncodeToString];
    repeat (constructor; [first [apply He | exact Hp] |]); first [constructor | exact IH].
Qed.

(** A byte that starts none of the sequences [sps] is not cut. *)
Lemma strip_space_head (sps : list bytes) (c : ascii) (r : bytes) :
  forallb (fun p => match p with
                    | a :: _ => negb (Ascii.eqb a c)
                    | [] => false
                    end) sps = true ->
  strings.strip_space sps (c :: r) = None.
Proof.
  induction sps as [|p sps IH]; [reflexivity |].
  cbn [forallb strings.strip_space]. intros H. apply andb_prop in H. destruct H as [Hp Hs].
  destruct p as [|a p]; [discriminate Hp |].
  cbn [strings.strip_prefix]. apply negb_true_iff in Hp. rewrite Hp. apply IH. exact Hs.
Qed.

Lemma alphabet_no_space :
  forallb (fun c =>
             forallb (fun p => match p with
                               | a :: _ => negb (Ascii.eqb a c)
                               | [] => false
                               end) strings.spaces
             && forallb (fun p => match p with
                                  | a :: _ => negb (Ascii.eqb a c)
                                  | [] => false
                                  end) (map (@rev ascii) strings.spaces))
    (base64.encodeURL ++ [base64.padChar]) = true.
Proof. vm_compute. reflexivity. Qed.

(** No byte of the alphabet starts or ends a white space. *)
Lemma strip_space_alphabet (c : ascii) (r : bytes) :
  In c (base64.encodeURL ++ [base64.padChar]) ->
  strings.strip_space strings.spaces (c :: r) = None
  /\ strings.strip_space (map (@rev ascii) strings.spaces) (c :: r) = None.
Proof.
  intros H. pose proof alphabet_no_space as HA.
  rewrite List.forallb_forall in HA. specialize (HA c H).
  apply andb_prop in HA. destruct HA as [H1 H2].
  split; apply strip_space_head; assumption.
Qed.

Lemma TrimSpace_unchanged (s : bytes) (c d : ascii) (r r' : bytes) :
  s = c :: r -> rev s = d :: r' ->
  strings.strip_space strings.spaces (c :: r) = None ->
  strings.strip_space (map (@rev ascii) strings.spaces) (d :: r') = None ->
  strings.TrimSpace s = s.
Proof.
  intros Hs Hr Hc Hd. unfold strings.TrimSpace.
  assert (HL : strings.TrimLeft (length s) s = s).
  { rewrite Hs. cbn [length strings.TrimLeft]. rewrite Hc. reflexivity. }
  rewrite HL.
  assert (HR : strings.TrimRight (length s) (rev s) = rev s).
  { rewrite Hr. rewrite Hs. cbn [length strings.TrimRight]. rewrite Hd. reflexivity. }
  rewrite HR. apply rev_involutive.
Qed.

Lemma TrimSpace_alphabet (s : bytes) :
  Forall (fun c => In c (base64.encodeURL ++ [base64.padChar])) s ->
  strings.TrimSpace s = s.
Proof.
  intros H. destruct s as [|c r]; [reflexivity |].
  destruct (rev (c :: r)) as [|d r'] eqn:Hr.
  { apply (f_equal (@length ascii)) in Hr. rewrite length_rev in Hr. discriminate Hr. }
  assert (Hd : In d (c :: r)) by (apply in_rev; rewrite Hr; left; reflexivity).
  rewrite List.Forall_forall in H.
  assert (Hc : In c (c :: r)) by (left; reflexivity).
  destruct (strip_space_alphabet c r (H c Hc)) as [H1 _].
  destruct (strip_space_alphabet d r' (H d Hd)) as [_ H2].
  exact (TrimSpace_unchanged (c :: r) c d r r' eq_refl Hr H1 H2).
Qed.

Lemma Pack_in_alphabet (t : BearerToken) :
  Forall (fun c => In c (base64.encodeURL ++ [base64.padChar])) (fst (Pack t))
  /\ 136 <= len (fst (Pack t)).
Proof.
  split.
  - destruct (Pack_ok t) as (buf & _ & -> & _). apply Encode_alphabet.
  - rewrite Pack_length. unfold len. dlia.
Qed.

(** X7. A packed token is made of the letters, the digits, [-], [_] and
    [=] alone, in groups of four, and is never empty: it holds no white
    space and nothing that a header or a URL would change, and
    [strings.TrimSpace] leaves it as it is. *)
Theorem Pack_alphabet (t : BearerToken) :
  let packed := fst (Pack t) in
  Forall (fun c => In c (base64.encodeURL ++ [base64.padChar])) packed
  /\ len packed mod 4 = 0
  /\ 136 <= len packed
  /\ strings.TrimSpace packed = packed.
Proof.
  intros packed. destruct (Pack_in_alphabet t) as [HF Hlen]. fold packed in HF, Hlen.
  split; [exact HF |].
  split; [| split; [exact Hlen | apply TrimSpace_alphabet; exact HF]].
  subst packed. rewrite Pack_length. dlia.
Qed.
(** ** The gates of the webhook handler *)

Lemma len_nil {A} (l : list A) : len l = 0 -> l = [].
Proof. destruct l; [reflexivity | unfold len; cbn; lia]. Qed.

Section HandlerGates.
Variable Transaction : Type.
Variable json_Unmarshal : bytes -> result json.error Transaction.
Variable HandlerError : Type.

Local Abbreviation Handler := (WebhookHandler Transaction json_Unmarshal HandlerError).

(** X8. A single [Authorization] header that is shorter than seven bytes
    once its white space is cut, that does not start with [Bearer ] in
    some case of the letters, or that holds nothing after it, is answered
    400, each with its text; the callback is not called. *)
Theorem WebhookHandler_header_form (c : Client)
    (handler : Transaction -> option HandlerError) (now : time.Time)
    (w : http.ResponseWriter (werror HandlerError)) (r : http.Request) (hdr0 : bytes) :
  http.Header_Values (http.Header r) (B "Authorization") = [hdr0] ->
  let hdr := strings.TrimSpace hdr0 in
  let short := len hdr < 7 in
  let scheme := strings.ToLower (firstn 7 hdr) = B "bearer " in
  let empty := strings.TrimSpace (skipn 7 hdr) = [] in
  short \/ ~ scheme \/ empty ->
  let o := Handler c handler now w r in
  ended _ _ o = Returned /\ calls _ _ o = []
  /\ http.Status (resp _ _ o) = Some http.StatusBadRequest
  /\ exists msg,
       http.Written (resp _ _ o) = http.Written w ++ [http.Text msg]
       /\ (short -> msg = B "Incomplete `Authorization` header.")
       /\ (~ short -> ~ scheme -> msg = B "Invalid `Authorization` token type.")
       /\ (~ short -> scheme -> empty -> msg = B "Missing bearer token.").
Proof.
  intros Hvals hdr short scheme empty Hbad o. subst o. unfold WebhookHandler.
  rewrite Hvals. fold hdr.
  destruct (Z.ltb_spec (len hdr) 7) as [Hs | Hs].
  { split; [reflexivity |]. split; [reflexivity |]. split; [reflexivity |].
    eexists. split; [reflexivity |]. split; [reflexivity |].
    split; intros H; contradiction. }
  unfold strings.bytes_eqb.
  destruct (bool_decide_reflect (strings.ToLower (firstn 7 hdr) = B "bearer "))
    as [Hb | Hb]; cbn [negb].
  2:{ split; [reflexivity |]. split; [reflexivity |]. split; [reflexivity |].
      eexists. split; [reflexivity |].
      split; [intros H; unfold short in H; lia |].
      split; [reflexivity | intros _ H; contradiction]. }
  destruct (Z.eqb_spec (len (strings.TrimSpace (skipn 7 hdr))) 0) as [H0 | H0].
  { split; [reflexivity |]. split; [reflexivity |]. split; [reflexivity |].
    eexists. split; [reflexivity |].
    split; [intros H; unfold short in H; lia |].
    split; [intros _ H; contradiction | reflexivity]. }
  exfalso. destruct Hbad as [H | [H | H]].
  - unfold short in H. lia.
  - contradiction.
  - unfold empty in H. rewrite H in H0. apply H0. reflexivity.
Qed.


(** X10. When the token unpacks and reading the body fails, the answer is
    500 with the error of the reader; the callback is not called. *)
Theorem WebhookHandler_body_error (c : Client)
    (handler : Transaction -> option HandlerError) (now : time.Time)
    (w : http.ResponseWriter (werror HandlerError)) (r : http.Request) (v : bytes)
    (data e : bytes) :
  bearer_header r v ->
  snd (Unpack zero_token v) = None ->
  http.ReqBody r = Some (http.Reader data (Some e)) ->
  let o := Handler c handler now w r in
  ended _ _ o = Returned /\ calls _ _ o = []
  /\ http.Status (resp _ _ o) = Some http.StatusInternalServerError
  /\ http.Written (resp _ _ o)
     = http.Written w
       ++ [http.TextErr (B "Unable to read request body: ") (WToken _ (ErrRead e))].
Proof.
  intros (hdr0 & Hvals & Hlen & Hbearer & Hv & Hne) Hun Hbody o. subst o.
  unfold WebhookHandler. rewrite Hvals.
  destruct (Z.ltb_spec (len (strings.TrimSpace hdr0)) 7); [lia |].
  rewrite Hbearer. change (negb (strings.bytes_eqb (B "bearer ") (B "bearer "))) with false.
  cbv iota. rewrite <- Hv.
  destruct (Z.eqb_spec (len v) 0) as [H0 | _]; [apply len_nil in H0; contradiction |].
  unfold zero_token in Hun.
  destruct (Unpack _ v) as [token [e' |]]; cbn [snd] in Hun; [discriminate Hun |].
  rewrite Hbody. cbn [http.ReadAll]. repeat split.
Qed.

(** X11. A verified request of the client's own key whose payload does not
    parse is answered 400 with the error of the parser; the callback is
    not called. *)
Theorem WebhookHandler_bad_payload (c : Client)
    (handler : Transaction -> option HandlerError) (now : time.Time)
    (w : http.ResponseWriter (werror HandlerError)) (r : http.Request)
    (token : BearerToken) (payload : bytes) (e : json.error) :
  well_formed r token payload ->
  Verify now token (keySec c) payload (maxTimeDiff c) = None ->
  APIKeyID token = keyID c ->
  json_Unmarshal payload = Err e ->
  let o := Handler c handler now w r in
  ended _ _ o = Returned /\ calls _ _ o = []
  /\ http.Status (resp _ _ o) = Some http.StatusBadRequest
  /\ http.Written (resp _ _ o)
     = http.Written w ++ [http.TextErr (B "Invalid request payload: ") (WJSON _ e)].
Proof.
  intros Hwf Hverify Hid Hjson o. subst o.
  rewrite (WebhookHandler_gates _ _ _ c handler now w r token payload Hwf). cbv zeta.
  rewrite Hverify, (proj2 (uuid_bytes_eqb _ _) Hid).
  cbn [negb]. rewrite Hjson. repeat split.
Qed.

(** X12. A verified request of the client's own key whose payload parses
    and whose callback returns an error is answered 500 with that error;
    the callback has been called once, with the parsed payload. *)
Theorem WebhookHandler_callback_error (c : Client)
    (handler : Transaction -> option HandlerError) (now : time.Time)
    (w : http.ResponseWriter (werror HandlerError)) (r : http.Request)
    (token : BearerToken) (payload : bytes) (trx : Transaction) (e : HandlerError) :
  well_formed r token payload ->
  Verify now token (keySec c) payload (maxTimeDiff c) = None ->
  APIKeyID token = keyID c ->
  json_Unmarshal payload = Ok trx ->
  handler trx = Some e ->
  let o := Handler c handler now w r in
  ended _ _ o = Returned /\ calls _ _ o = [trx]
  /\ http.Status (resp _ _ o) = Some http.StatusInternalServerError
  /\ http.Written (resp _ _ o)
     = http.Written w
       ++ [http.TextErr (B "An error occurred while processing the webhook notification: ")
             (WHandler _ e)].
Proof.
  intros Hwf Hverify Hid Hjson Hcall o. subst o.
  rewrite (WebhookHandler_gates _ _ _ c handler now w r token payload Hwf). cbv zeta.
  rewrite Hverify, (proj2 (uuid_bytes_eqb _ _) Hid).
  cbn [negb]. rewrite Hjson, Hcall. repeat split.
Qed.

(** Every request either passes all the gates before [Verify] or is
    answered by one of them. *)
Lemma WebhookHandler_early (c : Client)
    (handler : Transaction -> option HandlerError) (now : time.Time)
    (w : http.ResponseWriter (werror HandlerError)) (r : http.Request) :
  (exists token payload, well_formed r token payload)
  \/ (http.ReqBody r = None
      /\ Handler c handler now w r
         = mkOutcome _ _ (http.SetHeader w (B "Content-Type") (B "text/plain")) [] Panicked)
  \/ (exists code t,
         In code [http.StatusUnauthorized; http.StatusBadRequest;
                  http.StatusInternalServerError]
         /\ Handler c handler now w r
            = reply _ _ (http.SetHeader w (B "Content-Type") (B "text/plain")) code t).
Proof.
  unfold WebhookHandler. cbv zeta.
  destruct (http.Header_Values (http.Header r) (B "Authorization")) as [|hdr0 [|h1 hs]] eqn:Hvals.
  { right. right. do 2 eexists. split; [| reflexivity]. cbn. tauto. }
  2:{ right. right. do 2 eexists. split; [| reflexivity]. cbn. tauto. }
  destruct (Z.ltb_spec (len (strings.TrimSpace hdr0)) 7) as [Hs | Hs].
  { right. right. do 2 eexists. split; [| reflexivity]. cbn. tauto. }
  destruct (strings.bytes_eqb (strings.ToLower (firstn 7 (strings.TrimSpace hdr0)))
              (B "bearer ")) eqn:Hb; cbn [negb].
  2:{ right. right. do 2 eexists. split; [| reflexivity]. cbn. tauto. }
  apply bool_decide_eq_true in Hb.
  destruct (Z.eqb_spec (len (strings.TrimSpace (skipn 7 (strings.TrimSpace hdr0)))) 0)
    as [H0 | H0].
  { right. right. do 2 eexists. split; [| reflexivity]. cbn. tauto. }
  destruct (Unpack _ (strings.TrimSpace (skipn 7 (strings.TrimSpace hdr0))))
    as [token [err |]] eqn:EU.
  { right. right. do 2 eexists. split; [| reflexivity]. cbn. tauto. }
  destruct (http.ReqBody r) as [body |] eqn:Hbody.
  2:{ right. left. split; reflexivity. }
  destruct (http.ReadAll body) as [[payload [e |]] rest] eqn:ER.
  { right. right. do 2 eexists. split; [| reflexivity]. cbn. tauto. }
  left. exists token, payload, hdr0, body, rest.
  split; [exact Hvals |]. split; [exact Hs |]. split; [exact Hb |].
  split; [intros H; rewrite H in H0; apply H0; reflexivity |].
  split; [exact EU |]. split; [exact Hbody | exact ER].
Qed.


(** X14. The shape of every answer.  The handler sets [Content-Type] to
    [text/plain] and no other header.  When it returns it has set one of
    the statuses 202, 400, 401, 403 and 500 and written one text, and
    the status is 202 exactly when the callback was called and returned
    no error.  When it panics it has written no text and has not called
    the callback. *)
Theorem WebhookHandler_response (c : Client)
    (handler : Transaction -> option HandlerError) (now : time.Time)
    (w : http.ResponseWriter (werror HandlerError)) (r : http.Request) :
  let o := Handler c handler now w r in
  http.RespHeader (resp _ _ o) !! B "Content-Type" = Some [B "text/plain"]
  /\ (forall k, k <> B "Content-Type" ->
                http.RespHeader (resp _ _ o) !! k = http.RespHeader w !! k)
  /\ match ended _ _ o with
     | Returned =>
         exists code t,
           http.Status (resp _ _ o) = Some code
           /\ In code [http.StatusAccepted; http.StatusBadRequest; http.StatusUnauthorized;
                       http.StatusForbidden; http.StatusInternalServerError]
           /\ http.Written (resp _ _ o) = http.Written w ++ [t]
           /\ (code = http.StatusAccepted
               <-> exists trx, calls _ _ o = [trx] /\ handler trx = None)
     | Panicked => http.Written (resp _ _ o) = http.Written w /\ calls _ _ o = []
     end.
Proof.
  intros o. subst o.
  assert (Hh : http.RespHeader (http.SetHeader w (B "Content-Type") (B "text/plain"))
                 !! B "Content-Type" = Some [B "text/plain"])
    by apply lookup_insert_eq.
  assert (Hk : forall k, k <> B "Content-Type" ->
               http.RespHeader (http.SetHeader w (B "Content-Type") (B "text/plain")) !! k
               = http.RespHeader w !! k)
    by (intros k Hne; apply lookup_insert_ne; congruence).
  assert (Hreply : forall code t,
            In code [http.StatusBadRequest; http.StatusUnauthorized;
                     http.StatusForbidden; http.StatusInternalServerError] ->
            exists code' t',
              Some code = Some code'
              /\ In code' [http.StatusAccepted; http.StatusBadRequest; http.StatusUnauthorized;
                           http.StatusForbidden; http.StatusInternalServerError]
              /\ http.Written w ++ [t] = http.Written w ++ [t']
              /\ (code' = http.StatusAccepted
                  <-> exists trx : Transaction, [] = [trx] /\ handler trx = None)).
  { intros code t Hin. exists code, t. split; [reflexivity |].
    split; [right; exact Hin |]. split; [reflexivity |].
    split.
    - intros ->. cbn in Hin. unfold http.StatusAccepted, http.StatusBadRequest,
        http.StatusUnauthorized, http.StatusForbidden, http.StatusInternalServerError in Hin.
      lia.
    - intros (trx & Hc & _). discriminate Hc. }
  destruct (WebhookHandler_early c handler now w r)
    as [(token & payload & Hwf) | [(_ & ->) | (code & t & Hin & ->)]].
  2:{ split; [exact Hh |]. split; [exact Hk |]. split; reflexivity. }
  2:{ split; [exact Hh |]. split; [exact Hk |]. cbn [ended reply resp calls].
      apply Hreply. cbn in Hin |- *. tauto. }
  rewrite (WebhookHandler_gates _ _ _ c handler now w r token payload Hwf). cbv zeta.
  destruct (Verify now token (keySec c) payload (maxTimeDiff c)) as [verr |].
  { split; [exact Hh |]. split; [exact Hk |]. apply Hreply. cbn. tauto. }
  destruct (negb _).
  { split; [exact Hh |]. split; [exact Hk |]. split; reflexivity. }
  destruct (json_Unmarshal payload) as [trx | e].
  2:{ split; [exact Hh |]. split; [exact Hk |]. apply Hreply. cbn. tauto. }
  destruct (handler trx) as [e |] eqn:Hcall.
  - split; [exact Hh |]. split; [exact Hk |]. cbn [ended resp calls].
    do 2 eexists. split; [reflexivity |]. split; [cbn; tauto |]. split; [reflexivity |].
    split.
    + intros H. unfold http.StatusAccepted, http.StatusInternalServerError in H. lia.
    + intros (trx' & Hc & Hn). injection Hc as <-. rewrite Hcall in Hn. discriminate Hn.
  - split; [exact Hh |]. split; [exact Hk |]. cbn [ended resp calls].
    do 2 eexists. split; [reflexivity |]. split; [cbn; tauto |]. split; [reflexivity |].
    split; [| reflexivity]. intros _. exists trx. split; [reflexivity | exact Hcall].
Qed.
End HandlerGates.
(** ** From Client.sign to the webhook handler *)

(** [Client.sign] on a request whose body can be read. *)
Lemma Client_sign_ok (c : Client) (now : time.Time) (req : http.Request) :
  match http.ReqBody req with
  | Some (http.Reader _ (Some _)) => False
  | _ => True
  end ->
  Client_sign c now req =
    ({| http.Method := http.Method req;
        http.URL := http.URL req;
        http.Header :=
          <[B "Authorization" :=
              [B "Bearer " ++
               fst (Pack (fst (Sign {| APIKeyID := keyID c; Timestamp := now; Signature := [] |}
                                 (keySec c) (body_bytes (http.ReqBody req)))))]]>
            (http.Header req);
        http.ReqBody := match http.ReqBody req with
                        | Some (http.Reader data _) => Some (http.Reader data None)
                        | other => other
                        end |}, None).
Proof.
  intros Hb. unfold Client_sign, Sign.
  destruct (http.ReqBody req) as [[|data [e|]]|]; try contradiction;
    cbn [http.ReadAll body_bytes fst snd http.Method http.URL http.Header http.ReqBody
         http.NewBuffer];
    rewrite Pack_None; reflexivity.
Qed.

(** The header that [Client.sign] sets has the form that the handler
    asks for. *)
Lemma bearer_header_Pack (r : http.Request) (t : BearerToken) :
  http.Header r !! B "Authorization" = Some [B "Bearer " ++ fst (Pack t)] ->
  bearer_header r (fst (Pack t)).
Proof.
  intros Hh. destruct (Pack_in_alphabet t) as [HF Hlen].
  set (packed := fst (Pack t)) in *.
  assert (Hne : packed <> []) by (intros E; rewrite E in Hlen; unfold len in Hlen; cbn in Hlen; lia).
  assert (HT : strings.TrimSpace (B "Bearer " ++ packed) = B "Bearer " ++ packed).
  { destruct (rev packed) as [|d r'] eqn:Hr.
    { apply (f_equal (@rev ascii)) in Hr. rewrite rev_involutive in Hr. contradiction. }
    assert (Hd : In d packed) by (apply in_rev; rewrite Hr; left; reflexivity).
    rewrite List.Forall_forall in HF.
    destruct (strip_space_alphabet d (r' ++ rev (B "Bearer ")) (HF d Hd)) as [_ H2].
    refine (TrimSpace_unchanged (B "Bearer " ++ packed) "B"%char d (B "earer " ++ packed)
              (r' ++ rev (B "Bearer ")) eq_refl _ _ H2).
    - rewrite rev_app_distr, Hr. reflexivity.
    - reflexivity. }
  exists (B "Bearer " ++ packed).
  split; [unfold http.Header_Values; rewrite Hh; reflexivity |].
  rewrite HT.
  split; [unfold len in *; rewrite length_app; cbn [length list_ascii_of_string]; lia |].
  split; [reflexivity |].
  split; [| exact Hne].
  change (skipn 7 (B "Bearer " ++ packed)) with packed.
  symmetry. apply TrimSpace_alphabet. exact HF.
Qed.

Section EndToEnd.
Variable Transaction : Type.
Variable json_Unmarshal : bytes -> result json.error Transaction.
Variable HandlerError : Type.

Local Abbreviation Handler := (WebhookHandler Transaction json_Unmarshal HandlerError).

(** The request that [Client.sign] has signed passes the gates of the
    handler up to [Verify], with the token cut to the second. *)
Lemma signed_well_formed (c : Client) (t0 : time.Time) (req : http.Request) (body : http.Body) :
  time.off t0 mod 60 = 0 -> -86400 < time.off t0 < 86400 -> 0 <= time.Year t0 <= 9999 ->
  http.ReqBody req = Some body ->
  match body with http.Reader _ (Some _) => False | _ => True end ->
  let payload := body_bytes (Some body) in
  snd (Client_sign c t0 req) = None
  /\ well_formed (fst (Client_sign c t0 req))
       {| APIKeyID := keyID c;
          Timestamp := time.mkTime (time.ns t0 - time.ns t0 mod 1000000000) (time.off t0);
          Signature := sign {| APIKeyID := keyID c; Timestamp := t0; Signature := [] |}
                         (keySec c) payload |}
       payload.
Proof.
  intros Hoff60 Hoff Hyear Hbody Hread payload.
  rewrite Client_sign_ok by (rewrite Hbody; exact Hread).
  cbn [fst snd]. split; [reflexivity |].
  rewrite Hbody. fold payload.
  set (token := fst (Sign {| APIKeyID := keyID c; Timestamp := t0; Signature := [] |}
                       (keySec c) payload)).
  set (r := http.mkRequest _ _ _ _).
  assert (Hh : http.Header r !! B "Authorization" = Some [B "Bearer " ++ fst (Pack token)])
    by apply lookup_insert_eq.
  destruct (bearer_header_Pack r token Hh) as (hdr0 & Hvals & Hlen & Hb & Hv & Hne).
  exists hdr0.
  exists (match body with http.Reader data _ => http.Reader data None | other => other end).
  exists (match body with http.Reader _ _ => http.Reader [] None | other => other end).
  split; [exact Hvals |]. split; [exact Hlen |]. split; [exact Hb |].
  rewrite <- Hv. split; [exact Hne |].
  split.
  - rewrite (Unpack_Pack_seconds token); subst token; cbn [Sign fst Timestamp Signature APIKeyID];
      try assumption; [reflexivity |].
    rewrite sign_length. lia.
  - subst r payload. cbn [http.ReqBody].
    destruct body as [|data [e|]]; [| contradiction |]; split; reflexivity.
Qed.

(** X15. A request that [Client.sign] has signed at the time [t0] and that
    reaches, as it was signed, the handler of a client with the same key
    identifier and secret at the time [now]: when [now] is within the
    client's tolerance of [t0] cut to the whole second, and the body
    parses and the callback succeeds, the answer is 202 and the callback
    has been called with the parsed body; when it is further away, the
    answer is 403 with the timestamp error. *)
Theorem WebhookHandler_accepts_signed (c : Client)
    (handler : Transaction -> option HandlerError) (t0 now : time.Time)
    (w : http.ResponseWriter (werror HandlerError)) (req : http.Request) (body : http.Body) :
  time.off t0 mod 60 = 0 -> -86400 < time.off t0 < 86400 -> 0 <= time.Year t0 <= 9999 ->
  time.minInt64 < maxTimeDiff c <= time.maxInt64 ->
  http.ReqBody req = Some body ->
  match body with http.Reader _ (Some _) => False | _ => True end ->
  let payload := body_bytes (Some body) in
  let signed := Client_sign c t0 req in
  let age := Z.abs (time.ns now - (time.ns t0 - time.ns t0 mod 1000000000)) in
  let o := Handler c handler now w (fst signed) in
  snd signed = None
  /\ (maxTimeDiff c < age ->
      ended _ _ o = Returned /\ calls _ _ o = []
      /\ http.Status (resp _ _ o) = Some http.StatusForbidden
      /\ http.Written (resp _ _ o)
         = http.Written w ++ [http.TextErr (B "Unable to verify the request signature: ")
                                (WToken _ ErrIllegalTimestamp)])
  /\ (age <= maxTimeDiff c ->
      forall trx, json_Unmarshal payload = Ok trx -> handler trx = None ->
      ended _ _ o = Returned /\ calls _ _ o = [trx]
      /\ http.Status (resp _ _ o) = Some http.StatusAccepted
      /\ http.Written (resp _ _ o)
         = http.Written w
           ++ [http.Text (B "The webhook notification has been processed successfully.")]).
Proof.
  intros Hoff60 Hoff Hyear Hw Hbody Hread payload signed age o.
  destruct (signed_well_formed c t0 req body Hoff60 Hoff Hyear Hbody Hread) as [Herr Hwf].
  fold payload in Hwf. fold signed in Herr, Hwf.
  split; [exact Herr |].
  set (received := {| APIKeyID := keyID c;
                      Timestamp := time.mkTime (time.ns t0 - time.ns t0 mod 1000000000)
                                     (time.off t0);
                      Signature := sign {| APIKeyID := keyID c; Timestamp := t0;
                                           Signature := [] |} (keySec c) payload |}) in *.
  assert (Hsig : Signature received = sign received (keySec c) payload).
  { subst received. cbn [Signature]. apply sign_of_second. cbn [Timestamp time.ns]. dlia. }
  pose proof (Verify_valid_sig now received (keySec c) payload (maxTimeDiff c) Hw Hsig) as HV.
  cbn [received Timestamp time.ns] in HV.
  subst o. rewrite (WebhookHandler_gates _ _ _ c handler now w _ received payload Hwf).
  cbv zeta. rewrite HV.
  destruct (Z.leb_spec (time.ns now - maxTimeDiff c) (time.ns t0 - time.ns t0 mod 1000000000));
    destruct (Z.leb_spec (time.ns t0 - time.ns t0 mod 1000000000) (time.ns now + maxTimeDiff c));
    cbn [andb]; (split; [intros Hage | intros Hage trx Hjson Hcall]);
    try (exfalso; subst age; lia); try (repeat split; fail).
  rewrite (proj2 (uuid_bytes_eqb (APIKeyID received) (keyID c)) eq_refl).
  cbn [negb]. rewrite Hjson, Hcall. repeat split.
Qed.
End EndToEnd.
(** ** The gates on sample requests *)

Lemma WebhookHandler_header_form_witness :
  http.Status (resp _ _ (WebhookHandler unit (fun _ => Ok tt) unit sample.client
                           (fun _ => None) sample.now sample.writer
                           {| http.Method := B "POST"; http.URL := B "/bank-transfers";
                              http.Header := {[ B "Authorization" := [B "Basic dXNlcjpwYXNz"] ]};
                              http.ReqBody := Some http.NoBody |}))
  = Some http.StatusBadRequest.
Proof.
  refine (proj1 (proj2 (proj2 (WebhookHandler_header_form unit (fun _ => Ok tt) unit
            sample.client (fun _ => None) sample.now sample.writer
            {| http.Method := B "POST"; http.URL := B "/bank-transfers";
               http.Header := {[ B "Authorization" := [B "Basic dXNlcjpwYXNz"] ]};
               http.ReqBody := Some http.NoBody |} (B "Basic dXNlcjpwYXNz") _ _)))).
  - vm_compute. reflexivity.
  - right. left. intros H. vm_compute in H. discriminate H.
Defined.


Lemma sample_bearer_header (body : option http.Body) :
  bearer_header {| http.Method := B "POST"; http.URL := B "/bank-transfers";
                   http.Header := {[ B "Authorization" := [B "Bearer " ++ sample.packed] ]};
                   http.ReqBody := body |} sample.packed.
Proof.
  exists (B "Bearer " ++ sample.packed).
  split; [vm_compute; reflexivity |].
  split; [apply Z.leb_le; vm_compute; reflexivity |].
  split; [vm_compute; reflexivity |].
  split; [vm_compute; reflexivity |].
  intros H. vm_compute in H. discriminate H.
Qed.

Lemma WebhookHandler_body_error_witness :
  http.Status (resp _ _ (WebhookHandler unit (fun _ => Ok tt) unit sample.client
                           (fun _ => None) sample.now sample.writer
                           {| http.Method := B "POST"; http.URL := B "/bank-transfers";
                              http.Header :=
                                {[ B "Authorization" := [B "Bearer " ++ sample.packed] ]};
                              http.ReqBody :=
                                Some (http.Reader (B "{") (Some (B "unexpected EOF"))) |}))
  = Some http.StatusInternalServerError.
Proof.
  refine (proj1 (proj2 (proj2 (WebhookHandler_body_error unit (fun _ => Ok tt) unit
            sample.client (fun _ => None) sample.now sample.writer _ sample.packed
            (B "{") (B "unexpected EOF") (sample_bearer_header _) _ _)))).
  - vm_compute. reflexivity.
  - reflexivity.
Defined.

Lemma WebhookHandler_bad_payload_witness :
  http.Status (resp _ _ (WebhookHandler unit (fun _ => Err json.UnmarshalTypeError) unit
                           sample.client (fun _ => None) sample.now sample.writer
                           sample.request))
  = Some http.StatusBadRequest.
Proof.
  refine (proj1 (proj2 (proj2 (WebhookHandler_bad_payload unit
            (fun _ => Err json.UnmarshalTypeError) unit sample.client (fun _ => None)
            sample.now sample.writer sample.request _ sample.payload json.UnmarshalTypeError
            sample_request_well_formed _ _ _)))).
  - vm_compute. reflexivity.
  - reflexivity.
  - reflexivity.
Defined.

Lemma WebhookHandler_callback_error_witness :
  calls _ _ (WebhookHandler unit (fun _ => Ok tt) bytes sample.client
               (fun _ => Some (B "ledger is closed")) sample.now sample.writer sample.request)
  = [tt].
Proof.
  refine (proj1 (proj2 (WebhookHandler_callback_error unit (fun _ => Ok tt) bytes sample.client
            (fun _ => Some (B "ledger is closed")) sample.now sample.writer sample.request
            _ sample.payload tt (B "ledger is closed") sample_request_well_formed _ _ _ _))).
  - vm_compute. reflexivity.
  - reflexivity.
  - reflexivity.
  - reflexivity.
Defined.

Lemma WebhookHandler_accepts_signed_witness :
  calls _ _ (WebhookHandler unit (fun _ => Ok tt) unit sample.client (fun _ => None)
               (time.Add sample.now (5 * time.Minute)) sample.writer
               (fst (Client_sign sample.client sample.now
                       {| http.Method := B "POST"; http.URL := B "/bank-transfers";
                          http.Header := {[ B "Content-Type" := [B "application/json"] ]};
                          http.ReqBody := Some (http.Reader sample.payload None) |})))
  = [tt].
Proof.
  refine (proj1 (proj2 (proj2 (proj2 (WebhookHandler_accepts_signed unit (fun _ => Ok tt) unit
            sample.client (fun _ => None) sample.now (time.Add sample.now (5 * time.Minute))
            sample.writer
            {| http.Method := B "POST"; http.URL := B "/bank-transfers";
               http.Header := {[ B "Content-Type" := [B "application/json"] ]};
               http.ReqBody := Some (http.Reader sample.payload None) |}
            (http.Reader sample.payload None) _ _ _ _ _ _)) _ tt _ _))).
  - reflexivity.
  - cbn. lia.
  - split; apply Z.leb_le; vm_compute; reflexivity.
  - split; [apply Z.ltb_lt | apply Z.leb_le]; vm_compute; reflexivity.
  - reflexivity.
  - exact I.
  - apply Z.leb_le. vm_compute. reflexivity.
  - reflexivity.
  - reflexivity.
Defined.
(** ** Query strings *)

Lemma escape_byte (c : ascii) (r : bytes) :
  url.bad_escape (url.QueryEscape [c] ++ r) = url.bad_escape r
  /\ url.unescaped (url.QueryEscape [c] ++ r) = c :: url.unescaped r.
Proof. each_byte c; split; reflexivity. Qed.

Lemma QueryEscape_cons (c : ascii) (s : bytes) :
  url.QueryEscape (c :: s) = url.QueryEscape [c] ++ url.QueryEscape s.
Proof. cbn [url.QueryEscape]. rewrite app_nil_r. reflexivity. Qed.

(** [QueryUnescape] undoes [QueryEscape]. *)
Lemma QueryUnescape_QueryEscape (s : bytes) :
  url.QueryUnescape (url.QueryEscape s) = Ok s.
Proof.
  unfold url.QueryUnescape.
  assert (H : url.bad_escape (url.QueryEscape s) = None
              /\ url.unescaped (url.QueryEscape s) = s).
  { induction s as [|c s [IH1 IH2]]; [split; reflexivity |].
    rewrite QueryEscape_cons. destruct (escape_byte c (url.QueryEscape s)) as [H1 H2].
    rewrite H1, H2, IH1, IH2. split; reflexivity. }
  destruct H as [-> ->]. reflexivity.
Qed.

Lemma QueryEscape_no_separator (s : bytes) :
  forallb (fun c => negb (separator c)) (url.QueryEscape s) = true.
Proof.
  induction s as [|c s IH]; [reflexivity |].
  rewrite QueryEscape_cons, forallb_app, IH, andb_true_r.
  each_byte c; reflexivity.
Qed.

Lemma Cut_found (a b : bytes) (sep : ascii) :
  forallb (fun c => negb (Ascii.eqb c sep)) a = true ->
  url.Cut (a ++ sep :: b) sep = (a, b, true).
Proof.
  induction a as [|c a IH]; cbn [app url.Cut forallb]; intros H.
  - rewrite Ascii.eqb_refl. reflexivity.
  - apply andb_prop in H. destruct H as [Hc Ha]. apply negb_true_iff in Hc.
    rewrite Hc, (IH Ha). reflexivity.
Qed.

Lemma Cut_not_found (a : bytes) (sep : ascii) :
  forallb (fun c => negb (Ascii.eqb c sep)) a = true ->
  url.Cut a sep = (a, [], false).
Proof.
  induction a as [|c a IH]; cbn [url.Cut forallb]; intros H; [reflexivity |].
  apply andb_prop in H. destruct H as [Hc Ha]. apply negb_true_iff in Hc.
  rewrite Hc, (IH Ha). reflexivity.
Qed.

Lemma no_separator (s : bytes) (sep : ascii) :
  separator sep = true ->
  forallb (fun c => negb (separator c)) s = true ->
  forallb (fun c => negb (Ascii.eqb c sep)) s = true.
Proof.
  intros Hsep H. rewrite List.forallb_forall in *. intros c Hc. specialize (H c Hc).
  destruct (Ascii.eqb_spec c sep) as [-> |]; [| reflexivity].
  rewrite Hsep in H. discriminate H.
Qed.

Lemma Contains_false (s : bytes) (sep : ascii) :
  forallb (fun c => negb (Ascii.eqb c sep)) s = true -> url.Contains s sep = false.
Proof.
  unfold url.Contains. induction s as [|c s IH]; cbn [forallb existsb]; intros H; [reflexivity |].
  apply andb_prop in H. destruct H as [Hc Hs]. apply negb_true_iff in Hc.
  rewrite Ascii.eqb_sym, Hc, (IH Hs). reflexivity.
Qed.

(** One round of the loop of [parseQuery] on a pair that [Encode] wrote. *)
Lemma encoded_pair_facts (p : bytes * bytes) :
  url.Contains (encoded_pair p) ";" = false
  /\ encoded_pair p <> []
  /\ url.Cut (encoded_pair p) "=" = (url.QueryEscape (fst p), url.QueryEscape (snd p), true)
  /\ forallb (fun c => negb (Ascii.eqb c "&")) (encoded_pair p) = true.
Proof.
  pose proof (QueryEscape_no_separator (fst p)) as Hk.
  pose proof (QueryEscape_no_separator (snd p)) as Hv.
  unfold encoded_pair. split; [| split; [| split]].
  - apply Contains_false. rewrite !forallb_app.
    rewrite (no_separator _ ";" eq_refl Hk), (no_separator _ ";" eq_refl Hv). reflexivity.
  - intros H. apply (f_equal (@length ascii)) in H. rewrite !length_app in H. cbn in H. lia.
  - apply Cut_found. apply (no_separator _ "=" eq_refl Hk).
  - rewrite !forallb_app.
    rewrite (no_separator _ "&" eq_refl Hk), (no_separator _ "&" eq_refl Hv). reflexivity.
Qed.

Lemma parseQuery_nil (fuel : nat) (m : url.Values) (err : option url.error) :
  url.parseQuery fuel m err [] = (m, err).
Proof. destruct fuel; reflexivity. Qed.

Lemma parseQuery_pair_more (fuel : nat) (m : url.Values) (err : option url.error)
    (p : bytes * bytes) (rest : bytes) :
  url.parseQuery (S fuel) m err (encoded_pair p ++ "&"%char :: rest)
  = url.parseQuery fuel (url.Values_Add m (fst p) (snd p)) err rest.
Proof.
  destruct (encoded_pair_facts p) as (Hsemi & Hnonempty & Hcut & Hamp).
  cbn [url.parseQuery].
  destruct (encoded_pair p ++ "&"%char :: rest) as [|c q] eqn:Hq.
  { destruct (encoded_pair p); discriminate Hq. }
  rewrite <- Hq. rewrite (Cut_found _ _ _ Hamp), Hsemi.
  destruct (bool_decide_reflect (encoded_pair p = [])) as [E0 | _]; [contradiction |].
  rewrite Hcut, !QueryUnescape_QueryEscape. reflexivity.
Qed.

Lemma parseQuery_pair_last (fuel : nat) (m : url.Values) (err : option url.error)
    (p : bytes * bytes) :
  url.parseQuery (S fuel) m err (encoded_pair p)
  = (url.Values_Add m (fst p) (snd p), err).
Proof.
  destruct (encoded_pair_facts p) as (Hsemi & Hnonempty & Hcut & Hamp).
  cbn [url.parseQuery].
  destruct (encoded_pair p) as [|c q] eqn:Hq; [contradiction |].
  rewrite <- Hq in *. rewrite (Cut_not_found _ _ Hamp), Hsemi.
  destruct (bool_decide_reflect (encoded_pair p = [])) as [E0 | _]; [contradiction |].
  rewrite Hcut, !QueryUnescape_QueryEscape. apply parseQuery_nil.
Qed.

(** [parseQuery] reads the pairs that [Encode] joined, one after the
    other. *)
Lemma parseQuery_joined (ps : list (bytes * bytes)) :
  forall (fuel : nat) (m : url.Values) (err : option url.error),
  (length (joined ps) <= fuel)%nat ->
  url.parseQuery fuel m err (joined ps)
  = (fold_left (fun m p => url.Values_Add m (fst p) (snd p)) ps m, err).
Proof.
  induction ps as [|p ps IH]; intros fuel m err Hfuel; [apply parseQuery_nil |].
  destruct (encoded_pair_facts p) as (_ & Hnonempty & _).
  assert (Hlen : (0 < length (encoded_pair p))%nat)
    by (destruct (encoded_pair p); [contradiction | cbn; lia]).
  destruct ps as [|p' ps].
  - cbn [joined] in *. destruct fuel as [|fuel]; [lia |].
    rewrite parseQuery_pair_last. reflexivity.
  - change (joined (p :: p' :: ps)) with (encoded_pair p ++ "&"%char :: joined (p' :: ps)) in *.
    rewrite length_app in Hfuel. cbn [length] in Hfuel.
    destruct fuel as [|fuel]; [lia |].
    rewrite parseQuery_pair_more. cbn [fold_left]. apply IH. lia.
Qed.

(** [Encode] writes the pairs of the map, joined. *)
Lemma write_pairs (ps : list (bytes * bytes)) : forall buf : bytes,
  fold_left (fun buf p => (if 0 <? len buf then buf ++ B "&" else buf) ++ encoded_pair p) ps buf
  = match ps with
    | [] => buf
    | _ => (if 0 <? len buf then buf ++ B "&" else buf) ++ joined ps
    end.
Proof.
  induction ps as [|p ps IH]; intros buf; [reflexivity |].
  cbn [fold_left]. rewrite IH. destruct ps as [|p' ps]; [reflexivity |].
  destruct (encoded_pair_facts p) as (_ & Hnonempty & _).
  assert (Hpos : (0 <? len ((if 0 <? len buf then buf ++ B "&" else buf) ++ encoded_pair p))
                 = true).
  { apply Z.ltb_lt. unfold len. rewrite length_app.
    destruct (encoded_pair p); [contradiction | cbn; lia]. }
  rewrite Hpos. change (joined (p :: p' :: ps)) with (encoded_pair p ++ B "&" ++ joined (p' :: ps)).
  rewrite <- !app_assoc. reflexivity.
Qed.

Lemma Encode_fold (v : url.Values) (keys : list bytes) : forall buf : bytes,
  fold_left
    (fun buf k =>
       let keyEscaped := url.QueryEscape k in
       fold_left
         (fun buf value =>
            (if 0 <? len buf then buf ++ B "&" else buf)
              ++ keyEscaped ++ B "=" ++ url.QueryEscape value)
         (default [] (v !! k)) buf)
    keys buf
  = fold_left (fun buf p => (if 0 <? len buf then buf ++ B "&" else buf) ++ encoded_pair p)
      (pairs_of v keys) buf.
Proof.
  induction keys as [|k keys IH]; intros buf; [reflexivity |].
  cbn [fold_left pairs_of flat_map]. rewrite fold_left_app, IH. f_equal.
  generalize (default [] (v !! k)). intros vs. revert buf.
  induction vs as [|value vs IHv]; intros buf; [reflexivity |].
  cbn [fold_left map]. rewrite IHv. reflexivity.
Qed.

Lemma Encode_joined (v : url.Values) : url.Encode v = joined (pairs_of v (url.sorted_keys v)).
Proof.
  unfold url.Encode. rewrite Encode_fold, write_pairs.
  destruct (pairs_of v (url.sorted_keys v)); reflexivity.
Qed.

(** The sort keeps the keys. *)
Lemma insert_key_Permutation (k : bytes) (keys : list bytes) :
  Permutation (url.insert_key k keys) (k :: keys).
Proof.
  induction keys as [|x keys IH]; cbn [url.insert_key]; [reflexivity |].
  destruct (url.bytes_leb k x); [reflexivity |].
  rewrite IH. apply perm_swap.
Qed.

Lemma Sort_Permutation (keys : list bytes) : Permutation (url.Sort keys) keys.
Proof.
  induction keys as [|k keys IH]; cbn [url.Sort fold_right]; [reflexivity |].
  rewrite insert_key_Permutation. constructor. exact IH.
Qed.

Lemma sorted_keys_spec (v : url.Values) :
  NoDup (url.sorted_keys v)
  /\ forall k, k ∈ url.sorted_keys v <-> is_Some (v !! k).
Proof.
  unfold url.sorted_keys. split.
  - rewrite Sort_Permutation. apply NoDup_fst_map_to_list.
  - intros k. rewrite Sort_Permutation.
    change (map fst (map_to_list v)) with ((map_to_list v).*1).
    rewrite list_elem_of_fmap. split.
    + intros ([k' vs] & -> & Hin). apply elem_of_map_to_list in Hin. cbn. eauto.
    + intros (vs & Hvs). exists (k, vs). split; [reflexivity |].
      apply elem_of_map_to_list. exact Hvs.
Qed.

(** Adding the values of one key, in order. *)
Lemma add_values (k : bytes) (vs : list bytes) : forall m : url.Values,
  fold_left (fun m p => url.Values_Add m (fst p) (snd p)) (map (pair k) vs) m
  = match vs with
    | [] => m
    | _ => <[k := default [] (m !! k) ++ vs]> m
    end.
Proof.
  induction vs as [|value vs IH]; intros m; [reflexivity |].
  cbn [map fold_left fst snd]. rewrite IH. unfold url.Values_Add.
  destruct vs as [|value' vs]; [reflexivity |].
  rewrite lookup_insert_eq, insert_insert_eq. cbn [from_option id].
  rewrite <- app_assoc. reflexivity.
Qed.

Lemma add_pairs (v : url.Values) (keys : list bytes) : forall m : url.Values,
  NoDup keys ->
  (forall k, k ∈ keys -> m !! k = None) ->
  (forall k, k ∈ keys -> exists vs, v !! k = Some vs /\ vs <> []) ->
  forall k,
    (fold_left (fun m p => url.Values_Add m (fst p) (snd p)) (pairs_of v keys) m) !! k
    = if decide (k ∈ keys) then v !! k else m !! k.
Proof.
  induction keys as [|k0 keys IH]; intros m Hnd Hm Hv k.
  { cbn. destruct (decide (k ∈ [])) as [Hin | _]; [inversion Hin | reflexivity]. }
  apply NoDup_cons in Hnd. destruct Hnd as [Hk0 Hnd].
  cbn [pairs_of flat_map]. rewrite fold_left_app, add_values.
  destruct (Hv k0 (list_elem_of_here _ _)) as (vs & Hvs & Hne).
  rewrite Hvs. cbn [from_option id].
  destruct vs as [|value vs]; [contradiction |].
  rewrite (Hm k0 (list_elem_of_here _ _)). cbn [from_option id app].
  change (flat_map (fun k => map (pair k) (default [] (v !! k))) keys) with (pairs_of v keys).
  rewrite IH.
  - destruct (decide (k ∈ keys)) as [Hin | Hnin].
    + destruct (decide (k ∈ k0 :: keys)) as [_ | Hn]; [reflexivity |].
      contradiction Hn. apply list_elem_of_further. exact Hin.
    + destruct (decide (k = k0)) as [-> | Hne0].
      * rewrite lookup_insert_eq.
        destruct (decide (k0 ∈ k0 :: keys)) as [_ | Hn]; [symmetry; exact Hvs |].
        contradiction Hn. apply list_elem_of_here.
      * rewrite lookup_insert_ne by congruence.
        destruct (decide (k ∈ k0 :: keys)) as [Hin | _]; [| reflexivity].
        apply elem_of_cons in Hin. destruct Hin as [-> | Hin]; contradiction.
  - exact Hnd.
  - intros k' Hk'. rewrite lookup_insert_ne.
    + apply Hm. apply list_elem_of_further. exact Hk'.
    + intros ->. contradiction.
  - intros k' Hk'. apply Hv. apply list_elem_of_further. exact Hk'.
Qed.

(** [ParseQuery] reads back what [Encode] wrote. *)
Theorem ParseQuery_Encode (v : url.Values) :
  proper v -> url.ParseQuery (url.Encode v) = (v, None).
Proof.
  intros Hp. unfold url.ParseQuery. rewrite Encode_joined.
  rewrite parseQuery_joined by lia. f_equal.
  destruct (sorted_keys_spec v) as [Hnd Hin].
  apply map_eq. intros k. rewrite add_pairs.
  - destruct (decide (k ∈ url.sorted_keys v)) as [_ | Hn]; [reflexivity |].
    rewrite lookup_empty. symmetry. apply eq_None_not_Some. rewrite <- Hin. exact Hn.
  - exact Hnd.
  - intros k' _. apply lookup_empty.
  - intros k' Hk'. apply Hin in Hk'. destruct Hk' as (vs & Hvs).
    exists vs. split; [exact Hvs | exact (Hp k' vs Hvs)].
Qed.

Lemma proper_empty : proper ∅.
Proof. intros k vs H. rewrite lookup_empty in H. discriminate H. Qed.

Lemma proper_Set (v : url.Values) (key value : bytes) :
  proper v -> proper (url.Values_Set v key value).
Proof.
  intros Hp k vs. unfold url.Values_Set. destruct (decide (k = key)) as [-> | Hne].
  - rewrite lookup_insert_eq. intros [= <-]. discriminate.
  - rewrite lookup_insert_ne by congruence. apply Hp.
Qed.

Lemma proper_Add (v : url.Values) (key value : bytes) :
  proper v -> proper (url.Values_Add v key value).
Proof.
  intros Hp k vs. unfold url.Values_Add. destruct (decide (k = key)) as [-> | Hne].
  - rewrite lookup_insert_eq. intros [= <-]. destruct (default [] (v !! key)); discriminate.
  - rewrite lookup_insert_ne by congruence. apply Hp.
Qed.

Lemma proper_parseQuery (fuel : nat) : forall (m : url.Values) (err : option url.error) (q : bytes),
  proper m -> proper (fst (url.parseQuery fuel m err q)).
Proof.
  induction fuel as [|fuel IH]; intros m err q Hp; [exact Hp |].
  cbn [url.parseQuery]. destruct q as [|c q]; [exact Hp |].
  destruct (url.Cut (c :: q) "&") as [[key query] found].
  destruct (url.Contains key ";"); [apply IH; exact Hp |].
  destruct (bool_decide (key = [])); [apply IH; exact Hp |].
  destruct (url.Cut key "=") as [[key' value] found'].
  destruct (url.QueryUnescape key') as [k |]; [| apply IH; exact Hp].
  destruct (url.QueryUnescape value) as [val |]; [| apply IH; exact Hp].
  apply IH. apply proper_Add. exact Hp.
Qed.

Lemma proper_Query (raw : bytes) : proper (url.Query raw).
Proof. apply proper_parseQuery. apply proper_empty. Qed.

(** The query of an encoded map is the map. *)
Lemma Query_Encode (v : url.Values) : proper v -> url.Query (url.Encode v) = v.
Proof. intros Hp. unfold url.Query. rewrite (ParseQuery_Encode v Hp). reflexivity. Qed.
(** ** The request options *)

(** The decimal digits that [digits] writes are read back by [atoi]. *)
Lemma atoi_app_digit (ds r : bytes) (d u : Z) :
  0 <= d <= 9 ->
  (forall r a, time.atoi (ds ++ r) a = time.atoi r (a * 10 ^ Z.of_nat (length ds) + u)) ->
  forall a, time.atoi ((ds ++ [time.digit d]) ++ r) a
            = time.atoi r (a * 10 ^ Z.of_nat (length (ds ++ [time.digit d])) + (u * 10 + d)).
Proof.
  intros Hd H a. rewrite <- app_assoc, H. cbn [app]. rewrite atoi_digit by exact Hd.
  f_equal. rewrite length_app. cbn [length].
  replace (Z.of_nat (length ds + 1)) with (Z.of_nat (length ds) + 1) by lia.
  rewrite Z.pow_add_r by lia. lia.
Qed.

Lemma digits_atoi (fuel : nat) : forall (u : Z) (acc : bytes),
  0 <= u < 2 ^ Z.of_nat fuel ->
  exists ds, time.digits fuel u acc = ds ++ acc
             /\ forall r a, time.atoi (ds ++ r) a
                            = time.atoi r (a * 10 ^ Z.of_nat (length ds) + u).
Proof.
  induction fuel as [|fuel IH]; intros u acc Hu.
  { cbn in Hu. assert (u = 0) as -> by lia. exists []. split; [reflexivity |].
    intros r a. cbn [app length]. f_equal. cbn. lia. }
  cbn [time.digits]. destruct (Z.ltb_spec u 10) as [Hlt | Hge].
  - exists [time.digit u]. split; [reflexivity |].
    intros r a. cbn [app]. rewrite atoi_digit by lia. reflexivity.
  - assert (Hq : 0 <= u / 10 < 2 ^ Z.of_nat fuel).
    { rewrite Nat2Z.inj_succ, Z.pow_succ_r in Hu by lia. dlia. }
    destruct (IH (u / 10) (time.digit (u mod 10) :: acc) Hq) as (ds & Hds & Hat).
    exists (ds ++ [time.digit (u mod 10)]).
    split; [rewrite Hds, <- app_assoc; reflexivity |].
    intros r a. rewrite (atoi_app_digit ds r (u mod 10) (u / 10)) by (try exact Hat; dlia).
    f_equal. f_equal. dlia.
Qed.

Lemma FormatInt_atoi (n : Z) : 0 <= n -> time.atoi (strconv.FormatInt n) 0 = Some n.
Proof.
  intros Hn. unfold strconv.FormatInt.
  destruct (Z.ltb_spec n 0); [lia |]. cbn [app]. rewrite Z.abs_eq by exact Hn.
  assert (Hfuel : 0 <= n < 2 ^ Z.of_nat (S (Z.to_nat (Z.log2 n)))).
  { rewrite Nat2Z.inj_succ, Z2Nat.id by apply Z.log2_nonneg.
    destruct (Z.eq_dec n 0) as [-> | Hne]; [cbn; lia |].
    pose proof (Z.log2_spec n ltac:(lia)). lia. }
  destruct (digits_atoi _ n [] Hfuel) as (ds & -> & Hat).
  rewrite Hat. cbn [time.atoi]. f_equal; lia.
Qed.

Lemma Values_Get_Set (v : url.Values) (key value : bytes) :
  url.Values_Get (url.Values_Set v key value) key = value.
Proof. unfold url.Values_Get, url.Values_Set. rewrite lookup_insert_eq. reflexivity. Qed.

(** What an option that sets one key leaves. *)
Lemma set_option (key value raw : bytes) :
  let raw' := url.Encode (url.Values_Set (url.Query raw) key value) in
  url.Query raw' = <[key := [value]]> (url.Query raw)
  /\ url.Query raw' !! key = Some [value]
  /\ url.Values_Get (url.Query raw') key = value
  /\ forall k, k <> key -> url.Query raw' !! k = url.Query raw !! k.
Proof.
  intros raw'. subst raw'.
  rewrite Query_Encode by (apply proper_Set, proper_Query).
  unfold url.Values_Set. split; [reflexivity |].
  split; [apply lookup_insert_eq |].
  split; [apply Values_Get_Set |].
  intros k Hk. apply lookup_insert_ne. congruence.
Qed.

(** X16. [WithPageNum] and [WithPageSize] never fail.  Each leaves a raw
    query in which its parameter has one value, the decimal text of the
    number, which reads back as the number when it is not negative, and
    in which every other parameter has the values that it had in the
    query before, as far as that query parsed.  The two can be applied in
    either order: the raw query that results is the same. *)
Theorem page_options (pageNum pageSize : Z) (raw : bytes) :
  let num := fst (WithPageNum pageNum raw) in
  let size := fst (WithPageSize pageSize raw) in
  snd (WithPageNum pageNum raw) = None /\ snd (WithPageSize pageSize raw) = None
  /\ url.Query num !! B "pageNum" = Some [strconv.FormatInt pageNum]
  /\ url.Query size !! B "pageSize" = Some [strconv.FormatInt pageSize]
  /\ (forall k, k <> B "pageNum" -> url.Query num !! k = url.Query raw !! k)
  /\ (forall k, k <> B "pageSize" -> url.Query size !! k = url.Query raw !! k)
  /\ (0 <= pageNum ->
      time.atoi (url.Values_Get (url.Query num) (B "pageNum")) 0 = Some pageNum)
  /\ (0 <= pageSize ->
      time.atoi (url.Values_Get (url.Query size) (B "pageSize")) 0 = Some pageSize)
  /\ fst (WithPageSize pageSize num) = fst (WithPageNum pageNum size).
Proof.
  intros num size. subst num size. unfold WithPageNum, WithPageSize. cbn [fst snd].
  destruct (set_option (B "pageNum") (strconv.FormatInt pageNum) raw) as (HN & HN1 & HN2 & HN3).
  destruct (set_option (B "pageSize") (strconv.FormatInt pageSize) raw) as (HS & HS1 & HS2 & HS3).
  cbv zeta in HN, HN1, HN2, HN3, HS, HS1, HS2, HS3.
  split; [reflexivity |]. split; [reflexivity |].
  split; [exact HN1 |]. split; [exact HS1 |]. split; [exact HN3 |]. split; [exact HS3 |].
  split; [intros H; rewrite HN2; apply FormatInt_atoi; exact H |].
  split; [intros H; rewrite HS2; apply FormatInt_atoi; exact H |].
  rewrite HN, HS. unfold url.Values_Set. f_equal. apply insert_insert_ne. discriminate.
Qed.

(** X17. [WithFilterIncomingTransactions] and
    [WithFilterOutgoingTransactions] never fail and leave a raw query in
    which [direction] has the one value [INCOMING] or [OUTGOING]; every
    other parameter keeps its values.  Of two of them the later one
    alone counts: the raw query is the one that it leaves on its own. *)
Theorem direction_options (raw : bytes) :
  let incoming := fst (WithFilterIncomingTransactions raw) in
  let outgoing := fst (WithFilterOutgoingTransactions raw) in
  snd (WithFilterIncomingTransactions raw) = None
  /\ snd (WithFilterOutgoingTransactions raw) = None
  /\ url.Query incoming !! B "direction" = Some [B "INCOMING"]
  /\ url.Query outgoing !! B "direction" = Some [B "OUTGOING"]
  /\ (forall k, k <> B "direction" ->
        url.Query incoming !! k = url.Query raw !! k
        /\ url.Query outgoing !! k = url.Query raw !! k)
  /\ fst (WithFilterOutgoingTransactions incoming) = outgoing
  /\ fst (WithFilterIncomingTransactions outgoing) = incoming.
Proof.
  intros incoming outgoing. subst incoming outgoing.
  unfold WithFilterIncomingTransactions, WithFilterOutgoingTransactions. cbn [fst snd].
  destruct (set_option (B "direction") (B "INCOMING") raw) as (HI & HI1 & _ & HI3).
  destruct (set_option (B "direction") (B "OUTGOING") raw) as (HO & HO1 & _ & HO3).
  cbv zeta in HI, HI1, HI3, HO, HO1, HO3.
  split; [reflexivity |]. split; [reflexivity |].
  split; [exact HI1 |]. split; [exact HO1 |].
  split; [intros k Hk; split; [apply HI3 | apply HO3]; exact Hk |].
  rewrite HI, HO. unfold url.Values_Set. rewrite !insert_insert_eq. split; reflexivity.
Qed.

(** X18. [WithFilterInDateRange] never fails and leaves a raw query in which
    [startDate] and [endDate] each have one value, the RFC 3339 text of
    the date in the date's own zone; every other parameter keeps its
    values.  The colons and the sign of the zone are escaped in the raw
    query and come back: for a date in the years 0 to 9999 with a zone
    offset of whole minutes short of a day, the value parses to the date
    cut to the whole second. *)
Theorem WithFilterInDateRange_Query (startDate endDate : time.Time) (raw : bytes) :
  let raw' := fst (WithFilterInDateRange startDate endDate raw) in
  let cut t := time.mkTime (time.ns t - time.ns t mod 1000000000) (time.off t) in
  let regular t := time.off t mod 60 = 0 /\ -86400 < time.off t < 86400
                   /\ 0 <= time.Year t <= 9999 in
  snd (WithFilterInDateRange startDate endDate raw) = None
  /\ url.Query raw' !! B "startDate" = Some [time.FormatRFC3339 startDate]
  /\ url.Query raw' !! B "endDate" = Some [time.FormatRFC3339 endDate]
  /\ (forall k, k <> B "startDate" -> k <> B "endDate" ->
        url.Query raw' !! k = url.Query raw !! k)
  /\ (regular startDate ->
      time.ParseRFC3339 (url.Values_Get (url.Query raw') (B "startDate"))
      = Some (cut startDate))
  /\ (regular endDate ->
      time.ParseRFC3339 (url.Values_Get (url.Query raw') (B "endDate")) = Some (cut endDate)).
Proof.
  intros raw' cut regular. subst raw'. unfold WithFilterInDateRange. cbn [fst snd].
  rewrite Query_Encode by (do 2 apply proper_Set; apply proper_Query).
  unfold url.Values_Set, url.Values_Get.
  assert (HS : <[B "endDate" := [time.FormatRFC3339 endDate]]>
                 (<[B "startDate" := [time.FormatRFC3339 startDate]]> (url.Query raw))
               !! B "startDate" = Some [time.FormatRFC3339 startDate]).
  { rewrite lookup_insert_ne by discriminate. apply lookup_insert_eq. }
  assert (HE : <[B "endDate" := [time.FormatRFC3339 endDate]]>
                 (<[B "startDate" := [time.FormatRFC3339 startDate]]> (url.Query raw))
               !! B "endDate" = Some [time.FormatRFC3339 endDate])
    by apply lookup_insert_eq.
  split; [reflexivity |]. split; [exact HS |]. split; [exact HE |].
  split; [intros k H1 H2; rewrite !lookup_insert_ne by congruence; reflexivity |].
  rewrite HS, HE.
  split; intros (H1 & H2 & H3); apply Parse_Format_seconds; assumption.
Qed.

(** Adding the identifiers of [WithFilterAccountIDs], in order. *)
Lemma add_accounts (key : bytes) (values : list bytes) : forall v : url.Values,
  fold_left (fun q value => url.Values_Add q key value) values v
  = match values with
    | [] => v
    | _ => <[key := default [] (v !! key) ++ values]> v
    end.
Proof.
  induction values as [|value values IH]; intros v; [reflexivity |].
  cbn [fold_left]. rewrite IH. unfold url.Values_Add.
  destruct values as [|value' values]; [reflexivity |].
  rewrite lookup_insert_eq, insert_insert_eq. cbn [from_option id].
  rewrite <- app_assoc. reflexivity.
Qed.

Lemma proper_add_accounts (key : bytes) (values : list bytes) (v : url.Values) :
  proper v -> proper (fold_left (fun q value => url.Values_Add q key value) values v).
Proof.
  revert v. induction values as [|value values IH]; intros v Hp; [exact Hp |].
  cbn [fold_left]. apply IH, proper_Add, Hp.
Qed.

(** X19. [WithFilterAccountIDs] never fails.  It leaves a raw query in which
    [account] has the values that it had, followed by the canonical texts
    of the identifiers in the order given, each of which parses back to
    its identifier; every other parameter keeps its values.  Without
    identifiers no parameter changes. *)
Theorem WithFilterAccountIDs_Query (accountID : list uuid.UUID) (raw : bytes) :
  let raw' := fst (WithFilterAccountIDs accountID raw) in
  snd (WithFilterAccountIDs accountID raw) = None
  /\ (accountID = [] -> url.Query raw' = url.Query raw)
  /\ (accountID <> [] ->
      url.Query raw' !! B "account"
      = Some (default [] (url.Query raw !! B "account") ++ map uuid.String accountID))
  /\ (forall k, k <> B "account" -> url.Query raw' !! k = url.Query raw !! k)
  /\ map uuid.Parse (map uuid.String accountID) = map Ok accountID.
Proof.
  intros raw'. subst raw'. unfold WithFilterAccountIDs. cbn [fst snd].
  assert (HF : fold_left (fun q aid => url.Values_Add q (B "account") (uuid.String aid))
                 accountID (url.Query raw)
               = fold_left (fun q value => url.Values_Add q (B "account") value)
                   (map uuid.String accountID) (url.Query raw)).
  { generalize (url.Query raw). induction accountID as [|aid ids IH]; intros v; [reflexivity |].
    cbn [fold_left map]. apply IH. }
  rewrite HF, Query_Encode by (apply proper_add_accounts, proper_Query).
  rewrite add_accounts.
  split; [reflexivity |].
  split; [intros ->; reflexivity |].
  split; [| split].
  - intros Hne. destruct accountID as [|aid ids]; [contradiction |].
    cbn [map]. apply lookup_insert_eq.
  - intros k Hk. destruct (map uuid.String accountID); [reflexivity |].
    apply lookup_insert_ne. congruence.
  - induction accountID as [|aid ids IH]; [reflexivity |].
    cbn [map]. rewrite uuid_Parse_String. f_equal.
    apply IH. clear. generalize (url.Query raw).
    induction ids as [|a ids IH]; intros v; [reflexivity |]. cbn [fold_left map]. apply IH.
Qed.

(** The six options, as updates of the values of the query. *)
Lemma updates_Set (o : reqOpt) (key value : bytes) :
  (forall raw, o raw = (url.Encode (url.Values_Set (url.Query raw) key value), None)) ->
  updates o (fun v => url.Values_Set v key value).
Proof. intros H. split; [exact H | intros v Hp; apply proper_Set, Hp]. Qed.

Lemma updates_options (pageNum pageSize : Z) (startDate endDate : time.Time)
    (accountID : list uuid.UUID) :
  updates (WithPageNum pageNum)
    (fun v => url.Values_Set v (B "pageNum") (strconv.FormatInt pageNum))
  /\ updates (WithPageSize pageSize)
       (fun v => url.Values_Set v (B "pageSize") (strconv.FormatInt pageSize))
  /\ updates (WithFilterInDateRange startDate endDate)
       (fun v => url.Values_Set
                   (url.Values_Set v (B "startDate") (time.FormatRFC3339 startDate))
                   (B "endDate") (time.FormatRFC3339 endDate))
  /\ updates WithFilterIncomingTransactions
       (fun v => url.Values_Set v (B "direction") (B "INCOMING"))
  /\ updates WithFilterOutgoingTransactions
       (fun v => url.Values_Set v (B "direction") (B "OUTGOING"))
  /\ updates (WithFilterAccountIDs accountID)
       (fun v => fold_left (fun q aid => url.Values_Add q (B "account") (uuid.String aid))
                   accountID v).
Proof.
  split; [apply updates_Set; reflexivity |].
  split; [apply updates_Set; reflexivity |].
  split; [split; [reflexivity | intros v Hp; do 2 apply proper_Set; exact Hp] |].
  split; [apply updates_Set; reflexivity |].
  split; [apply updates_Set; reflexivity |].
  split; [reflexivity |]. intros v Hp. revert v Hp.
  induction accountID as [|aid ids IH]; intros v Hp; [exact Hp |].
  cbn [fold_left]. apply IH, proper_Add, Hp.
Qed.

(** X20. The loop over the options in [APIKeys] and [Transactions].  For
    options that update the values of the query, as the six options of the
    package do, the loop never fails, and after at least one option the
    raw query is the encoding of the values of the query at the start,
    updated by each option in turn: what one option writes, the next one
    reads back whole. *)
Theorem apply_options_updates (options : list reqOpt) (fs : list (url.Values -> url.Values))
    (raw : bytes) :
  Forall2 updates options fs ->
  options <> [] ->
  apply_options options raw
  = (url.Encode (fold_left (fun v f => f v) fs (url.Query raw)), None).
Proof.
  intros H. revert raw. induction H as [|o f options fs [Ho Hp] H IH]; intros raw Hne;
    [contradiction |].
  cbn [apply_options fold_left]. unfold apply. rewrite Ho.
  destruct H as [|o' f' options fs Ho' H].
  - reflexivity.
  - rewrite IH by discriminate.
    rewrite Query_Encode by (apply Hp, proper_Query). reflexivity.
Qed.

Lemma apply_options_updates_witness :
  apply_options [WithPageNum 2; WithFilterOutgoingTransactions] (B "pageNum=1&q=a+b")
  = (B "direction=OUTGOING&pageNum=2&q=a+b", None).
Proof.
  rewrite (apply_options_updates [WithPageNum 2; WithFilterOutgoingTransactions]
             [fun v => url.Values_Set v (B "pageNum") (strconv.FormatInt 2);
              fun v => url.Values_Set v (B "direction") (B "OUTGOING")]
             (B "pageNum=1&q=a+b")).
  - vm_compute. reflexivity.
  - constructor; [apply updates_Set; reflexivity |].
    constructor; [apply updates_Set; reflexivity | constructor].
  - discriminate.
Defined.
(** ** NewClient *)

Lemma std_dec_enc (v : Z) : 0 <= v < 64 ->
  base64std.dec (base64std.enc v) = Some v.
Proof.
  intros H. rewrite <- (Z2Nat.id v) by lia.
  assert (Hn : (Z.to_nat v < 64)%nat) by lia.
  generalize dependent (Z.to_nat v). intros n Hn. clear H.
  do 64 (destruct n as [|n]; [reflexivity |]). lia.
Qed.

Lemma std_decode_Encode_3 (a b c : ascii) (r : bytes) :
  base64std.decode (base64std.EncodeToString (a :: b :: c :: r))
  = match base64std.decode (base64std.EncodeToString r) with
    | Ok l => Ok (a :: b :: c :: l)
    | Err e => Err e
    end.
Proof.
  cbn [base64std.EncodeToString].
  pose proof (byte_val_range a). pose proof (byte_val_range b). pose proof (byte_val_range c).
  rewrite val24 by assumption.
  set (val := byte_val a * 65536 + byte_val b * 256 + byte_val c).
  replace (Z.land val 0x3f) with (Z.land (Z.shiftr val 0) 0x3f) by (rewrite Z.shiftr_0_r; reflexivity).
  rewrite !sextet by lia.
  cbn [base64std.decode].
  rewrite !(std_dec_enc _ (sextet_range _ _)).
  subst val. rewrite quantum_bytes. reflexivity.
Qed.

Lemma std_decode_Encode_2 (a b : ascii) :
  base64std.decode (base64std.EncodeToString [a; b]) = Ok [a; b].
Proof.
  cbn [base64std.EncodeToString].
  pose proof (byte_val_range a). pose proof (byte_val_range b).
  rewrite val16 by assumption.
  set (val := byte_val a * 65536 + byte_val b * 256).
  rewrite !sextet by lia.
  cbn [base64std.decode].
  rewrite !(std_dec_enc _ (sextet_range _ _)).
  change (base64std.dec base64.padChar) with (@None Z). cbv iota.
  change (Ascii.eqb base64.padChar base64.padChar && bool_decide (@nil ascii = [])) with true.
  cbv iota. unfold base64.quantum.
  rewrite val24_6 by (try apply sextet_range; lia).
  rewrite !Z.shiftr_div_pow2 by lia.
  change (2 ^ 18) with 262144. change (2 ^ 12) with 4096. change (2 ^ 6) with 64.
  change (2 ^ 16) with 65536. change (2 ^ 8) with 256.
  cbn [firstn]. f_equal. f_equal; [| f_equal]; apply byte_of_eq; subst val; dlia.
Qed.

Lemma std_decode_Encode_1 (a : ascii) :
  base64std.decode (base64std.EncodeToString [a]) = Ok [a].
Proof. each_byte a; reflexivity. Qed.

Lemma std_decode_Encode (l : bytes) : base64std.decode (base64std.EncodeToString l) = Ok l.
Proof.
  induction l as [| a | a b | a b c r IH] using list_ind3.
  - reflexivity.
  - apply std_decode_Encode_1.
  - apply std_decode_Encode_2.
  - rewrite std_decode_Encode_3, IH. reflexivity.
Qed.

Lemma std_enc_no_newline (v : Z) : base64.isNewline (base64std.enc v) = false.
Proof.
  unfold base64std.enc.
  destruct (nth_in_or_default (Z.to_nat v) base64std.encodeStd "A"%char) as [H | ->];
    [| reflexivity].
  revert H. generalize (nth (Z.to_nat v) base64std.encodeStd "A"%char). intros c H.
  assert (HA : forallb (fun c => negb (base64.isNewline c)) base64std.encodeStd = true)
    by (vm_compute; reflexivity).
  rewrite List.forallb_forall in HA. apply negb_true_iff. apply HA. exact H.
Qed.

Lemma std_Encode_no_newline (l : bytes) :
  List.filter (fun c => negb (base64.isNewline c)) (base64std.EncodeToString l)
  = base64std.EncodeToString l.
Proof.
  induction l as [| a | a b | a b c r IH] using list_ind3; cbn [base64std.EncodeToString];
    cbn [List.filter]; rewrite ?std_enc_no_newline; cbn [negb];
    change (base64.isNewline base64.padChar) with false; cbn [negb]; cbn [List.filter];
    rewrite ?IH; reflexivity.
Qed.

(** [StdEncoding] decodes what it encoded. *)
Lemma std_Decode_Encode (l : bytes) :
  base64std.DecodeString (base64std.EncodeToString l) = Ok l.
Proof. unfold base64std.DecodeString. rewrite std_Encode_no_newline. apply std_decode_Encode. Qed.

(** A byte outside the alphabet that is no padding makes the input
    corrupt, wherever it stands. *)
Lemma std_decode_foreign (c : ascii) :
  base64std.dec c = None -> c <> base64.padChar ->
  forall (n : nat) (s : bytes), (length s <= n)%nat -> In c s ->
  base64std.decode s = Err base64.CorruptInputError.
Proof.
  intros Hdec Hpad.
  assert (Heq : forall x, x = c -> base64std.dec x = None /\ Ascii.eqb x base64.padChar = false).
  { intros x ->. split; [exact Hdec |]. apply Ascii.eqb_neq. exact Hpad. }
  induction n as [|n IH]; intros s Hlen Hin.
  { destruct s; [contradiction | cbn in Hlen; lia]. }
  destruct s as [|c0 [|c1 [|c2 [|c3 r]]]]; try reflexivity; [contradiction |].
  cbn [base64std.decode].
  destruct Hin as [H0 | [H1 | [H2 | [H3 | Hr]]]].
  - destruct (Heq _ H0) as [-> _]. reflexivity.
  - destruct (Heq _ H1) as [-> _]. destruct (base64std.dec c0); reflexivity.
  - destruct (Heq _ H2) as [-> ->].
    destruct (base64std.dec c0); [| reflexivity]. destruct (base64std.dec c1); reflexivity.
  - destruct (Heq _ H3) as [-> ->].
    destruct (base64std.dec c0); [| reflexivity]. destruct (base64std.dec c1); [| reflexivity].
    destruct (base64std.dec c2); [reflexivity |]. rewrite andb_false_r. reflexivity.
  - assert (Hne : bool_decide (r = []) = false).
    { apply bool_decide_eq_false. intros ->. contradiction. }
    rewrite Hne, !andb_false_r.
    rewrite (IH r) by (try exact Hr; cbn in Hlen; lia).
    destruct (base64std.dec c0); [| reflexivity]. destruct (base64std.dec c1); [| reflexivity].
    destruct (base64std.dec c2); [| reflexivity]. destruct (base64std.dec c3); reflexivity.
Qed.

Section NewClientFacts.
Variable URLError : Type.
Variable url_Parse : bytes -> result URLError url.URL.
Variable HTTPClient : Type.
Variable http_DefaultClient : HTTPClient.

Local Abbreviation New := (NewClient URLError url_Parse HTTPClient http_DefaultClient).
Local Abbreviation Options := (ClientOptions HTTPClient).

(** X21. The tolerance of every client that [NewClient] returns is
    positive: it is the [MaxTimeDiff] of the options when that is
    positive and ten minutes otherwise, also without options.  For a
    [MaxTimeDiff] that is an int64, [Verify] under the client's
    tolerance accepts a token with a valid signature exactly when its
    timestamp is at most the tolerance away from the clock, before or
    after. *)
Theorem NewClient_maxTimeDiff (apiCreds : Credentials.t) (clientOpts : option Options)
    (c : ClientHandle HTTPClient) :
  New apiCreds clientOpts = Ok c ->
  (forall o, clientOpts = Some o -> MaxTimeDiff _ o <= time.maxInt64) ->
  let w := maxTimeDiff (fields _ c) in
  0 < w <= time.maxInt64
  /\ w = match clientOpts with
         | Some o => if 0 <? MaxTimeDiff _ o then MaxTimeDiff _ o else 600000000000
         | None => 600000000000
         end
  /\ forall now t body,
       Signature t = sign t (keySec (fields _ c)) body ->
       (Verify now t (keySec (fields _ c)) body w = None
        <-> Z.abs (time.ns now - time.ns (Timestamp t)) <= w).
Proof.
  intros HN Hmax w. unfold NewClient in HN.
  destruct (uuid.Parse _) as [apiKeyID |]; [| discriminate HN].
  destruct (base64std.DecodeString _) as [apiKeySec |]; [| discriminate HN].
  cbv zeta in HN. destruct (url_Parse _) as [u |]; [| discriminate HN].
  injection HN as <-. cbn [fields maxTimeDiff keySec] in *.
  assert (Hw : w = match clientOpts with
                   | Some o => if 0 <? MaxTimeDiff _ o then MaxTimeDiff _ o else 600000000000
                   | None => 600000000000
                   end) by reflexivity.
  assert (Hpos : 0 < w <= time.maxInt64).
  { rewrite Hw. unfold time.maxInt64. destruct clientOpts as [o |]; [| lia].
    specialize (Hmax o eq_refl). unfold time.maxInt64 in Hmax.
    destruct (Z.ltb_spec 0 (MaxTimeDiff _ o)); lia. }
  split; [exact Hpos |]. split; [exact Hw |].
  intros now t body Hsig.
  rewrite (Verify_valid_sig now t apiKeySec body w) by (try exact Hsig; unfold time.minInt64; lia).
  destruct (Z.leb_spec (time.ns now - w) (time.ns (Timestamp t)));
    destruct (Z.leb_spec (time.ns (Timestamp t)) (time.ns now + w));
    cbn [andb]; split; intros; try discriminate; try reflexivity; lia.
Qed.

(** X22. Credentials come back: for a key identifier in its canonical text
    and a secret in standard base64, [NewClient] fails only if the URL
    does not parse, and the client that it returns holds that key
    identifier and the bytes of that secret.  The URL that is parsed is
    the [APIBaseURL] of the options when there is one that is not empty
    and the default URL otherwise, and the HTTP client is the one of
    the options when there is one and the default client otherwise. *)
Theorem NewClient_credentials (id : uuid.UUID) (secret : bytes) (clientOpts : option Options) :
  let apiCreds := {| Credentials.APIKeyID := uuid.String id;
                     Credentials.APIKeySecret := base64std.EncodeToString secret |} in
  let raw := match clientOpts with
             | Some o => if bool_decide (APIBaseURL _ o = []) then defaultServiceURL
                         else APIBaseURL _ o
             | None => defaultServiceURL
             end in
  match New apiCreds clientOpts with
  | Ok c =>
      keyID (fields _ c) = id /\ keySec (fields _ c) = secret
      /\ url_Parse raw = Ok (baseURL _ c)
      /\ hc _ c = match clientOpts with
                    | Some o => default http_DefaultClient (HTTPClient_opt _ o)
                    | None => http_DefaultClient
                    end
  | Err e => exists cause, url_Parse raw = Err cause /\ e = ErrParseURL _ cause raw
  end.
Proof.
  intros apiCreds raw. unfold NewClient. subst apiCreds. cbn [Credentials.APIKeyID Credentials.APIKeySecret].
  rewrite uuid_Parse_String, std_Decode_Encode. cbv zeta.
  assert (Hraw : match clientOpts with
                 | Some o => if negb (bool_decide (APIBaseURL _ o = [])) then APIBaseURL _ o
                             else defaultServiceURL
                 | None => defaultServiceURL
                 end = raw).
  { subst raw. destruct clientOpts as [o |]; [| reflexivity].
    destruct (bool_decide (APIBaseURL _ o = [])); reflexivity. }
  rewrite Hraw. destruct (url_Parse raw) as [u | e].
  - cbn [fields keyID keySec baseURL hc]. repeat split.
  - exists e. split; reflexivity.
Qed.

(** X23. What [NewClient] refuses, in its order.  A key identifier that
    does not parse is refused whatever the secret and the options.
    With a key identifier that parses, a secret that holds a byte
    outside the standard alphabet of base64, such as the [-] and [_] of
    the URL-safe alphabet in which tokens are packed, is refused,
    whatever the options; the URL is not parsed. *)
Theorem NewClient_refuses (apiCreds : Credentials.t) (clientOpts : option Options) :
  (forall cause, uuid.Parse (Credentials.APIKeyID apiCreds) = Err cause ->
     New apiCreds clientOpts = Err (ErrParseKeyID _ cause (Credentials.APIKeyID apiCreds)))
  /\ (forall id c, uuid.Parse (Credentials.APIKeyID apiCreds) = Ok id ->
        In c (Credentials.APIKeySecret apiCreds) ->
        base64std.dec c = None -> c <> base64.padChar -> base64.isNewline c = false ->
        New apiCreds clientOpts = Err (ErrParseSecret _ base64.CorruptInputError)).
Proof.
  split.
  - intros cause H. unfold NewClient. rewrite H. reflexivity.
  - intros id c H Hin Hdec Hpad Hnl. unfold NewClient. rewrite H.
    unfold base64std.DecodeString.
    rewrite (std_decode_foreign c Hdec Hpad _ _ (Nat.le_refl _)); [reflexivity |].
    apply filter_In. split; [exact Hin |]. rewrite Hnl. reflexivity.
Qed.
End NewClientFacts.

Lemma NewClient_maxTimeDiff_witness :
  match NewClient unit (fun raw => Ok (url.mkURL [] [] None [] raw [] false false [] [] [])) unit tt
          {| Credentials.APIKeyID := B "123e4567-e89b-12d3-a456-426614174000";
             Credentials.APIKeySecret := B "c2VjcmV0" |}
          (Some {| APIBaseURL := []; HTTPClient_opt := None; MaxTimeDiff := -5 |}) with
  | Ok c => 0 < maxTimeDiff (fields _ c) <= time.maxInt64
  | Err _ => False
  end.
Proof.
  refine (proj1 (NewClient_maxTimeDiff unit (fun raw => Ok (url.mkURL [] [] None [] raw [] false false [] [] [])) unit tt
            {| Credentials.APIKeyID := B "123e4567-e89b-12d3-a456-426614174000";
               Credentials.APIKeySecret := B "c2VjcmV0" |}
            (Some {| APIBaseURL := []; HTTPClient_opt := None; MaxTimeDiff := -5 |})
            _ _ _)).
  - vm_compute. reflexivity.
  - intros o [= <-]. cbn. unfold time.maxInt64. lia.
Defined.
(** ** Client.do *)

Lemma Client_sign_fails (c : Client) (now : time.Time) (req : http.Request) (err : error) :
  snd (Client_sign c now req) = Some err ->
  exists data e, http.ReqBody req = Some (http.Reader data (Some e)) /\ err = ErrRead e.
Proof.
  intros H.
  destruct (http.ReqBody req) as [[|data [e|]]|] eqn:Hb.
  - rewrite Client_sign_ok in H by (rewrite Hb; exact I). discriminate H.
  - unfold Client_sign in H. rewrite Hb in H. cbn in H. injection H as <-. eauto.
  - rewrite Client_sign_ok in H by (rewrite Hb; exact I). discriminate H.
  - rewrite Client_sign_ok in H by (rewrite Hb; exact I). discriminate H.
Qed.

Lemma firstn_len {A} (n : Z) (l : list A) : 0 <= n <= len l -> len (firstn (Z.to_nat n) l) = n.
Proof. intros H. unfold len in *. rewrite length_firstn. lia. Qed.

Section DoFacts.
Variable TransportError : Type.
Variable Dst : Type.
Variable hc_Do : http.Request -> result TransportError (Response).
Variable Decode_tee : http.Body -> Dst -> Dst * option json.error * bytes.

Local Abbreviation Do := (do TransportError Dst hc_Do Decode_tee).

(** X24. Nothing leaves unsigned.  [do] gives the transport at most one
    request, the request as [Client.sign] has left it, and only when
    [Client.sign] has succeeded: that request carries in
    [Authorization] the single value [Bearer] and the packed token, a
    token with the client's key identifier and the clock's time whose
    signature is the one of the bytes of the body under the client's
    secret, and its body yields those bytes.  When [Client.sign] fails,
    [do] returns its error; nothing is sent, read or written. *)
Theorem do_sends_signed (c : Client) (now : time.Time) (dst : option Dst)
    (req : http.Request) (expectedStatusCode : Z) :
  let o := Do c now dst req expectedStatusCode in
  let signed := Client_sign c now req in
  let content := body_bytes (http.ReqBody req) in
  let token :=
    fst (Sign {| APIKeyID := keyID c; Timestamp := now; Signature := [] |} (keySec c) content) in
  do_req _ _ o = fst signed
  /\ match snd signed with
     | Some err =>
         do_err _ _ o = Some (DoSign _ err) /\ sent _ _ o = [] /\ do_dst _ _ o = dst
         /\ closed _ _ o = None /\ stdout _ _ o = []
     | None =>
         sent _ _ o = [fst signed]
         /\ http.Header (fst signed) !! B "Authorization"
            = Some [B "Bearer " ++ fst (Pack token)]
         /\ Signature token = sign token (keySec c) content
         /\ body_bytes (http.ReqBody (fst signed)) = content
     end.
Proof.
  intros o signed content token. subst o. unfold do. fold signed.
  destruct signed as [req' [err |]] eqn:Hs; cbn [fst snd].
  { repeat split. }
  assert (Hok : match http.ReqBody req with
                | Some (http.Reader _ (Some _)) => False
                | _ => True
                end).
  { destruct (http.ReqBody req) as [[|data [e|]]|] eqn:Hb; try exact I.
    subst signed. unfold Client_sign in Hs. rewrite Hb in Hs. cbn in Hs. discriminate Hs. }
  assert (Hreq : req' = fst (Client_sign c now req)) by (fold signed; rewrite Hs; reflexivity).
  rewrite (Client_sign_ok c now req Hok) in Hreq. cbn [fst] in Hreq.
  assert (Hfacts : http.Header req' !! B "Authorization" = Some [B "Bearer " ++ fst (Pack token)]
                   /\ Signature token = sign token (keySec c) content
                   /\ body_bytes (http.ReqBody req') = content).
  { rewrite Hreq. cbn [http.Header http.ReqBody].
    split; [apply lookup_insert_eq |]. split; [apply Sign_Signature |].
    subst content. destruct (http.ReqBody req) as [[|data [e|]]|]; try contradiction; reflexivity. }
  destruct (hc_Do req') as [resp | terr].
  2:{ split; [reflexivity |]. split; [reflexivity | exact Hfacts]. }
  destruct (negb (StatusCode resp =? expectedStatusCode)).
  { destruct (http.ReadAll _) as [[respBody [e |]] rest];
      (split; [reflexivity |]); (split; [reflexivity | exact Hfacts]). }
  destruct dst as [d |].
  2:{ split; [reflexivity |]. split; [reflexivity | exact Hfacts]. }
  destruct (Decode_tee _ d) as [[d' [e |]] echoed];
    (split; [reflexivity |]); (split; [reflexivity | exact Hfacts]).
Qed.

(** X25. A response with another status than the expected one makes [do]
    fail.  The error quotes the status line and the body of the
    response, of which at most [maxReadBytesOnErr], 4096, bytes are
    read: the whole body when it is shorter and ends without error, its
    first 4096 bytes when it is longer; when a shorter body ends in an
    error, that error is reported instead.  [dst] is left alone, nothing
    is written to the standard output, and the body is closed. *)
Theorem do_unexpected_status (c : Client) (now : time.Time) (dst : option Dst)
    (req : http.Request) (expectedStatusCode : Z) (resp : Response) :
  snd (Client_sign c now req) = None ->
  hc_Do (fst (Client_sign c now req)) = Ok resp ->
  StatusCode resp <> expectedStatusCode ->
  let o := Do c now dst req expectedStatusCode in
  do_dst _ _ o = dst /\ stdout _ _ o = [] /\ closed _ _ o = Some (RespBody resp)
  /\ do_err _ _ o
     = Some (match RespBody resp with
             | http.NoBody => DoUnexpected _ (RespStatus resp) []
             | http.Reader data fail =>
                 if maxReadBytesOnErr <=? len data
                 then DoUnexpected _ (RespStatus resp) (firstn 4096 data)
                 else match fail with
                      | None => DoUnexpected _ (RespStatus resp) data
                      | Some e => DoReadStatus _ e (RespStatus resp) expectedStatusCode
                      end
             end)
  /\ forall status respBody,
       do_err _ _ o = Some (DoUnexpected _ status respBody) ->
       status = RespStatus resp /\ len respBody <= 4096.
Proof.
  intros Hsign Hdo Hstatus o.
  assert (Ho : o = let '(respBody, err, _) :=
                     http.ReadAll (io.LimitReader (RespBody resp) maxReadBytesOnErr) in
                   match err with
                   | Some e =>
                       mkDoOutcome _ _
                         (Some (DoReadStatus _ e (RespStatus resp) expectedStatusCode))
                         dst (fst (Client_sign c now req)) [fst (Client_sign c now req)]
                         (Some (RespBody resp)) []
                   | None =>
                       mkDoOutcome _ _ (Some (DoUnexpected _ (RespStatus resp) respBody))
                         dst (fst (Client_sign c now req)) [fst (Client_sign c now req)]
                         (Some (RespBody resp)) []
                   end).
  { subst o. unfold do. destruct (Client_sign c now req) as [req' [err |]]; [discriminate Hsign |].
    cbn [fst] in Hdo. rewrite Hdo.
    destruct (Z.eqb_spec (StatusCode resp) expectedStatusCode); [contradiction |]. reflexivity. }
  rewrite Ho. clear Ho o.
  destruct (RespBody resp) as [|data fail] eqn:Hbody.
  - cbn. repeat split; try reflexivity.
    + injection H as <- _. reflexivity.
    + injection H as _ <-. unfold len. cbn. lia.
  - unfold io.LimitReader. destruct (Z.leb_spec maxReadBytesOnErr (len data)) as [Hle | Hlt].
    + cbn [http.ReadAll]. repeat split; try reflexivity.
      * injection H as <- _. reflexivity.
      * injection H as _ <-. rewrite firstn_len; unfold maxReadBytesOnErr in *; lia.
    + cbn [http.ReadAll]. destruct fail as [e |]; repeat split; try reflexivity;
        try discriminate H.
      * injection H as <- _. reflexivity.
      * injection H as _ <-. unfold maxReadBytesOnErr in Hlt. lia.
Qed.

(** X26. What every call of [do] keeps.  The transport is given at most
    one request.  The body of the response is closed exactly when the
    transport returned a response.  [dst] changes, and the standard
    output is written to, only when the transport returned a response
    with the expected status and [dst] is not nil; then the decoder is
    given the body cut after [maxReadBytes], 10 MiB, what it read is what
    was written to the standard output, and its error is the error of
    [do]. *)
Theorem do_effects (c : Client) (now : time.Time) (dst : option Dst)
    (req : http.Request) (expectedStatusCode : Z) :
  let o := Do c now dst req expectedStatusCode in
  (length (sent _ _ o) <= 1)%nat
  /\ (forall body, closed _ _ o = Some body
                   <-> exists r resp, sent _ _ o = [r] /\ hc_Do r = Ok resp
                                      /\ RespBody resp = body)
  /\ ((do_dst _ _ o = dst /\ stdout _ _ o = [])
      \/ exists r resp d,
           sent _ _ o = [r] /\ hc_Do r = Ok resp /\ StatusCode resp = expectedStatusCode
           /\ dst = Some d
           /\ Decode_tee (io.LimitReader (RespBody resp) (10 * 1024 * 1024)) d
              = (default d (do_dst _ _ o),
                 match do_err _ _ o with Some (DoJSON _ e) => Some e | _ => None end,
                 stdout _ _ o)).
Proof.
  intros o. subst o. unfold do.
  destruct (Client_sign c now req) as [req' [err |]].
  { split; [cbn; lia |]. split; [| left; split; reflexivity].
    intros body. split; [intros H; discriminate H |].
    intros (r & resp & H & _). discriminate H. }
  destruct (hc_Do req') as [resp | terr] eqn:Hdo.
  2:{ split; [cbn; lia |]. split; [| left; split; reflexivity].
      intros body. split; [intros H; discriminate H |].
      intros (r & resp & H & Hr & _). cbn in H. injection H as <-.
      rewrite Hdo in Hr. discriminate Hr. }
  assert (Hclosed : forall body, Some (RespBody resp) = Some body
            <-> exists r resp', [req'] = [r] /\ hc_Do r = Ok resp' /\ RespBody resp' = body).
  { intros body. split.
    - intros [= <-]. exists req', resp. repeat split. exact Hdo.
    - intros (r & resp' & [= <-] & Hr & <-). rewrite Hdo in Hr. injection Hr as <-.
      reflexivity. }
  destruct (Z.eqb_spec (StatusCode resp) expectedStatusCode) as [Heq | Hne]; cbn [negb].
  2:{ destruct (http.ReadAll _) as [[respBody [e |]] rest];
        (split; [cbn; lia |]); (split; [exact Hclosed | left; split; reflexivity]). }
  destruct dst as [d |].
  2:{ split; [cbn; lia |]. split; [exact Hclosed | left; split; reflexivity]. }
  destruct (Decode_tee (io.LimitReader (RespBody resp) maxReadBytes) d)
    as [[d' [e |]] echoed] eqn:HD;
    (split; [cbn; lia |]); (split; [exact Hclosed |]); right;
    exists req', resp, d; repeat split; try assumption; exact HD.
Qed.
End DoFacts.

Lemma do_unexpected_status_witness :
  do_err _ _
    (do unit unit
       (fun _ => Ok {| RespStatus := B "404 Not Found"; StatusCode := 404;
                       RespBody := http.Reader (repeat "x"%char 5000) None |})
       (fun _ d => (d, None, []))
       sample.client sample.now None
       {| http.Method := B "GET"; http.URL := B "https://api.birapi.com/corpbank/aispis/v1/me";
          http.Header := ∅; http.ReqBody := None |} 200)
  = Some (DoUnexpected _ (B "404 Not Found") (repeat "x"%char 4096)).
Proof.
  refine (proj1 (proj2 (proj2 (proj2 (do_unexpected_status unit unit
            (fun _ => Ok {| RespStatus := B "404 Not Found"; StatusCode := 404;
                            RespBody := http.Reader (repeat "x"%char 5000) None |})
            (fun _ d => (d, None, []))
            sample.client sample.now None
            {| http.Method := B "GET";
               http.URL := B "https://api.birapi.com/corpbank/aispis/v1/me";
               http.Header := ∅; http.ReqBody := None |} 200
            {| RespStatus := B "404 Not Found"; StatusCode := 404;
               RespBody := http.Reader (repeat "x"%char 5000) None |} _ _ _))))).
  - reflexivity.
  - reflexivity.
  - discriminate.
Defined.
(** ** Client.path *)

Lemma name_byte_facts (c : ascii) :
  name_byte c = true ->
  url.shouldEscape c = false /\ Ascii.eqb c "/" = false /\ Ascii.eqb c "." = false.
Proof. each_byte c; intros H; try discriminate H; repeat split. Qed.

Lemma QueryEscape_name (s : bytes) : forallb name_byte s = true -> url.QueryEscape s = s.
Proof.
  induction s as [|c s IH]; [reflexivity |]. cbn [forallb url.QueryEscape]. intros H.
  apply andb_prop in H. destruct H as [Hc Hs].
  destruct (name_byte_facts c Hc) as (-> & _). cbn [app]. rewrite (IH Hs). reflexivity.
Qed.

Lemma element_name (e rest : bytes) :
  forallb name_byte e = true -> path.at_end rest = true ->
  path.element (e ++ rest) = (e, rest).
Proof.
  intros He Hrest. induction e as [|c e IH].
  - destruct rest as [|c rest]; [reflexivity |]. cbn in Hrest |- *. rewrite Hrest. reflexivity.
  - cbn [forallb] in He. apply andb_prop in He. destruct He as [Hc He].
    destruct (name_byte_facts c Hc) as (_ & Hs & _).
    cbn [app path.element]. rewrite Hs, (IH He). reflexivity.
Qed.

Lemma clean_loop_nil (fuel : nat) (rooted : bool) (dotdot : nat) (out : bytes) :
  path.clean_loop fuel rooted dotdot out [] = out.
Proof. destruct fuel; reflexivity. Qed.

(** One round of the loop on a name. *)
Lemma clean_loop_name (fuel dotdot : nat) (out e rest : bytes) :
  name e -> path.at_end rest = true ->
  path.clean_loop (S fuel) true dotdot out (e ++ rest)
  = path.clean_loop fuel true dotdot
      ((if (length out =? 1)%nat then out else out ++ B "/") ++ e) rest.
Proof.
  intros [Hne He] Hrest. destruct e as [|c e]; [contradiction |].
  pose proof He as He'. cbn [forallb] in He. apply andb_prop in He. destruct He as [Hc _].
  destruct (name_byte_facts c Hc) as (_ & Hs & Hd).
  cbn [path.clean_loop app]. rewrite Hs, Hd. cbn [andb].
  change (c :: e ++ rest) with ((c :: e) ++ rest). rewrite (element_name _ _ He' Hrest).
  cbn [andb orb negb]. destruct (length out =? 1)%nat; reflexivity.
Qed.

Lemma at_end_slashed (es : list bytes) (rest : bytes) :
  path.at_end rest = true -> path.at_end (slashed es ++ rest) = true.
Proof. intros H. destruct es; [exact H | reflexivity]. Qed.

Lemma slashed_app (es fs : list bytes) : slashed (es ++ fs) = slashed es ++ slashed fs.
Proof. unfold slashed. rewrite map_app, concat_app. reflexivity. Qed.

(** The loop on the elements of a rooted path of names. *)
Lemma clean_loop_slashed (es : list bytes) : forall (fuel dotdot : nat) (out rest : bytes),
  Forall name es -> path.at_end rest = true ->
  (1 < length out)%nat ->
  (length (slashed es ++ rest) <= fuel)%nat ->
  exists fuel', (length rest <= fuel')%nat
                /\ path.clean_loop fuel true dotdot out (slashed es ++ rest)
                   = path.clean_loop fuel' true dotdot (out ++ slashed es) rest.
Proof.
  induction es as [|e es IH]; intros fuel dotdot out rest Hes Hrest Hout Hfuel.
  { exists fuel. split; [exact Hfuel |]. cbn. rewrite app_nil_r. reflexivity. }
  apply Forall_cons in Hes. destruct Hes as [He Hes].
  change (slashed (e :: es)) with ("/"%char :: e ++ slashed es) in *.
  cbn [app] in *. rewrite <- app_assoc in *. cbn [length] in Hfuel. rewrite length_app in Hfuel.
  assert (Hlen : (0 < length e)%nat) by (destruct He as [Hne _]; destruct e; [contradiction | cbn; lia]).
  destruct fuel as [|[|fuel]]; try lia.
  change (path.clean_loop (S (S fuel)) true dotdot out ("/"%char :: e ++ slashed es ++ rest))
    with (path.clean_loop (S fuel) true dotdot out (e ++ slashed es ++ rest)).
  rewrite clean_loop_name by (try exact He; apply at_end_slashed, Hrest).
  destruct (Nat.eqb_spec (length out) 1) as [E | _]; [lia |].
  destruct (IH fuel dotdot ((out ++ B "/") ++ e) rest Hes Hrest) as (fuel' & Hf & Heq).
  - rewrite !length_app. cbn. lia.
  - lia.
  - exists fuel'. split; [exact Hf |]. rewrite Heq. f_equal.
    rewrite <- !app_assoc. reflexivity.
Qed.

(** [Clean] on a rooted path of names followed by [rest]. *)
Lemma Clean_slashed_rest (e : bytes) (es : list bytes) (rest : bytes) :
  name e -> Forall name es -> path.at_end rest = true ->
  exists fuel, (length rest <= fuel)%nat
               /\ path.Clean (slashed (e :: es) ++ rest)
                  = let out := path.clean_loop fuel true 1 (slashed (e :: es)) rest in
                    match out with
                    | [] => B "."
                    | _ => out
                    end.
Proof.
  intros He Hes Hrest.
  change (slashed (e :: es)) with ("/"%char :: e ++ slashed es).
  cbn [app]. rewrite <- app_assoc. unfold path.Clean.
  change (Ascii.eqb "/" "/") with true. cbv iota.
  assert (Hlen : (0 < length e)%nat) by (destruct He as [Hne _]; destruct e; [contradiction | cbn; lia]).
  cbn [length]. rewrite clean_loop_name by (try exact He; apply at_end_slashed, Hrest).
  change (length (B "/") =? 1)%nat with true. cbv iota.
  destruct (clean_loop_slashed es (length (e ++ slashed es ++ rest)) 1 (B "/" ++ e) rest Hes Hrest)
    as (fuel' & Hf & Heq).
  - rewrite length_app. change (length (B "/")) with 1%nat. lia.
  - rewrite !length_app. lia.
  - exists fuel'. split; [exact Hf |]. rewrite Heq. rewrite <- app_assoc. reflexivity.
Qed.

Lemma slashed_nonempty (e : bytes) (es : list bytes) : slashed (e :: es) <> [].
Proof. discriminate. Qed.

(** A rooted path of names is clean. *)
Lemma Clean_slashed (es : list bytes) :
  es <> [] -> Forall name es -> path.Clean (slashed es) = slashed es.
Proof.
  intros Hne Hes. destruct es as [|e es]; [contradiction |].
  apply Forall_cons in Hes. destruct Hes as [He Hes].
  destruct (Clean_slashed_rest e es [] He Hes eq_refl) as (fuel & _ & Heq).
  rewrite app_nil_r in Heq. rewrite Heq, clean_loop_nil. reflexivity.
Qed.

Lemma Join_two (a b : bytes) : a <> [] -> b <> [] -> path.Join [a; b] = path.Clean (a ++ B "/" ++ b).
Proof.
  intros Ha Hb. unfold path.Join. cbn [fold_left].
  destruct a as [|x a]; [contradiction |]. destruct b as [|y b]; [contradiction |].
  cbn [length Nat.add Nat.eqb Nat.ltb Nat.leb orb app]. cbv iota.
  rewrite (bool_decide_eq_false_2 (x :: a = [])) by discriminate.
  cbn [negb length orb]. cbv iota. rewrite <- app_assoc. reflexivity.
Qed.

(** [Join] of a rooted path of names and one more name. *)
Lemma Join_slashed (es : list bytes) (n : bytes) :
  es <> [] -> Forall name es -> name n ->
  path.Join [slashed es; n] = slashed (es ++ [n]).
Proof.
  intros Hne Hes Hn.
  rewrite Join_two; [| destruct es; [contradiction | discriminate] | exact (proj1 Hn)].
  rewrite <- (Clean_slashed (es ++ [n])).
  - rewrite slashed_app. unfold slashed at 3. cbn. rewrite app_nil_r. reflexivity.
  - destruct es; discriminate.
  - apply Forall_app. split; [exact Hes |]. constructor; [exact Hn | constructor].
Qed.

Lemma name_uuid (u : uuid.UUID) : name (uuid.String u).
Proof.
  split.
  - intros H. apply (f_equal (@length ascii)) in H. rewrite uuid_String_length in H. discriminate H.
  - assert (Hhex : forall l, forallb name_byte (hex.EncodeToString l) = true).
    { intros l. pose proof (hex_lowercase l) as H. rewrite List.Forall_forall in H.
      apply List.forallb_forall. intros c Hc. specialize (H c Hc).
      cbn in H. repeat (destruct H as [<- | H]; [reflexivity |]). contradiction. }
    unfold uuid.String. rewrite !forallb_app, !Hhex. reflexivity.
Qed.

(** Backtracking over a last element that is a name. *)
Lemma backtrack_name (l R : bytes) :
  l <> [] -> forallb name_byte l = true ->
  path.backtrack 1 (l ++ "/"%char :: R) = match R with [] => B "/" | _ => R end.
Proof.
  intros Hne Hl. induction l as [|b l IH]; [contradiction |].
  cbn [forallb] in Hl. apply andb_prop in Hl. destruct Hl as [Hb Hl].
  destruct (name_byte_facts b Hb) as (_ & Hs & _).
  cbn [app path.backtrack]. rewrite Hs. cbn [negb]. rewrite andb_true_r.
  destruct l as [|b' l].
  - cbn [app length]. destruct R as [|x R]; [reflexivity |].
    cbn [Nat.ltb Nat.leb length]. cbn [path.backtrack]. rewrite andb_false_r. reflexivity.
  - replace (1 <? length ((b' :: l) ++ "/"%char :: R))%nat with true.
    + apply IH; [discriminate | exact Hl].
    + symmetry. apply Nat.ltb_lt. rewrite length_app. cbn. lia.
Qed.

Lemma forallb_name_rev (e : bytes) : forallb name_byte e = true -> forallb name_byte (rev e) = true.
Proof.
  intros H. rewrite List.forallb_forall in *. intros c Hc. apply H. apply in_rev. exact Hc.
Qed.

(** [Join] of a rooted path of names and [..] drops the last name. *)
Lemma Join_dotdot (es : list bytes) (e : bytes) :
  Forall name es -> name e ->
  path.Join [slashed (es ++ [e]); B ".."]
  = match es with [] => B "/" | _ => slashed es end.
Proof.
  intros Hes He.
  assert (Hall : Forall name (es ++ [e]))
    by (apply Forall_app; split; [exact Hes | constructor; [exact He | constructor]]).
  rewrite Join_two; [| destruct es; discriminate | discriminate].
  destruct (es ++ [e]) as [|e0 es0] eqn:Hl; [destruct es; discriminate Hl |].
  apply Forall_cons in Hall. destruct Hall as [He0 Hes0].
  destruct (Clean_slashed_rest e0 es0 (B "/" ++ B "..") He0 Hes0 eq_refl) as (fuel & Hf & Heq).
  rewrite Heq. clear Heq. rewrite <- Hl. clear Hl He0 Hes0 e0 es0.
  change (length (B "/" ++ B "..")) with 3%nat in Hf.
  destruct fuel as [|[|fuel]]; try lia.
  change (path.clean_loop (S (S fuel)) true 1 (slashed (es ++ [e])) (B "/" ++ B ".."))
    with (if (1 <? length (slashed (es ++ [e])))%nat
          then path.clean_loop fuel true 1
                 (rev (path.backtrack 1 (rev (slashed (es ++ [e]))))) []
          else path.clean_loop fuel true 1 (slashed (es ++ [e])) []).
  rewrite !clean_loop_nil.
  assert (Hs : slashed (es ++ [e]) = slashed es ++ "/"%char :: e).
  { rewrite slashed_app. unfold slashed at 2. cbn. rewrite app_nil_r. reflexivity. }
  rewrite Hs.
  assert (Hlen : (1 <? length (slashed es ++ "/"%char :: e))%nat = true).
  { apply Nat.ltb_lt. rewrite length_app. cbn [length].
    destruct He as [Hne _]. destruct e; [contradiction | cbn; lia]. }
  rewrite Hlen. cbv zeta.
  rewrite rev_app_distr. cbn [rev]. rewrite <- app_assoc. cbn [app].
  rewrite backtrack_name.
  - destruct es as [|e1 es]; [reflexivity |].
    destruct (rev (slashed (e1 :: es))) as [|x R] eqn:Hr.
    { apply (f_equal (@length ascii)) in Hr. rewrite length_rev in Hr. discriminate Hr. }
    rewrite <- Hr, rev_involutive. reflexivity.
  - destruct He as [Hne _]. intros H. apply Hne.
    apply (f_equal (@rev ascii)) in H. rewrite rev_involutive in H. exact H.
  - apply forallb_name_rev. apply He.
Qed.

Section PathFacts.
Variable HTTPClient : Type.
Variable URL_String : url.URL -> bytes.

Local Abbreviation Path_of := (Client_path HTTPClient URL_String).

Lemma with_Path_same (u : url.URL) : url.with_Path u (url.Path u) = u.
Proof. destruct u. reflexivity. Qed.

Lemma Path_with_Path (u : url.URL) (p : bytes) : url.Path (url.with_Path u p) = p.
Proof. reflexivity. Qed.

Lemma with_Path_twice (u : url.URL) (p q : bytes) :
  url.with_Path (url.with_Path u p) q = url.with_Path u q.
Proof. reflexivity. Qed.

(** X27. For a base URL whose path is a rooted path of names, such as the
    path [/corpbank/aispis/v1] of the default URL, and segments that
    are names, such as the fixed segments of the API and the canonical
    text of a UUID: [path] hands to [String] the base URL with the
    segments appended to its path, each after a [/]; nothing is escaped
    and nothing is cleaned away. *)
Theorem Client_path_names (c : ClientHandle HTTPClient) (es p : list bytes) :
  es <> [] -> Forall name es -> Forall name p ->
  url.Path (baseURL _ c) = slashed es ->
  Path_of c p = URL_String (url.with_Path (baseURL _ c) (slashed (es ++ p))).
Proof.
  intros Hne Hes Hp Hpath. unfold Client_path. f_equal.
  rewrite <- (with_Path_same (baseURL _ c)) at 1. rewrite Hpath.
  generalize (baseURL _ c). intros u. clear Hpath.
  revert es Hne Hes. induction Hp as [|n p Hn Hp IH]; intros es Hne Hes.
  { rewrite app_nil_r. reflexivity. }
  cbn [fold_left]. rewrite Path_with_Path, with_Path_twice.
  rewrite (QueryEscape_name n (proj2 Hn)), (Join_slashed es n Hne Hes Hn).
  rewrite IH.
  - rewrite <- app_assoc. reflexivity.
  - destruct es; discriminate.
  - apply Forall_app. split; [exact Hes |]. constructor; [exact Hn | constructor].
Qed.
(** X28. The segment [..] is not escaped: on a base URL whose path is a
    rooted path of names, it makes [path] hand to [String] the base URL
    without the last name of its path, and with the path [/] when that
    name was the only one. *)
Theorem Client_path_dotdot (c : ClientHandle HTTPClient) (es : list bytes) (e : bytes) :
  Forall name es -> name e ->
  url.Path (baseURL _ c) = slashed (es ++ [e]) ->
  Path_of c [B ".."]
  = URL_String (url.with_Path (baseURL _ c)
                  (match es with [] => B "/" | _ => slashed es end)).
Proof.
  intros Hes He Hpath. unfold Client_path. cbn [fold_left].
  rewrite Hpath. change (url.QueryEscape (B "..")) with (B "..").
  rewrite (Join_dotdot es e Hes He). reflexivity.
Qed.
End PathFacts.

Lemma Client_path_names_witness :
  Client_path unit url.Path
    {| fields := sample.client;
       baseURL := url.mkURL (B "https") [] None (B "api.birapi.com") (B "/corpbank/aispis/v1") []
                    false false [] [] [];
       hc := tt |}
    [B "accounts"; uuid.String sample.id; B "balance"]
  = B "/corpbank/aispis/v1/accounts/123e4567-e89b-12d3-a456-426614174000/balance".
Proof.
  rewrite (Client_path_names unit url.Path
             {| fields := sample.client;
                baseURL := url.mkURL (B "https") [] None (B "api.birapi.com")
                             (B "/corpbank/aispis/v1") [] false false [] [] [];
                hc := tt |}
             [B "corpbank"; B "aispis"; B "v1"]
             [B "accounts"; uuid.String sample.id; B "balance"]).
  - reflexivity.
  - discriminate.
  - repeat (constructor; [split; [discriminate | reflexivity] |]). constructor.
  - constructor; [split; [discriminate | reflexivity] |].
    constructor; [apply name_uuid |].
    constructor; [split; [discriminate | reflexivity] | constructor].
  - reflexivity.
Defined.

Lemma Client_path_dotdot_witness :
  Client_path unit url.Path
    {| fields := sample.client;
       baseURL := url.mkURL (B "https") [] None (B "api.birapi.com") (B "/corpbank/aispis/v1") []
                    false false [] [] [];
       hc := tt |}
    [B ".."]
  = B "/corpbank/aispis".
Proof.
  apply (Client_path_dotdot unit url.Path
           {| fields := sample.client;
              baseURL := url.mkURL (B "https") [] None (B "api.birapi.com")
                           (B "/corpbank/aispis/v1") [] false false [] [] [];
              hc := tt |}
           [B "corpbank"; B "aispis"] (B "v1")).
  - repeat (constructor; [split; [discriminate | reflexivity] |]). constructor.
  - split; [discriminate | reflexivity].
  - reflexivity.
Defined.
(** ** The loops end within their bounds *)

Lemma Cut_length (s : bytes) (sep : ascii) :
  (length (snd (fst (url.Cut s sep))) <= length s - 1)%nat.
Proof.
  induction s as [|c s IH]; [cbn; lia |].
  cbn [url.Cut]. destruct (Ascii.eqb c sep); [cbn; lia |].
  destruct (url.Cut s sep) as [[b a] f]. cbn [fst snd length] in *. lia.
Qed.

(** The loop of [parseQuery] takes at least one byte off the query in
    each round: as many rounds as the query has bytes are enough, and
    more change nothing. *)
Lemma parseQuery_fuel (fuel1 : nat) :
  forall (fuel2 : nat) (m : url.Values) (err : option url.error) (query : bytes),
  (length query <= fuel1)%nat -> (length query <= fuel2)%nat ->
  url.parseQuery fuel1 m err query = url.parseQuery fuel2 m err query.
Proof.
  induction fuel1 as [|fuel1 IH]; intros fuel2 m err query H1 H2.
  { destruct query; [| cbn in H1; lia]. rewrite !parseQuery_nil. reflexivity. }
  destruct query as [|c q]; [rewrite !parseQuery_nil; reflexivity |].
  destruct fuel2 as [|fuel2]; [cbn in H2; lia |].
  cbn [url.parseQuery].
  pose proof (Cut_length (c :: q) "&") as HL.
  destruct (url.Cut (c :: q) "&") as [[key rest] found]. cbn [fst snd length] in HL, H1, H2.
  assert (Hr1 : (length rest <= fuel1)%nat) by lia.
  assert (Hr2 : (length rest <= fuel2)%nat) by lia.
  destruct (url.Contains key ";"); [apply IH; assumption |].
  destruct (bool_decide (key = [])); [apply IH; assumption |].
  destruct (url.Cut key "=") as [[k v] f].
  destruct (url.QueryUnescape k); [| apply IH; assumption].
  destruct (url.QueryUnescape v); apply IH; assumption.
Qed.

Lemma element_length (s : bytes) :
  (length (snd (path.element s)) <= length s)%nat
  /\ (forall c r, s = c :: r -> Ascii.eqb c "/" = false ->
        (length (snd (path.element s)) < length s)%nat).
Proof.
  induction s as [|c s [IH _]]; [split; [cbn; lia | intros c r H; discriminate H] |].
  cbn [path.element]. destruct (Ascii.eqb c "/") eqn:E.
  - split; [cbn; lia |]. intros c' r [= <- <-] H. rewrite E in H. discriminate H.
  - destruct (path.element s) as [e rest]. cbn [snd length] in *. split; [lia |].
    intros; lia.
Qed.

(** The loop of [Clean] takes at least one byte off the path in each
    round: as many rounds as the path has bytes are enough, and more
    change nothing. *)
Lemma clean_loop_fuel (fuel1 : nat) :
  forall (fuel2 : nat) (rooted : bool) (dotdot : nat) (out s : bytes),
  (length s <= fuel1)%nat -> (length s <= fuel2)%nat ->
  path.clean_loop fuel1 rooted dotdot out s = path.clean_loop fuel2 rooted dotdot out s.
Proof.
  induction fuel1 as [|fuel1 IH]; intros fuel2 rooted dotdot out s H1 H2.
  { destruct s; [| cbn in H1; lia]. rewrite !clean_loop_nil. reflexivity. }
  destruct s as [|c s1]; [rewrite !clean_loop_nil; reflexivity |].
  destruct fuel2 as [|fuel2]; [cbn in H2; lia |].
  cbn [length] in H1, H2. cbn [path.clean_loop].
  destruct (Ascii.eqb c "/") eqn:Es; [apply IH; lia |].
  destruct (Ascii.eqb c "." && path.at_end s1); [apply IH; lia |].
  assert (Ht : (length (tl s1) <= length s1)%nat) by (destruct s1; cbn; lia).
  destruct (Ascii.eqb c "." && Ascii.eqb (hd "/"%char s1) "." && path.at_end (tl s1)).
  - destruct (dotdot <? length out)%nat; [apply IH; lia |].
    destruct (negb rooted); apply IH; lia.
  - pose proof (proj2 (element_length (c :: s1)) c s1 eq_refl Es) as HL.
    destruct (path.element (c :: s1)) as [e rest]. cbn [snd length] in HL.
    apply IH; lia.
Qed.
(** ** What the receiving side does not look at *)

Lemma object_app (a b c d extra : bytes) :
  ("{"%char :: a ++ ","%char :: b ++ ","%char :: c ++ ","%char :: d ++ ["}"%char]) ++ extra
  = "{"%char :: a ++ ","%char :: b ++ ","%char :: c ++ ","%char :: d ++ "}"%char :: extra.
Proof. cbn [app]. repeat (rewrite <- app_assoc; cbn [app]). reflexivity. Qed.

(** [Decode] reads the object that [Marshal] wrote and leaves what
    follows it. *)
Lemma json_Decode_Marshal_rest (t : tokenJSON) (text extra : bytes) :
  plain (tj_APIKeyID t) -> plain (tj_Timestamp t) ->
  plain (tj_SigningAlgo t) -> plain (tj_Signature t) ->
  json.Marshal t = Ok text ->
  json.Decode (text ++ extra) = Ok t.
Proof.
  intros H1 H2 H3 H4. rewrite Marshal_members by assumption. intros HM.
  apply (f_equal (fun r : result unit bytes => match r with Ok b => b | Err _ => [] end)) in HM.
  cbv beta iota in HM. subst text.
  rewrite object_app. unfold json.Decode.
  match goal with |- context [json.parse_value (S (length ?b)) 0 ?b] => set (buf := b) end.
  assert (Hfuel : exists n, length buf = S (S (S (S (S (S n)))))).
  { subst buf. unfold member. cbn [length app]. eexists. reflexivity. }
  destruct Hfuel as [n Hn]. rewrite Hn. subst buf.
  assert (Hk1 : plain (B "apiKeyID")) by (apply plain_literal; reflexivity).
  assert (Hk2 : plain (B "timestamp")) by (apply plain_literal; reflexivity).
  assert (Hk3 : plain (B "algo")) by (apply plain_literal; reflexivity).
  assert (Hk4 : plain (B "signature")) by (apply plain_literal; reflexivity).
  cbn [json.skip_ws]. change (json.isSpace "{") with false. cbv iota.
  rewrite member_app at 1. rewrite parse_value_object by (unfold json.maxNestingDepth; lia).
  rewrite <- member_app.
  rewrite (member_app (B "apiKeyID")), parse_members_more by assumption.
  rewrite skip_ws_member.
  rewrite (member_app (B "timestamp")), parse_members_more by assumption.
  rewrite skip_ws_member.
  rewrite (member_app (B "algo")), parse_members_more by assumption.
  rewrite skip_ws_member.
  rewrite (member_app (B "signature")), parse_members_last by assumption.
  destruct t. reflexivity.
Qed.

(** X29. [Unpack] reads the first JSON value of the decoded content and
    nothing after it: the JSON text of a token followed by any bytes, in
    base64 and within [maxPackedLen], unpacks to the token that the text
    alone unpacks to, the token with its timestamp cut to the second. *)
Theorem Unpack_ignores_trailing (t r : BearerToken) (text extra : bytes) :
  time.off (Timestamp t) mod 60 = 0 ->
  -86400 < time.off (Timestamp t) < 86400 ->
  0 <= time.Year (Timestamp t) <= 9999 ->
  json.Marshal (Pack_json t) = Ok text ->
  len (base64.EncodeToString (text ++ extra)) <= maxPackedLen ->
  fst (Pack t) = base64.EncodeToString text
  /\ Unpack r (base64.EncodeToString (text ++ extra))
     = ({| APIKeyID := APIKeyID t;
           Timestamp := time.mkTime (time.ns (Timestamp t) - time.ns (Timestamp t) mod 1000000000)
                          (time.off (Timestamp t));
           Signature := Signature t |}, None).
Proof.
  intros Hoff60 Hoff Hyear HM Hlen.
  split; [unfold Pack; rewrite HM; reflexivity |].
  destruct (plain_Pack_json t) as (H1 & H2 & H3 & H4).
  unfold Unpack, Unpack_with.
  destruct (Z.ltb_spec maxPackedLen (len (base64.EncodeToString (text ++ extra)))); [lia |].
  rewrite base64_Decode_Encode.
  rewrite (json_Decode_Marshal_rest (Pack_json t) text extra H1 H2 H3 H4 HM).
  unfold Pack_json. cbn [tj_APIKeyID tj_Timestamp tj_SigningAlgo tj_Signature].
  rewrite uuid_Parse_String, Parse_Format_seconds by assumption.
  rewrite algo_tag_ok. cbn [negb].
  rewrite hex_Decode_Encode. reflexivity.
Qed.

Lemma Unpack_ignores_trailing_witness :
  Unpack sample.zero
    (base64.EncodeToString
       (match json.Marshal (Pack_json sample.token) with Ok text => text | Err _ => [] end
        ++ B " anything"))
  = ({| APIKeyID := sample.id; Timestamp := time.mkTime 1714564800000000000 10800;
        Signature := Signature sample.token |}, None).
Proof.
  refine (proj2 (Unpack_ignores_trailing sample.token sample.zero
            (match json.Marshal (Pack_json sample.token) with Ok text => text | Err _ => [] end)
            (B " anything") _ _ _ _ _)).
  - reflexivity.
  - cbn. lia.
  - split; apply Z.leb_le; vm_compute; reflexivity.
  - reflexivity.
  - apply Z.leb_le. vm_compute. reflexivity.
Defined.

Section HeaderTolerance.
Variable Transaction : Type.
Variable json_Unmarshal : bytes -> result json.error Transaction.
Variable HandlerError : Type.

Local Abbreviation Handler := (WebhookHandler Transaction json_Unmarshal HandlerError).

(** X30. The handler reads of the [Authorization] header the token alone:
    two requests with the same body whose headers have the form asked
    for and carry the same token, whatever the case of the letters of
    [Bearer] and the white space around the token, and whatever their
    other headers, methods and URLs, are answered alike. *)
Theorem WebhookHandler_header_tolerant (c : Client)
    (handler : Transaction -> option HandlerError) (now : time.Time)
    (w : http.ResponseWriter (werror HandlerError)) (r r' : http.Request) (v : bytes) :
  bearer_header r v -> bearer_header r' v ->
  http.ReqBody r = http.ReqBody r' ->
  Handler c handler now w r = Handler c handler now w r'.
Proof.
  intros (h1 & Hv1 & Hl1 & Hb1 & Hvv1 & Hn1) (h2 & Hv2 & Hl2 & Hb2 & Hvv2 & Hn2) Hbody.
  unfold WebhookHandler. rewrite Hv1, Hv2.
  destruct (Z.ltb_spec (len (strings.TrimSpace h1)) 7); [lia |].
  destruct (Z.ltb_spec (len (strings.TrimSpace h2)) 7); [lia |].
  rewrite Hb1, Hb2. change (negb (strings.bytes_eqb (B "bearer ") (B "bearer "))) with false.
  cbv iota. rewrite <- Hvv1, <- Hvv2, Hbody. reflexivity.
Qed.
End HeaderTolerance.

Lemma WebhookHandler_header_tolerant_witness :
  WebhookHandler unit (fun _ => Ok tt) unit sample.client (fun _ => None) sample.now
    sample.writer sample.request
  = WebhookHandler unit (fun _ => Ok tt) unit sample.client (fun _ => None) sample.now
      sample.writer
      {| http.Method := B "PUT"; http.URL := B "/";
         http.Header := {[ B "Authorization" := [B "  bEaReR   " ++ sample.packed ++ B "  "];
                           B "Content-Type" := [B "application/json"] ]};
         http.ReqBody := Some (http.Reader sample.payload None) |}.
Proof.
  apply (WebhookHandler_header_tolerant unit (fun _ => Ok tt) unit sample.client
           (fun _ => None) sample.now sample.writer sample.request _ sample.packed).
  - apply sample_bearer_header.
  - exists (B "  bEaReR   " ++ sample.packed ++ B "  ").
    split; [vm_compute; reflexivity |].
    split; [apply Z.leb_le; vm_compute; reflexivity |].
    split; [vm_compute; reflexivity |].
    split; [vm_compute; reflexivity |].
    intros H. vm_compute in H. discriminate H.
  - reflexivity.
Defined.
